(** * swarm: usage-limit parser, pane watchdog and CLI fallback selector

    A shallow embedding of
    - [internal/usagelimit/parser.go]     (module [Usagelimit]),
    - [internal/monitor/monitor.go]       (module [Monitor]),
    - the configuration record            (module [Config]),
    - the worker helpers of [cmd/root.go] (module [Cmd]) and the launch of
      the workers in its versions that start these watchdogs (module [Root]),
    - [MaxWindowIndex] of [internal/tmux]  (module [Tmux]),
    together with the part of Go's [regexp], [strconv], [strings] and
    [time] packages that these files rely on (modules [Go], [Regexp],
    [Strings] and [Time]).

    The definitions come first: the program, then what a pattern denotes
    ([Denote]), the shapes of a watchdog's history ([History]), the calls a
    watchdog may make ([Footprint]) and a few concrete runs ([Scenario]).  The properties follow, one module of
    facts per subject. *)

From Stdlib Require Import ZArith String Ascii List Bool Lia DecimalString DecimalZ DecimalPos.
Import ListNotations.
Local Open Scope Z_scope.

Set Implicit Arguments.

(* ------------------------------------------------------------------ *)
(** ** Go base types *)

Module Go.

(** A [rune] is a Unicode code point.  The [regexp] package reads a Go
    string rune by rune, so a text is modelled as the rune sequence it
    decodes to. *)
Definition rune := Z.
Definition text := list rune.

(** The runes of an ASCII literal. *)
Definition runes (s : string) : text :=
  map (fun a => Z.of_N (N_of_ascii a)) (list_ascii_of_string s).

(** [int] and [int64] are 64 bits wide; arithmetic wraps around. *)
Definition maxInt : Z := 2 ^ 63 - 1.
Definition minInt : Z := - 2 ^ 63.
Definition wrap (z : Z) : Z := (z + 2 ^ 63) mod 2 ^ 64 - 2 ^ 63.

Definition add (a b : Z) : Z := wrap (a + b).
Definition sub (a b : Z) : Z := wrap (a - b).
Definition mul (a b : Z) : Z := wrap (a * b).

Definition isDigit (c : rune) : bool := (48 <=? c) && (c <=? 57).

Fixpoint digitsValue (acc : Z) (s : text) : Z :=
  match s with
  | [] => acc
  | c :: s' => digitsValue (10 * acc + (c - 48)) s'
  end.

(** [strconv.Atoi] on the digit strings the parser hands to it (captures
    of [\d+]): the decimal value, or, when that is out of range, the largest
    [int] together with an error that every caller here discards.  On an
    input that is not a digit string the result is 0 (and an error). *)
Definition Atoi (s : text) : Z :=
  match s with
  | [] => 0
  | _ => if forallb isDigit s then Z.min (digitsValue 0 s) maxInt else 0
  end.

(** [fmt.Sprintf("%d", n)]. *)
Definition itoa (n : Z) : string := NilZero.string_of_int (Z.to_int n).

End Go.

(* ------------------------------------------------------------------ *)
(** ** The fragment of [regexp] used by the parser *)

Module Regexp.
Import Go.

(** Single-rune classes. *)
Inductive cls : Type :=
| Lit (c : rune)      (* a literal under the [(?i)] flag *)
| AnyNoNL             (* [.] without the [s] flag *)
| DigitC.             (* [\d] *)

Definition isUpper (c : rune) : bool := (65 <=? c) && (c <=? 90).
Definition isLower (c : rune) : bool := (97 <=? c) && (c <=? 122).

(** [foldEq c x]: rune [x] lies in the simple case-folding orbit of the
    ASCII pattern rune [c].  Besides the two ASCII cases the orbit of s
    holds U+017F (long s) and that of k holds U+212A (Kelvin sign). *)
Definition foldEq (c x : rune) : bool :=
  (x =? c)
  || (isUpper c && (x =? c + 32))
  || (isLower c && (x =? c - 32))
  || (((c =? 115) || (c =? 83)) && (x =? 383))
  || (((c =? 107) || (c =? 75)) && (x =? 8490)).

Definition inCls (k : cls) (x : rune) : bool :=
  match k with
  | Lit c => foldEq c x
  | AnyNoNL => negb (x =? 10)
  | DigitC => isDigit x
  end.

Inductive regex : Type :=
| Eps
| Sym (k : cls)
| Cat (r1 r2 : regex)
| Alt (r1 r2 : regex)
| Opt (r : regex)              (* r?      greedy *)
| Plus (k : cls)               (* k+      greedy *)
| Upto (n : nat) (k : cls)     (* k{0,n}  greedy *)
| Group (i : nat) (r : regex). (* i-th capturing group *)

(** Concatenation of several pieces. *)
Definition seqs (rs : list regex) : regex := fold_right Cat Eps rs.

(** A literal string. *)
Fixpoint lit (l : text) : regex :=
  match l with
  | [] => Eps
  | c :: l' => Cat (Sym (Lit c)) (lit l')
  end.

(** Captures recorded so far, most recent first. *)
Definition caps := list (nat * text).

Fixpoint capture (i : nat) (c : caps) : text :=
  match c with
  | [] => []
  | (j, w) :: c' => if Nat.eqb i j then w else capture i c'
  end.

(** A thread of the backtracking search: the input left and the captures. *)
Definition thread := (text * caps)%type.

Fixpoint plusC (k : cls) (s : text) (c : caps) : list thread :=
  match s with
  | x :: s' => if inCls k x then plusC k s' c ++ [(s', c)] else []
  | [] => []
  end.

Fixpoint uptoC (n : nat) (k : cls) (s : text) (c : caps) : list thread :=
  match n with
  | O => [(s, c)]
  | S n' =>
      match s with
      | x :: s' => if inCls k x then uptoC n' k s' c ++ [(s, c)] else [(s, c)]
      | [] => [(s, c)]
      end
  end.

(** [go r s c]: every way of matching [r] at the start of [s], in the
    order of preference of Go's leftmost-first semantics. *)
Fixpoint go (r : regex) (s : text) (c : caps) : list thread :=
  match r with
  | Eps => [(s, c)]
  | Sym k =>
      match s with
      | x :: s' => if inCls k x then [(s', c)] else []
      | [] => []
      end
  | Cat r1 r2 => flat_map (fun t => go r2 (fst t) (snd t)) (go r1 s c)
  | Alt r1 r2 => go r1 s c ++ go r2 s c
  | Opt r1 => go r1 s c ++ [(s, c)]
  | Plus k => plusC k s c
  | Upto n k => uptoC n k s c
  | Group i r1 =>
      map (fun t => (fst t, (i, firstn (length s - length (fst t)) s) :: snd t))
          (go r1 s c)
  end.

(** The leftmost match: the first thread at the first start that has one. *)
Fixpoint find (r : regex) (s : text) : option (text * thread) :=
  match go r s [] with
  | t :: _ => Some (s, t)
  | [] =>
      match s with
      | [] => None
      | _ :: s' => find r s'
      end
  end.

(** [Regexp.MatchString]. *)
Definition MatchString (r : regex) (s : text) : bool :=
  match find r s with Some _ => true | None => false end.

(** [Regexp.FindStringSubmatch] for a pattern with [n] groups: [None]
    is the nil slice, otherwise the whole match followed by the groups. *)
Definition FindStringSubmatch (n : nat) (r : regex) (s : text)
  : option (list text) :=
  match find r s with
  | None => None
  | Some (from, (rest, c)) =>
      Some (firstn (length from - length rest) from
              :: map (fun i => capture i c) (seq 1 n))
  end.

End Regexp.

(* ------------------------------------------------------------------ *)
(** ** The fragment of [time] used by the parser and the watchdog *)

Module Time.
Import Go.

(** An instant is its number of nanoseconds since the Unix epoch, a
    [Duration] a signed 64-bit count of nanoseconds. *)
Definition Time := Z.
Definition Duration := Z.

Definition Second : Duration := 10 ^ 9.
Definition Hour : Duration := 3600 * Second.
Definition day : Z := 86400 * 10 ^ 9.

(** The seconds from year 1, where the seconds of a [Time] start, to 1970. *)
Definition unixToInternal : Z := 62135596800.

(** The instants that a [Time] holds together with the rest of their UTC
    day: the seconds since year 1 of that day fit an int64. *)
Definition inRange (now : Time) : bool :=
  let midnight := (now - now mod day) / Second + unixToInternal in
  (minInt <=? midnight) && (midnight + 86399 <=? maxInt).

(** [norm(hi, lo, base)] of package time, on ints: [lo] is brought into
    [0, base) and what it holds beyond goes to [hi]. *)
Definition norm (hi lo base : Z) : Z * Z :=
  let (hi, lo) :=
    if lo <? 0 then
      let n := add (Z.quot (sub (sub 0 lo) 1) base) 1 in
      (sub hi n, add lo (mul n base))
    else (hi, lo) in
  if base <=? lo then
    let n := Z.quot lo base in
    (add hi n, sub lo (mul n base))
  else (hi, lo).

(** [time.Date(now.Year(), now.Month(), now.Day(), h, min, 0, 0, time.UTC)].
    [Date] carries the minutes past 59 over into the hours and the hours
    past 23 over into the days, with [norm]; the result is midnight of the
    UTC day of [now] plus those days, hours and minutes.  Its seconds since
    year 1 are kept in an int64 and wrap around when the count of hours or
    minutes is huge.  For a [now] that no [Time] holds the model leaves
    the sum as it is. *)
Definition DateOn (now : Time) (h min : Z) : Time :=
  let (hour, min) := norm h min 60 in
  let (days, hour) := norm 0 hour 24 in
  let sec := (now - now mod day) / Second + unixToInternal
             + days * 86400 + hour * 3600 + min * 60 in
  let sec := if inRange now then wrap sec else sec in
  (sec - unixToInternal) * Second.

Definition After (t u : Time) : bool := u <? t.
Definition Before (t u : Time) : bool := t <? u.
Definition Add (t : Time) (d : Duration) : Time := t + d.

(** [t.Sub(u)] saturates at the ends of the [Duration] range. *)
Definition Sub (t u : Time) : Duration := Z.max minInt (Z.min maxInt (t - u)).

(** The integer nearest to n/d, the even one of two that are equally near
    (n >= 0, d > 0). *)
Definition nearest (n d : Z) : Z :=
  let q := n / d in
  let r := n mod d in
  if 2 * r <? d then q
  else if d <? 2 * r then q + 1
  else if Z.even q then q else q + 1.

(** The float64 nearest to n/d (n > 0, d > 0; no number here is near the
    ends of the exponent range): the pair (m, k) stands for m / 2^k, with
    m of 53 bits. *)
Definition float64 (n d : Z) : Z * Z :=
  let a := Z.log2 n in
  let b := Z.log2 d in
  let e := if d * 2 ^ a <=? n * 2 ^ b then a - b else a - b - 1 in
  let k := 52 - e in
  (if 0 <=? k then nearest (n * 2 ^ k) d else nearest n (d * 2 ^ (- k)), k).

(** [int(d.Seconds())].  [Seconds] is
    [float64(sec) + float64(nsec)/1e9] for [sec := d / Second] and
    [nsec := d % Second]: the quotient of the two floats is rounded, then
    the sum is, and the conversion to int truncates.  The division and the
    remainder of Go truncate, so a negative duration gives the negative of
    what its absolute value gives. *)
Definition SecondsInt (d : Duration) : Z :=
  let sec := Z.abs (Z.quot d Second) in
  let nsec := Z.abs (Z.rem d Second) in
  let (m1, k1) := if nsec =? 0 then (0, 0) else float64 nsec (10 ^ 9) in
  let num := sec * 2 ^ k1 + m1 in
  let den := 2 ^ k1 in
  let (m, k) := if num =? 0 then (0, 0) else float64 num den in
  Z.sgn d * (if 0 <=? k then m / 2 ^ k else m * 2 ^ (- k)).

End Time.

(* ------------------------------------------------------------------ *)
(** ** internal/usagelimit/parser.go *)

Module Usagelimit.
Import Go Regexp Time.

Definition errorRe : regex :=
  Group 1
    (Alt (lit (runes "exceeded your usage limit"))
    (Alt (seqs [lit (runes "usage limits"); Upto 60 AnyNoNL;
                lit (runes "try again after")])
         (seqs [lit (runes "rate limit"); Upto 60 AnyNoNL;
                lit (runes "retry after")]))).

Definition utcTimeRe : regex :=
  seqs [lit (runes "after "); Group 1 (Plus DigitC); lit (runes ":");
        Group 2 (Plus DigitC); lit (runes " UTC")].

Definition hoursRe : regex :=
  seqs [lit (runes "in "); Group 1 (Plus DigitC); lit (runes " hour");
        Opt (lit (runes "s"))].

Definition minsRe : regex :=
  seqs [Group 1 (Plus DigitC); lit (runes " minute"); Opt (lit (runes "s"))].

(** HasError reports whether text contains an API usage-limit message. *)
Definition HasError (text : text) : bool := MatchString errorRe text.

(** The primary strategy of [ExtractWaitSecs]: "after HH:MM UTC", the delta
    from [now] to that wall-clock time; [None] when the code falls through. *)
Definition utcWait (now : Time) (text : text) : option Z :=
  match FindStringSubmatch 2 utcTimeRe text with
  | Some [_; m1; m2] =>
      let h := Atoi m1 in
      let min := Atoi m2 in
      let target := DateOn now h min in
      let target :=
        if negb (After target now) then Add target (24 * Hour) else target in
      let secs := SecondsInt (Sub target now) in
      if secs >? 0 then Some secs else None
  | _ => None
  end.

(** The rest of [ExtractWaitSecs]: "in X hours Y minutes", else 3600. *)
Definition relativeWait (text : text) : Z :=
  let hours :=
    match FindStringSubmatch 1 hoursRe text with
    | Some [_; m1] => Atoi m1
    | _ => 0
    end in
  let mins :=
    if hours >? 0 then
      match FindStringSubmatch 1 minsRe text with
      | Some [_; m1] => Atoi m1
      | _ => 0
      end
    else 0 in
  if (hours >? 0) || (mins >? 0)
  then add (mul hours 3600) (mul mins 60)
  else 3600.

(** ExtractWaitSecs parses the wait duration from error text and returns
    seconds.  [now] is the reading of [time.Now()] taken on the UTC branch. *)
Definition ExtractWaitSecs (now : Time) (text : text) : Z :=
  match utcWait now text with
  | Some secs => secs
  | None => relativeWait text
  end.

End Usagelimit.

(* ------------------------------------------------------------------ *)
(** ** internal/config *)

Module Config.

Record Config : Type := {
  Num : Z;
  Session : string;
  BaseBranch : string;
  CLIType : string;
  CLIFlags : string;
  AddMode : bool;
  ResumeBufferSec : Z;
  MonitorInterval : Z;
  WorktreePrefix : string
}.

End Config.

(* ------------------------------------------------------------------ *)
(** ** internal/monitor/monitor.go *)

Module Monitor.
Import Go Time Usagelimit Config.
Local Open Scope string_scope.

(** What the outside world answers to the calls of a watchdog, in the order
    in which the watchdog makes them. *)
Inductive Resp : Type :=
| RSelect (done : bool)          (* true: the [ctx.Done()] case was taken *)
| RNow (t : Time)                (* [time.Now()] *)
| RCapture (r : option text)     (* [tmux.CapturePane]: content, or an error *)
| RHasSession (b : bool).        (* [tmux.HasSession] *)

(** The two lines a watchdog logs, and how [Sprintf] renders them after
    the time stamp. *)
Inductive Line : Type :=
| HitLine (workerNum displayH displayM : Z)
| ResumeLine (workerNum : Z) (cli : string).

Definition format (l : Line) : string :=
  match l with
  | HitLine workerNum displayH displayM =>
      "[worker-" ++ itoa workerNum ++ "] API usage limit hit. Resuming in "
        ++ itoa displayH ++ "h " ++ itoa displayM ++ "m."
  | ResumeLine workerNum cli =>
      "[worker-" ++ itoa workerNum ++ "] Resuming with " ++ cli
        ++ " --continue."
  end.

(** The calls a watchdog makes, with their answers. *)
Inductive Call : Type :=
| CSelect (timer : Duration) (done : bool)
| CNow (t : Time)
| CCapturePane (target : string) (r : option text)
| CHasSession (session : string) (b : bool)
| CPrint (stamp : Time) (line : Line)      (* the line on standard output *)
| CFprint (stamp : Time) (line : Line)     (* the same line in the log file *)
| CSetLabel (target label : string)        (* SetPaneTitle or RenameWindow *)
| CSendKeys (target keys : string).

(** The answers still to come and the calls made so far, latest first. *)
Record World : Type := { script : list Resp; past : list Call }.

(** A computation either returns, or is left waiting for an answer the
    script does not hold. *)
Inductive Res (A : Type) : Type :=
| Ret (a : A) (w : World)
| Pending (w : World).
Arguments Pending {A} w.

Definition M (A : Type) : Type := World -> Res A.

Definition ret {A} (a : A) : M A := fun w => Ret a w.
Definition bind {A B} (m : M A) (f : A -> M B) : M B :=
  fun w => match m w with Ret a w' => f a w' | Pending w' => Pending w' end.

Notation "x <- m ;; k" := (bind m (fun x => k))
  (at level 61, m at next level, right associativity).
Notation "m ;;; k" := (bind m (fun _ => k))
  (at level 61, right associativity).

Definition call (c : Call) : M unit :=
  fun w => Ret tt {| script := script w; past := c :: past w |}.

Definition selectDone (timer : Duration) : M bool := fun w =>
  match script w with
  | RSelect b :: s => Ret b {| script := s; past := CSelect timer b :: past w |}
  | _ => Pending w
  end.

Definition timeNow : M Time := fun w =>
  match script w with
  | RNow t :: s => Ret t {| script := s; past := CNow t :: past w |}
  | _ => Pending w
  end.

Definition CapturePane (target : string) : M (option text) := fun w =>
  match script w with
  | RCapture r :: s =>
      Ret r {| script := s; past := CCapturePane target r :: past w |}
  | _ => Pending w
  end.

Definition HasSession (session : string) : M bool := fun w =>
  match script w with
  | RHasSession b :: s =>
      Ret b {| script := s; past := CHasSession session b :: past w |}
  | _ => Pending w
  end.

(** [logf]: the line, stamped with the current UTC time, goes to standard
    output and, when a log file was given, to that file. *)
Definition logf (log : bool) (line : Line) : M unit :=
  t <- timeNow ;;
  call (CPrint t line) ;;;
  if log then call (CFprint t line) else ret tt.

(** [usagelimit.ExtractWaitSecs], with its reading of the clock. *)
Definition ExtractWaitSecsM (content : text) : M Z :=
  match Regexp.FindStringSubmatch 2 utcTimeRe content with
  | Some [_; _; _] => now <- timeNow ;; ret (ExtractWaitSecs now content)
  | _ => ret (relativeWait content)
  end.

Definition plainLabel (workerNum : Z) : string := "worker-" ++ itoa workerNum.

Section Watch.

Variable cfg : Config.
Variable session : string.
(** Where the worker lives, and how its wait label reads: the two versions
    of [Watch] differ in nothing else. *)
Variable target : string.
Variable waitLabel : Z -> Z -> Z -> string.
Variable workerNum : Z.
Variable log : bool.

(** [for time.Now().Before(deadline) { select ... }]; the result tells
    whether [ctx.Done()] fired. *)
Fixpoint waitUntil (fuel : nat) (deadline : Time) : M bool :=
  match fuel with
  | O => Pending
  | S fuel' =>
      now <- timeNow ;;
      if Before now deadline then
        done <- selectDone (mul 5 Second) ;;
        if done then ret true else waitUntil fuel' deadline
      else ret false
  end.

Fixpoint watchLoop (fuel : nat) (detected : bool) : M unit :=
  match fuel with
  | O => Pending
  | S fuel' =>
      done <- selectDone (mul (MonitorInterval cfg) Second) ;;
      if done then ret tt else
      r <- CapturePane target ;;
      match r with
      | None => ret tt
      | Some content =>
          if negb detected && HasError content then
            waitSecs <- ExtractWaitSecsM content ;;
            let totalSecs := add waitSecs (ResumeBufferSec cfg) in
            let displayH := Z.quot totalSecs 3600 in
            let displayM := Z.quot (Z.rem totalSecs 3600) 60 in
            logf log (HitLine workerNum displayH displayM) ;;;
            call (CSetLabel target (waitLabel workerNum displayH displayM)) ;;;
            now <- timeNow ;;
            let deadline := Add now (mul totalSecs Second) in
            cancelled <- waitUntil fuel' deadline ;;
            if cancelled then ret tt else
            alive <- HasSession session ;;
            if negb alive then ret tt else
            logf log (ResumeLine workerNum (CLIType cfg)) ;;;
            call (CSendKeys target (CLIType cfg ++ " --continue")) ;;;
            call (CSetLabel target (plainLabel workerNum)) ;;;
            watchLoop fuel' false
          else watchLoop fuel' detected
      end
  end.

End Watch.

(** Watch polls a pane for API usage-limit errors and automatically
    resumes.  Every turn of either loop takes an answer from the script, so
    the fuel given here never runs out before the script does. *)
Definition Watch (cfg : Config) (session paneID : string) (workerNum : Z)
    (log : bool) (answers : list Resp) : Res unit :=
  watchLoop cfg session paneID
    (fun n h m => "worker-" ++ itoa n ++ " [wait " ++ itoa h ++ "h"
                    ++ itoa m ++ "m]")
    workerNum log (S (List.length answers)) false
    {| script := answers; past := [] |}.

(** The earlier version of Watch, which addresses the worker's window. *)
Definition WatchWindow (cfg : Config) (session windowID : string)
    (workerNum : Z) (log : bool) (answers : list Resp) : Res unit :=
  watchLoop cfg session (session ++ ":" ++ windowID)
    (fun n h m => "w" ++ itoa n ++ "[wait " ++ itoa h ++ "h"
                    ++ itoa m ++ "m]")
    workerNum log (S (List.length answers)) false
    {| script := answers; past := [] |}.

(** The calls of a run, latest first, and in the order they were made. *)
Definition history {A} (r : Res A) : list Call :=
  match r with Ret _ w => past w | Pending w => past w end.

Definition calls {A} (r : Res A) : list Call := rev (history r).

Definition returned {A} (r : Res A) : bool :=
  match r with Ret _ _ => true | Pending _ => false end.

End Monitor.

(* ------------------------------------------------------------------ *)
(** ** Go's [strings] package, as far as [cmd/root.go] uses it *)

Module Strings.
Local Open Scope string_scope.

(** [strings.Split(s, sep)] for a separator of one byte: the pieces of [s]
    between the separators, of which there is always at least one. *)
Fixpoint Split (s : string) (sep : ascii) : list string :=
  match s with
  | "" => [""]
  | String c s' =>
      if Ascii.eqb c sep then "" :: Split s' sep
      else match Split s' sep with
           | p :: ps => String c p :: ps
           | [] => [String c ""]
           end
  end.

(** [strings.Join(elems, sep)]. *)
Definition Join (elems : list string) (sep : string) : string :=
  String.concat sep elems.

(** The UTF-8 encodings of the runes [unicode.IsSpace] accepts: tab, line
    feed, vertical tab, form feed, carriage return, space, U+0085, U+00A0,
    U+1680, U+2000 to U+200A, U+2028, U+2029, U+202F, U+205F, U+3000. *)
Definition spaceRunes : list (list ascii) :=
  map (map ascii_of_nat)
    [[9]; [10]; [11]; [12]; [13]; [32]; [194; 133]; [194; 160];
     [225; 154; 128];
     [226; 128; 128]; [226; 128; 129]; [226; 128; 130]; [226; 128; 131];
     [226; 128; 132]; [226; 128; 133]; [226; 128; 134]; [226; 128; 135];
     [226; 128; 136]; [226; 128; 137]; [226; 128; 138];
     [226; 128; 168]; [226; 128; 169]; [226; 128; 175]; [226; 129; 159];
     [227; 128; 128]]%nat.

Fixpoint stripPrefix (tok s : list ascii) : option (list ascii) :=
  match tok, s with
  | [], _ => Some s
  | a :: tok', b :: s' => if Ascii.eqb a b then stripPrefix tok' s' else None
  | _ :: _, [] => None
  end.

(** [s] without the white-space rune it starts with, if it starts with
    one. *)
Fixpoint dropSpace (toks : list (list ascii)) (s : list ascii)
  : option (list ascii) :=
  match toks with
  | [] => None
  | tok :: toks' =>
      match stripPrefix tok s with
      | Some s' => Some s'
      | None => dropSpace toks' s
      end
  end.

Fixpoint trimLeft (toks : list (list ascii)) (fuel : nat) (s : list ascii)
  : list ascii :=
  match fuel with
  | O => s
  | S fuel' =>
      match dropSpace toks s with
      | Some s' => trimLeft toks fuel' s'
      | None => s
      end
  end.

(** [strings.TrimSpace]: the white-space runes at the start are dropped,
    then those at the end.  A byte sequence that is not the encoding of a
    rune decodes to U+FFFD, which is no white space, so trimming stops at
    it on either side. *)
Definition TrimSpace (s : string) : string :=
  let b := list_ascii_of_string s in
  let b := trimLeft spaceRunes (List.length b) b in
  let b := rev (trimLeft (map (@rev ascii) spaceRunes) (List.length b) (rev b)) in
  string_of_list_ascii b.

End Strings.

(* ------------------------------------------------------------------ *)
(** ** cmd/root.go: the worker list and the fallback selector *)

Module Cmd.
Import Go Config.
Local Open Scope string_scope.

(** parseWorker splits "gemini:gemini-2.0-flash" into
    ("gemini", "gemini-2.0-flash").  A plain "claude" returns ("claude", ""). *)
Definition parseWorker (s : string) : string * string :=
  match String.index 0 ":" s with
  | Some idx =>
      (String.substring 0 idx s,
       String.substring (idx + 1) (String.length s - (idx + 1)) s)
  | None => (s, "")
  end.

(** cliCmdFor returns the full CLI invocation for a worker, including model
    and extra flags. *)
Definition cliCmdFor (cfg : Config) (worker : string) : string :=
  let (cliName, model) := parseWorker worker in
  let cmd := cliName in
  let cmd := if String.eqb model "" then cmd else cmd ++ " --model " ++ model in
  let cmd :=
    if String.eqb (CLIFlags cfg) "" then cmd else cmd ++ " " ++ CLIFlags cfg in
  cmd.

Fixpoint containsCLIType (workers : list string) (cliType : string) : bool :=
  match workers with
  | [] => false
  | worker :: rest =>
      if String.eqb (fst (parseWorker worker)) cliType then true
      else containsCLIType rest cliType
  end.

(** How a [<binary> --version] probe with its four-second deadline ends. *)
Inductive Probe : Type :=
| ExitZero
| ExitError (output : string)
| DeadlineExceeded.

Section Host.

(** The machine the program runs on: what [exec.LookPath] finds, and how
    the version probe of a binary ends. *)
Variable LookPath : string -> bool.
Variable probe : string -> Probe.

Definition commandExists (name : string) : bool := LookPath name.

Fixpoint firstAvailableCLI (cliTypes : list string) : string * bool :=
  match cliTypes with
  | [] => ("", false)
  | cliType :: rest =>
      if commandExists cliType then (cliType, true) else firstAvailableCLI rest
  end.

(** Every way the probe can fail ends in [false]. *)
Definition geminiHealthCheck : bool :=
  match probe "gemini" with
  | ExitZero => true
  | ExitError _ => false
  | DeadlineExceeded => false
  end.

Definition codexHealthCheck : bool :=
  match probe "codex" with
  | ExitZero => true
  | _ => false
  end.

(** The replacement loops; the second component counts the replacements. *)
Fixpoint replaceExact (name fallback : string) (workers : list string)
  : list string * Z :=
  match workers with
  | [] => ([], 0)
  | cliType :: rest =>
      let (replaced, n) := replaceExact name fallback rest in
      if String.eqb cliType name then (fallback :: replaced, n + 1)
      else (cliType :: replaced, n)
  end.

Fixpoint replaceByName (name fallback : string) (workers : list string)
  : list string * Z :=
  match workers with
  | [] => ([], 0)
  | cliType :: rest =>
      let (replaced, n) := replaceByName name fallback rest in
      if String.eqb (fst (parseWorker cliType)) name
      then (fallback :: replaced, n + 1)
      else (cliType :: replaced, n)
  end.

(** Each function returns the worker list and the lines it prints. *)
Definition Out : Type := (list string * list string)%type.

Definition warn : string := "⚠️   ".

Definition geminiNoFallback : list string :=
  [warn ++ "Gemini is installed but fails to start (likely Node.js runtime mismatch).";
   warn ++ "No fallback CLI (claude/codex) was found, keeping gemini workers as-is."].

Definition geminiReplaced (n : Z) (fallback : string) : list string :=
  [warn ++ "Gemini failed health check; replaced " ++ itoa n
     ++ " worker(s) with " ++ fallback ++ ".";
   warn ++ "Fix locally by upgrading Node.js and reinstalling @google/gemini-cli."].

Definition codexNoFallback : list string :=
  [warn ++ "Codex is installed but fails to start.";
   warn ++ "No fallback CLI (claude/gemini) was found, keeping codex workers as-is."].

Definition codexReplaced (n : Z) (fallback : string) : list string :=
  [warn ++ "Codex failed health check; replaced " ++ itoa n
     ++ " worker(s) with " ++ fallback ++ "."].

(** The first of the two versions of [normalizeWorkers]: it compares the
    whole worker string with "gemini". *)
Definition normalizeWorkers1 (workers : list string) : Out :=
  if negb (containsCLIType workers "gemini") then (workers, []) else
  if geminiHealthCheck then (workers, []) else
  let (fallback, ok) := firstAvailableCLI ["claude"; "codex"] in
  if negb ok then (workers, geminiNoFallback) else
  let (replaced, replacedCount) := replaceExact "gemini" fallback workers in
  (replaced, geminiReplaced replacedCount fallback).

(** The second version, split in two. *)
Definition normalizeGemini (workers : list string) : Out :=
  if negb (containsCLIType workers "gemini") then (workers, []) else
  if geminiHealthCheck then (workers, []) else
  let (fallback, ok) := firstAvailableCLI ["claude"; "codex"] in
  if negb ok then (workers, geminiNoFallback) else
  let (replaced, replacedCount) := replaceByName "gemini" fallback workers in
  (replaced, geminiReplaced replacedCount fallback).

Definition normalizeCodex (workers : list string) : Out :=
  if negb (containsCLIType workers "codex") then (workers, []) else
  if codexHealthCheck then (workers, []) else
  let (fallback, ok) := firstAvailableCLI ["claude"; "gemini"] in
  if negb ok then (workers, codexNoFallback) else
  let (replaced, replacedCount) := replaceByName "codex" fallback workers in
  (replaced, codexReplaced replacedCount fallback).

Definition normalizeWorkers (workers : list string) : Out :=
  let (workers, out1) := normalizeGemini workers in
  let (workers, out2) := normalizeCodex workers in
  (workers, (out1 ++ out2)%list).

End Host.

(** *** The worker list *)

Definition isSupportedCLIType (cliType : string) : bool :=
  let cliName := fst (parseWorker cliType) in
  if String.eqb cliName "claude" then true
  else if String.eqb cliName "gemini" then true
  else if String.eqb cliName "codex" then true
  else false.

Definition parseCLITypes (raw : string) : list string :=
  let parts := Strings.Split raw "," in
  fold_left
    (fun cliTypes p =>
       let trimmed := Strings.TrimSpace p in
       if negb (String.eqb trimmed "") then (cliTypes ++ [trimmed])%list
       else cliTypes)
    parts [].

(** [workers[i] = v]; an index out of range panics. *)
Fixpoint setAt (workers : list string) (i : nat) (v : string)
  : option (list string) :=
  match workers, i with
  | [], _ => None
  | _ :: rest, O => Some (v :: rest)
  | w :: rest, S i' =>
      match setAt rest i' v with
      | Some rest' => Some (w :: rest')
      | None => None
      end
  end.

(** [for i := 0; i < cfg.Num; i++ { workers[i] = cliTypes[i%len(cliTypes)] }],
    with [count] turns to go.  [None] is a panic: a remainder by zero or
    an index out of range. *)
Fixpoint fillWorkers (cliTypes : list string) (count : nat) (i : Z)
    (workers : list string) : option (list string) :=
  match count with
  | O => Some workers
  | S count' =>
      if Z.eqb (Z.of_nat (List.length cliTypes)) 0 then None else
      match nth_error cliTypes
              (Z.to_nat (Z.rem i (Z.of_nat (List.length cliTypes)))) with
      | None => None
      | Some cliType =>
          match setAt workers (Z.to_nat i) cliType with
          | None => None
          | Some workers' => fillWorkers cliTypes count' (i + 1) workers'
          end
      end
  end.

(** How a call that allocates ends: it returns, it panics, or the runtime
    stops the program with "out of memory". *)
Inductive Outcome (A : Type) : Type :=
| Returns (a : A)
| Panics
| OutOfMemory.
Arguments Panics {A}.
Arguments OutOfMemory {A}.

Section Runtime.

(** The most that one allocation may ask for on the platform ([maxAlloc]
    of the runtime, 2^48 bytes on 64-bit Linux), and whether the machine
    has that many bytes to give. *)
Variable maxAlloc : Z.
Variable hasMemory : Z -> bool.

(** [make([]string, len)].  [makeslice] panics with "len out of range"
    when [len] is negative, or when [len] strings of 16 bytes each overflow
    a uintptr or exceed [maxAlloc]. *)
Definition makeStrings (len : Z) : Outcome (list string) :=
  if Z.ltb len 0 || Z.leb (2 ^ 64) (16 * len) || Z.ltb maxAlloc (16 * len)
  then Panics
  else if hasMemory (16 * len) then Returns (repeat "" (Z.to_nat len))
  else OutOfMemory.

Definition buildWorkers (cfg : Config) : Outcome (list string) :=
  let cliTypes := parseCLITypes (CLIType cfg) in
  match makeStrings (Num cfg) with
  | Returns workers =>
      match fillWorkers cliTypes (Z.to_nat (Num cfg)) 0 workers with
      | Some workers => Returns workers
      | None => Panics
      end
  | Panics => Panics
  | OutOfMemory => OutOfMemory
  end.

End Runtime.

(** The map [seen] is the list of its keys. *)
Definition uniqueWorkerTypes (workers : list string) : list string :=
  snd (fold_left
         (fun (state : list string * list string) worker =>
            let (seen, ordered) := state in
            if negb (existsb (String.eqb worker) seen)
            then (worker :: seen, (ordered ++ [worker])%list)
            else (seen, ordered))
         workers ([], [])).

(** *** Naming helpers *)

Definition wtBranch (baseBranch : string) (i : Z) : string :=
  "swarm/" ++ baseBranch ++ "/worker-" ++ itoa i.

Definition paneTitle (i : Z) (cliType : string) : string :=
  "worker-" ++ itoa i ++ " (" ++ cliType ++ ")".

(** *** Validation *)

(** The errors of [validate], in the order of its checks:
    "tmux not found", "not inside a git repository", "no valid CLI types
    provided", "unknown CLI type <name>", "<name> not found" and "-n must
    be a positive integer". *)
Inductive ValidateError : Type :=
| TmuxNotFound
| NotInRepo
| NoCLITypes
| UnknownCLIType (cliName : string)
| CLINotFound (cliName : string)
| NotPositive.

Section Validate.

Variable LookPath : string -> bool.
(** Whether [git.RepoRoot] succeeds. *)
Variable inRepo : bool.

Fixpoint checkCLITypes (cliTypes : list string) : option ValidateError :=
  match cliTypes with
  | [] => None
  | cliType :: rest =>
      if negb (isSupportedCLIType cliType)
      then Some (UnknownCLIType (fst (parseWorker cliType)))
      else if negb (LookPath (fst (parseWorker cliType)))
      then Some (CLINotFound (fst (parseWorker cliType)))
      else checkCLITypes rest
  end.

(** [None] is the nil error. *)
Definition validate (cfg : Config) : option ValidateError :=
  if negb (LookPath "tmux") then Some TmuxNotFound else
  if negb inRepo then Some NotInRepo else
  let cliTypes := parseCLITypes (CLIType cfg) in
  if Z.eqb (Z.of_nat (List.length cliTypes)) 0 then Some NoCLITypes else
  match checkCLITypes cliTypes with
  | Some err => Some err
  | None => if Z.ltb (Num cfg) 1 then Some NotPositive else None
  end.

End Validate.

End Cmd.

(* ------------------------------------------------------------------ *)
(** ** cmd/root.go as it starts the watchdogs of [internal/monitor] *)

(** The two versions of [cmd/root.go] that call [monitor.Watch] with the
    arguments it takes here: the one with four panes, and the one before
    it with a window for each worker. *)
Module Root.
Import Go Config Cmd.
Local Open Scope string_scope.

Section Host.

Variable LookPath : string -> bool.
Variable inRepo : bool.

(** [validate] of these versions takes one CLI for all workers. *)
Definition validate (cfg : Config) : option ValidateError :=
  if negb (LookPath "tmux") then Some TmuxNotFound else
  if negb inRepo then Some NotInRepo else
  if negb (String.eqb (CLIType cfg) "claude" || String.eqb (CLIType cfg) "gemini"
           || String.eqb (CLIType cfg) "codex")
  then Some (UnknownCLIType (CLIType cfg)) else
  if negb (LookPath (CLIType cfg)) then Some (CLINotFound (CLIType cfg)) else
  if Z.ltb (Num cfg) 1 then Some NotPositive else None.

End Host.

(** The keys that start the assistant of a worker: in its pane
    [fmt.Sprintf("cd '%s' && %s", dir, cfg.CLIType)], in its window
    [cfg.CLIType]. *)
Definition paneLaunchKeys (dir : string) (cfg : Config) : string :=
  "cd '" ++ dir ++ "' && " ++ CLIType cfg.

Definition windowLaunchKeys (cfg : Config) : string := CLIType cfg.

End Root.

(* ------------------------------------------------------------------ *)
(** ** internal/tmux: the highest window index *)

Module Tmux.

Section Server.

(** What [ListWindowIndices] answers for a session: the indices that
    [tmux list-windows] prints, or an error. *)
Variable Error : Type.
Variable ListWindowIndices : string -> list Z + Error.

(** [max := 0; for _, idx := range indices { if idx > max { max = idx } }] *)
Fixpoint maxOver (max : Z) (indices : list Z) : Z :=
  match indices with
  | [] => max
  | idx :: rest => maxOver (if idx >? max then idx else max) rest
  end.

Definition MaxWindowIndex (session : string) : Z * option Error :=
  match ListWindowIndices session with
  | inr err => (0, Some err)
  | inl indices => (maxOver 0 indices, None)
  end.

End Server.

End Tmux.

(* ------------------------------------------------------------------ *)
(** ** What a pattern denotes *)

Module Denote.
Import Go Regexp.

(** [Sem r w c c']: the word [w] is matched by [r], taking the captures
    from [c] to [c']. *)
Inductive Sem : regex -> text -> caps -> caps -> Prop :=
| SemEps c : Sem Eps [] c c
| SemSym k x c : inCls k x = true -> Sem (Sym k) [x] c c
| SemCat r1 r2 w1 w2 c c1 c2 :
    Sem r1 w1 c c1 -> Sem r2 w2 c1 c2 -> Sem (Cat r1 r2) (w1 ++ w2) c c2
| SemAltL r1 r2 w c c' : Sem r1 w c c' -> Sem (Alt r1 r2) w c c'
| SemAltR r1 r2 w c c' : Sem r2 w c c' -> Sem (Alt r1 r2) w c c'
| SemOptSome r w c c' : Sem r w c c' -> Sem (Opt r) w c c'
| SemOptNone r c : Sem (Opt r) [] c c
| SemPlus k w c :
    w <> [] -> forallb (inCls k) w = true -> Sem (Plus k) w c c
| SemUpto n k w c :
    (List.length w <= n)%nat -> forallb (inCls k) w = true ->
    Sem (Upto n k) w c c
| SemGroup i r w c c' : Sem r w c c' -> Sem (Group i r) w c ((i, w) :: c').

(** Some stretch of the text satisfies [P]. *)
Definition occurs (P : text -> Prop) (t : text) : Prop :=
  exists pre w post, t = pre ++ w ++ post /\ P w.

(** The pattern matches somewhere in the text, with captures [c]. *)
Definition matchesAt (r : regex) (t : text) (c : caps) : Prop :=
  occurs (fun w => Sem r w [] c) t.

(** [w] is the phrase [p] in some mix of cases. *)
Definition phrase (p : string) (w : text) : Prop :=
  Forall2 (fun c x => foldEq c x = true) (runes p) w.

(** Phrase [p], then at most [n] characters, then phrase [q]. *)
Definition followedWithin (n : nat) (p q : string) (w : text) : Prop :=
  exists w1 gap w2,
    w = w1 ++ gap ++ w2 /\ phrase p w1 /\ (List.length gap <= n)%nat /\
    phrase q w2.

(** The same, with no line break among the characters in between. *)
Definition followedOnLine (n : nat) (p q : string) (w : text) : Prop :=
  exists w1 gap w2,
    w = w1 ++ gap ++ w2 /\ phrase p w1 /\ (List.length gap <= n)%nat /\
    Forall (fun x => x <> 10) gap /\ phrase q w2.

(** The trigger condition in the words of the specification. *)
Definition claimedTrigger (t : text) : Prop :=
  occurs (phrase "exceeded your usage limit") t
  \/ occurs (followedWithin 60 "usage limit" "try again after") t
  \/ occurs (followedWithin 60 "rate limit" "retry after") t.

(** The trigger condition of [errorRe]. *)
Definition trigger (t : text) : Prop :=
  occurs (phrase "exceeded your usage limit") t
  \/ occurs (followedOnLine 60 "usage limits" "try again after") t
  \/ occurs (followedOnLine 60 "rate limit" "retry after") t.

(** Every match of the pattern in the text, start by start. *)
Fixpoint everywhere (r : regex) (s : text) : list thread :=
  go r s [] ++ match s with [] => [] | _ :: s' => everywhere r s' end.

(** The number a digit string denotes. *)
Definition number (d : text) : Z := digitsValue 0 d.

End Denote.

(* ------------------------------------------------------------------ *)
(** ** Histories of a watchdog *)

Module History.
Import Go Time Usagelimit Config Monitor.

(** The calls after which [Watch] returns. *)
Definition final (c : Call) : bool :=
  match c with
  | CSelect _ true => true
  | CCapturePane _ None => true
  | CHasSession _ false => true
  | _ => false
  end.

Definition nofinal (h : list Call) : Prop :=
  forallb (fun c => negb (final c)) h = true.

(** A detection is under way in a history (latest call first): its latest
    detection line has no resume keystroke after it. *)
Fixpoint active (h : list Call) : bool :=
  match h with
  | [] => false
  | CSendKeys _ _ :: _ => false
  | CPrint _ (HitLine _ _ _) :: _ => true
  | _ :: h' => active h'
  end.

(** The calls that may be made while a detection is under way: no capture,
    no detection line, no wait other than the five-second one. *)
Definition quiet (c : Call) : bool :=
  match c with
  | CCapturePane _ _ => false
  | CPrint _ (HitLine _ _ _) => false
  | CSelect timer _ => timer =? mul 5 Second
  | _ => true
  end.

Definition isLog (c : Call) : bool :=
  match c with
  | CNow _ | CPrint _ _ | CFprint _ _ => true
  | _ => false
  end.

Definition afterSend (h : list Call) : bool :=
  match h with CSendKeys _ _ :: _ => true | _ => false end.

(** The calls of [logf], latest first. *)
Definition logged (log : bool) (t : Time) (line : Line) : list Call :=
  (if log then [CFprint t line] else []) ++ [CPrint t line; CNow t].

(** The turns of the wait loop that found the clock before the deadline. *)
Inductive Waited (deadline : Time) : list Call -> Prop :=
| WaitedNil : Waited deadline []
| WaitedTurn t h :
    Waited deadline h -> Before t deadline = true ->
    Waited deadline (CSelect (mul 5 Second) false :: CNow t :: h).

(** Whether [ExtractWaitSecs] reads the clock on a text: it does when the
    text holds "after HH:MM UTC". *)
Definition readsClock (content : text) : bool :=
  match Regexp.FindStringSubmatch 2 utcTimeRe content with
  | Some [_; _; _] => true
  | _ => false
  end.

(** The calls of an extraction of the wait from a text, and the wait: with
    no reading of the clock the wait of the relative strategy, with a
    reading the wait at that reading. *)
Inductive Extracted (content : text) : list Call -> Z -> Prop :=
| ExtractedRelative :
    readsClock content = false ->
    Extracted content [] (relativeWait content)
| ExtractedAt te :
    readsClock content = true ->
    Extracted content [CNow te] (ExtractWaitSecs te content).

Section Shapes.

Variable cfg : Config.
Variable session target : string.

(** [time.Now().Add(time.Duration(totalSecs) * time.Second)] *)
Definition deadlineOf (t0 : Time) (wait : Z) : Time :=
  Add t0 (mul (add wait (ResumeBufferSec cfg)) Second).

(** A history that ends with the deadline being set: a capture whose content
    is an error, the wait extracted from it (with the reading of the clock
    that the extraction took, when it took one), the detection line, the
    wait label and the reading [t0] of the clock. *)
Inductive Armed : list Call -> text -> Z -> Time -> Prop :=
| armed older content reads wait logs lbl t0 :
    HasError content = true ->
    Extracted content reads wait ->
    forallb isLog logs = true ->
    active logs = true ->
    Armed (CNow t0 :: CSetLabel target lbl :: logs ++ reads
             ++ CCapturePane target (Some content) :: older)
          content wait t0.

(** A history at a five-second wait: the clock was read before the
    deadline set at the detection. *)
Inductive Ticking : list Call -> text -> Z -> Time -> Prop :=
| ticking base content wait t0 waits t :
    Armed base content wait t0 ->
    Waited (deadlineOf t0 wait) waits ->
    Before t (deadlineOf t0 wait) = true ->
    Ticking (CNow t :: waits ++ base) content wait t0.

(** A history at a resume keystroke: after the deadline was set the wait
    loop ran until a reading [tk] not before the deadline, the session was
    found alive, and the resume line was logged. *)
Inductive Cycle : list Call -> text -> Z -> Time -> Time -> Prop :=
| cycle base content wait t0 waits tk logs :
    Armed base content wait t0 ->
    Waited (deadlineOf t0 wait) waits ->
    Before tk (deadlineOf t0 wait) = false ->
    forallb isLog logs = true ->
    Cycle (logs ++ CHasSession session true :: CNow tk :: waits ++ base)
          content wait t0 tk.

Variable workerNum : Z.

(** What holds of every call [c] of a watchdog and the history [h] before
    it. *)
Definition step_ok (c : Call) (h : list Call) : Prop :=
  nofinal h
  /\ (active h = true -> quiet c = true)
  /\ (afterSend h = true -> c = CSetLabel target (plainLabel workerNum))
  /\ match c with
     | CSendKeys tgt keys =>
         tgt = target /\ keys = (CLIType cfg ++ " --continue")%string
         /\ exists content wait t0 tk, Cycle h content wait t0 tk
     | CSelect _ _ =>
         active h = true -> exists content wait t0, Ticking h content wait t0
     | CFprint stamp line => exists h', h = CPrint stamp line :: h'
     | _ => True
     end.

Fixpoint Always (h : list Call) : Prop :=
  match h with
  | [] => True
  | c :: h' => step_ok c h' /\ Always h'
  end.

(** What a run looks like: every call is as [step_ok] says, and the run
    either returned upon a final call, which is its latest, or waits for an
    answer and has made no final call. *)
Definition Good (r : Res unit) : Prop :=
  Always (history r)
  /\ match r with
     | Ret _ w => exists c h, past w = c :: h /\ final c = true
     | Pending w => nofinal (past w)
     end.

End Shapes.

End History.

(* ------------------------------------------------------------------ *)
(** ** The footprint of a watchdog *)

Module Footprint.
Import Go Time Config Monitor.

Section Own.

Variable cfg : Config.
Variable session target : string.
Variable waitLabel : Z -> Z -> Z -> string.
Variable workerNum : Z.
Variable log : bool.

(** The hours and minutes shown for a wait of [totalSecs] seconds. *)
Definition shown (totalSecs h m : Z) : Prop :=
  h = Z.quot totalSecs 3600 /\ m = Z.quot (Z.rem totalSecs 3600) 60.

Definition ownLine (line : Line) : Prop :=
  match line with
  | HitLine n h m => n = workerNum /\ exists totalSecs, shown totalSecs h m
  | ResumeLine n cli => n = workerNum /\ cli = CLIType cfg
  end.

(** The calls a watchdog may make: waits of the poll interval or of five
    seconds, readings of the clock, captures of its own target, questions
    about its own session, its two lines (in the log file only when there
    is one), the two labels on its own target, and the resume keystroke to
    its own target. *)
Definition own (c : Call) : Prop :=
  match c with
  | CSelect timer _ =>
      timer = mul (MonitorInterval cfg) Second \/ timer = mul 5 Second
  | CNow _ => True
  | CCapturePane tgt _ => tgt = target
  | CHasSession s _ => s = session
  | CPrint _ line => ownLine line
  | CFprint _ line => log = true /\ ownLine line
  | CSetLabel tgt label =>
      tgt = target
      /\ (label = plainLabel workerNum
          \/ exists totalSecs h m,
               shown totalSecs h m /\ label = waitLabel workerNum h m)
  | CSendKeys tgt keys =>
      tgt = target /\ keys = (CLIType cfg ++ " --continue")%string
  end.

End Own.

(** A call other than a keystroke. *)
Definition notSend (c : Call) : Prop :=
  match c with
  | CSendKeys _ _ => False
  | _ => True
  end.

(** The run [r], had it started after the calls [p]. *)
Definition onto {A} (p : list Call) (r : Res A) : Res A :=
  match r with
  | Ret a w => Ret a {| script := script w; past := past w ++ p |}
  | Pending w => Pending {| script := script w; past := past w ++ p |}
  end.

(** A computation keeps to [P]: when every call made so far satisfies [P],
    so does every call made by the time it returns or waits. *)
Definition keeps {A} (P : Call -> Prop) (m : M A) : Prop :=
  forall w, Forall P (past w) -> Forall P (history (m w)).

End Footprint.

(* ------------------------------------------------------------------ *)
(** ** Scenarios *)

Module Scenario.
Import Go Time Config Monitor.
Local Open Scope string_scope.

Definition cfgOf (cli flags : string) : Config :=
  {| Num := 4; Session := "claude-swarm"; BaseBranch := "";
     CLIType := cli; CLIFlags := flags; AddMode := false;
     ResumeBufferSec := 120; MonitorInterval := 30;
     WorktreePrefix := ".wt" |}.

(** 13:59:30 UTC on the first of January 1970. *)
Definition halfToTwo : Time := 50370 * 10 ^ 9.

Definition limitText : text :=
  runes "API usage limits reached - try again after 14:00 UTC".

(** A limit with a wait of 30 seconds is detected; the clock is read 100
    and then 150 seconds later; the session is alive; the next poll is
    cancelled. *)
Definition resumeAnswers : list Resp :=
  [RSelect false; RCapture (Some limitText); RNow halfToTwo; RNow halfToTwo;
   RNow halfToTwo; RNow (halfToTwo + 100 * 10 ^ 9); RSelect false;
   RNow (halfToTwo + 150 * 10 ^ 9); RHasSession true;
   RNow (halfToTwo + 150 * 10 ^ 9); RSelect true].

(** The same detection, cancelled during the first five-second wait; the
    answers after the cancellation are never asked for. *)
Definition cancelAnswers : list Resp :=
  [RSelect false; RCapture (Some limitText); RNow halfToTwo; RNow halfToTwo;
   RNow halfToTwo; RNow (halfToTwo + 1); RSelect true;
   RNow (halfToTwo + 150 * 10 ^ 9); RHasSession true;
   RNow (halfToTwo + 150 * 10 ^ 9)].

(** A limit that names a wait of three million hours. *)
Definition longText : text :=
  runes "You have exceeded your usage limit. Try again in 3000000 hours".

Definition longAnswers : list Resp :=
  [RSelect false; RCapture (Some longText); RNow 1000; RNow 1000; RNow 2000;
   RHasSession true; RNow 2000].

(** A host with claude and gemini on the search path, on which the
    [--version] probe of gemini fails. *)
Definition hostPath (name : string) : bool :=
  String.eqb name "claude" || String.eqb name "gemini".

Definition hostProbe (name : string) : Cmd.Probe :=
  if String.eqb name "gemini"
  then Cmd.ExitError "ReferenceError: File is not defined"
  else Cmd.ExitZero.

Definition resumeCalls : list Call :=
  Eval vm_compute in
    calls (Watch (cfgOf "claude" "") "claude-swarm" "%1" 1 false resumeAnswers).

Definition cancelCalls : list Call :=
  Eval vm_compute in
    calls (Watch (cfgOf "claude" "") "claude-swarm" "%1" 1 false cancelAnswers).

Definition windowCalls : list Call :=
  Eval vm_compute in
    calls (WatchWindow (cfgOf "claude" "") "claude-swarm" "@1" 1 false
             resumeAnswers).

(** A machine with memory for whatever is asked of it. *)
Definition plenty (bytes : Z) : bool := true.

(** The same host with tmux on the search path as well. *)
Definition tmuxPath (name : string) : bool :=
  String.eqb name "tmux" || hostPath name.

(** A host with tmux and claude only. *)
Definition claudePath (name : string) : bool :=
  String.eqb name "tmux" || String.eqb name "claude".

(** A host with codex and gemini but no claude, on which every probe runs
    into its deadline. *)
Definition noClaudePath (name : string) : bool :=
  String.eqb name "codex" || String.eqb name "gemini".

Definition deadProbe (name : string) : Cmd.Probe := Cmd.DeadlineExceeded.

End Scenario.

(* ------------------------------------------------------------------ *)
(** * Properties *)

Unset Implicit Arguments.

(* ------------------------------------------------------------------ *)
(** ** Soundness and completeness of the matcher *)

Module RegexpFacts.
Import Go Regexp Denote.

Lemma plusC_sound k s c rest c' :
  In (rest, c') (plusC k s c) ->
  c' = c /\ exists w, s = w ++ rest /\ w <> [] /\ forallb (inCls k) w = true.
Proof.
  revert rest c'. induction s as [|x s IH]; simpl; intros rest c' H; [easy|].
  destruct (inCls k x) eqn:E; [|easy].
  apply in_app_or in H. destruct H as [H|[H|[]]].
  - destruct (IH _ _ H) as (-> & w & -> & _ & Hw). split; [easy|].
    exists (x :: w). simpl. now rewrite E, Hw.
  - injection H as <- <-. split; [easy|]. exists [x]. simpl. now rewrite E.
Qed.

Lemma plusC_complete k w c rest :
  w <> [] -> forallb (inCls k) w = true -> In (rest, c) (plusC k (w ++ rest) c).
Proof.
  induction w as [|x w IH]; [easy|]. simpl. intros _ H.
  apply andb_prop in H. destruct H as [Hx Hw]. rewrite Hx.
  apply in_or_app. destruct w as [|y w].
  - right. now left.
  - left. now apply IH.
Qed.

Lemma uptoC_sound n k s c rest c' :
  In (rest, c') (uptoC n k s c) ->
  c' = c /\ exists w, s = w ++ rest /\ (List.length w <= n)%nat /\
                       forallb (inCls k) w = true.
Proof.
  revert s rest c'. induction n as [|n IH]; simpl; intros s rest c' H.
  - destruct H as [H|[]]. injection H as <- <-. split; [easy|]. now exists [].
  - assert (Hnil : (rest, c') = (s, c) ->
              c' = c /\ exists w, s = w ++ rest /\ (List.length w <= S n)%nat /\
                                  forallb (inCls k) w = true).
    { intros E. injection E as -> ->. split; [easy|]. exists []. simpl.
      repeat split; auto. lia. }
    destruct s as [|x s]; [destruct H as [H|[]]; auto|].
    destruct (inCls k x) eqn:E; [|destruct H as [H|[]]; auto].
    apply in_app_or in H. destruct H as [H|[H|[]]]; auto.
    destruct (IH _ _ _ H) as (-> & w & -> & Hl & Hw). split; [easy|].
    exists (x :: w). simpl. rewrite E, Hw. repeat split; auto. lia.
Qed.

Lemma uptoC_complete n k w c rest :
  (List.length w <= n)%nat -> forallb (inCls k) w = true ->
  In (rest, c) (uptoC n k (w ++ rest) c).
Proof.
  revert w. induction n as [|n IH]; intros w Hl Hw.
  - destruct w; simpl in *; [now left|lia].
  - destruct w as [|x w]; simpl in *.
    + destruct rest as [|y rest]; [now left|].
      destruct (inCls k y); [apply in_or_app; right|]; now left.
    + apply andb_prop in Hw. destruct Hw as [Hx Hw]. rewrite Hx.
      apply in_or_app. left. apply IH; [lia|easy].
Qed.

Lemma firstn_app_exact {A} (w rest : list A) :
  firstn (List.length (w ++ rest) - List.length rest) (w ++ rest) = w.
Proof.
  rewrite length_app. replace (_ + _ - _)%nat with (List.length w + 0)%nat by lia.
  rewrite firstn_app_2. simpl. apply app_nil_r.
Qed.

Lemma go_sound r : forall s c rest c',
  In (rest, c') (go r s c) -> exists w, s = w ++ rest /\ Sem r w c c'.
Proof.
  induction r; simpl; intros s c rest c' H.
  - destruct H as [H|[]]. injection H as <- <-. exists []. split; [easy|constructor].
  - destruct s as [|x s]; [easy|]. destruct (inCls k x) eqn:E; [|easy].
    destruct H as [H|[]]. injection H as <- <-. exists [x]. split; [easy|now constructor].
  - apply in_flat_map in H. destruct H as ([s1 c1] & H1 & H2). simpl in H2.
    destruct (IHr1 _ _ _ _ H1) as (w1 & -> & S1).
    destruct (IHr2 _ _ _ _ H2) as (w2 & -> & S2).
    exists (w1 ++ w2). rewrite <- app_assoc. split; [easy|]. econstructor; eauto.
  - apply in_app_or in H. destruct H as [H|H].
    + destruct (IHr1 _ _ _ _ H) as (w & -> & S1). exists w. split; [easy|]. now apply SemAltL.
    + destruct (IHr2 _ _ _ _ H) as (w & -> & S1). exists w. split; [easy|]. now apply SemAltR.
  - apply in_app_or in H. destruct H as [H|[H|[]]].
    + destruct (IHr _ _ _ _ H) as (w & -> & S1). exists w. split; [easy|]. now apply SemOptSome.
    + injection H as <- <-. exists []. split; [easy|]. apply SemOptNone.
  - destruct (plusC_sound _ _ _ _ _ H) as (-> & w & -> & Hn & Hw).
    exists w. split; [easy|]. now constructor.
  - destruct (uptoC_sound _ _ _ _ _ _ H) as (-> & w & -> & Hn & Hw).
    exists w. split; [easy|]. now constructor.
  - apply in_map_iff in H. destruct H as ([s1 c1] & E & H). simpl in E.
    injection E as <- <-. destruct (IHr _ _ _ _ H) as (w & -> & S1).
    exists w. split; [easy|]. rewrite firstn_app_exact. now constructor.
Qed.

Lemma go_complete r w c c' :
  Sem r w c c' -> forall rest, In (rest, c') (go r (w ++ rest) c).
Proof.
  induction 1; intros rest; simpl.
  - now left.
  - rewrite H. now left.
  - rewrite <- app_assoc. apply in_flat_map. exists (w2 ++ rest, c1). split.
    + apply IHSem1.
    + apply IHSem2.
  - apply in_or_app. left. apply IHSem.
  - apply in_or_app. right. apply IHSem.
  - apply in_or_app. left. apply IHSem.
  - apply in_or_app. right. now left.
  - now apply plusC_complete.
  - now apply uptoC_complete.
  - apply in_map_iff. exists (rest, c'). split; [|apply IHSem].
    simpl. now rewrite firstn_app_exact.
Qed.

Lemma find_sound r : forall s from rest c,
  find r s = Some (from, (rest, c)) ->
  exists pre w, s = pre ++ from /\ from = w ++ rest /\ Sem r w [] c.
Proof.
  induction s as [|x s IH]; intros from rest c H; simpl in H.
  - destruct (go r [] []) as [|t l] eqn:E; [easy|]. injection H as <- ->.
    destruct (go_sound r [] [] rest c) as (w & Hw & S1); [rewrite E; now left|].
    exists [], w. auto.
  - destruct (go r (x :: s) []) as [|t l] eqn:E.
    + destruct (IH _ _ _ H) as (pre & w & -> & -> & S1).
      exists (x :: pre), w. auto.
    + injection H as <- ->.
      destruct (go_sound r (x :: s) [] rest c) as (w & Hw & S1); [rewrite E; now left|].
      exists [], w. auto.
Qed.

Lemma find_complete r c pre w post :
  Sem r w [] c -> exists m, find r (pre ++ w ++ post) = Some m.
Proof.
  intros S1. induction pre as [|x pre IH]; simpl.
  - pose proof (go_complete _ _ _ _ S1 post) as H.
    destruct (w ++ post) as [|y l]; simpl;
      destruct (go r _ []) as [|t g]; try easy; eauto.
  - destruct (go r (x :: pre ++ w ++ post) []) as [|t g]; eauto.
Qed.

Lemma find_None_iff r s :
  find r s = None <-> forall c, ~ matchesAt r s c.
Proof.
  split.
  - intros H c (pre & w & post & -> & S1).
    destruct (find_complete _ _ pre _ post S1) as (m & Hm). congruence.
  - intros H. destruct (find r s) as [[from [rest c]]|] eqn:E; [|easy].
    destruct (find_sound _ _ _ _ _ E) as (pre & w & -> & -> & S1).
    exfalso. apply (H c). now exists pre, w, rest.
Qed.

Lemma MatchString_iff r s :
  MatchString r s = true <-> exists c, matchesAt r s c.
Proof.
  unfold MatchString. split.
  - destruct (find r s) as [[from [rest c]]|] eqn:E; [intros _|easy].
    destruct (find_sound _ _ _ _ _ E) as (pre & w & -> & -> & S1).
    exists c, pre, w, rest. auto.
  - intros (c & pre & w & post & -> & S1).
    destruct (find_complete _ _ pre _ post S1) as (m & ->). easy.
Qed.

End RegexpFacts.

(* ------------------------------------------------------------------ *)
(** ** What [HasError] detects *)

Module UsagelimitFacts.
Import Go Regexp Denote Time Usagelimit RegexpFacts.

Lemma Sem_Eps_inv w c c' : Sem Eps w c c' -> w = [] /\ c' = c.
Proof. inversion 1; auto. Qed.

Lemma Sem_Cat_inv r1 r2 w c c' :
  Sem (Cat r1 r2) w c c' ->
  exists w1 w2 c1, w = w1 ++ w2 /\ Sem r1 w1 c c1 /\ Sem r2 w2 c1 c'.
Proof. inversion 1; subst; eauto 7. Qed.

Lemma Sem_Sym_inv k w c c' :
  Sem (Sym k) w c c' -> exists x, w = [x] /\ inCls k x = true /\ c' = c.
Proof. inversion 1; subst; eauto. Qed.

Lemma Sem_Upto_inv n k w c c' :
  Sem (Upto n k) w c c' ->
  (List.length w <= n)%nat /\ forallb (inCls k) w = true /\ c' = c.
Proof. inversion 1; subst; auto. Qed.

Lemma Sem_Plus_inv k w c c' :
  Sem (Plus k) w c c' -> w <> [] /\ forallb (inCls k) w = true /\ c' = c.
Proof. inversion 1; subst; auto. Qed.

Lemma Sem_Group_inv i r w c c' :
  Sem (Group i r) w c c' -> exists c1, Sem r w c c1 /\ c' = (i, w) :: c1.
Proof. inversion 1; subst; eauto. Qed.

Lemma Sem_Alt_inv r1 r2 w c c' :
  Sem (Alt r1 r2) w c c' -> Sem r1 w c c' \/ Sem r2 w c c'.
Proof. inversion 1; subst; auto. Qed.

Lemma Sem_Opt_inv r w c c' :
  Sem (Opt r) w c c' -> Sem r w c c' \/ (w = [] /\ c' = c).
Proof. inversion 1; subst; auto. Qed.

Lemma Sem_lit p : forall w c c',
  Sem (lit p) w c c' <->
  Forall2 (fun a x => foldEq a x = true) p w /\ c' = c.
Proof.
  induction p as [|a p IH]; intros w c c'; simpl.
  - split.
    + intros H. apply Sem_Eps_inv in H. destruct H as [-> ->]. auto.
    + intros [H ->]. inversion H. constructor.
  - split.
    + intros H. apply Sem_Cat_inv in H.
      destruct H as (w1 & w2 & c1 & -> & H1 & H2).
      apply Sem_Sym_inv in H1. destruct H1 as (x & -> & Hx & ->).
      apply IH in H2. destruct H2 as [H2 ->]. split; [|easy].
      simpl. now constructor.
    + intros [H ->]. inversion H as [|a' x p' w' Hx Hw]; subst.
      change (x :: w') with ([x] ++ w'). econstructor.
      * now constructor.
      * apply IH. auto.
Qed.

Lemma Sem_phrase p w c c' :
  Sem (lit (runes p)) w c c' <-> phrase p w /\ c' = c.
Proof. apply Sem_lit. Qed.

Lemma any_on_line gap :
  forallb (inCls AnyNoNL) gap = true <-> Forall (fun x => x <> 10) gap.
Proof.
  rewrite forallb_forall, Forall_forall. simpl.
  split; intros H x Hx; specialize (H x Hx).
  - apply negb_true_iff in H. now apply Z.eqb_neq.
  - apply negb_true_iff. now apply Z.eqb_neq.
Qed.

(** A phrase, a bounded gap on one line, and a second phrase. *)
Lemma Sem_gap n p q w c c' :
  Sem (seqs [lit (runes p); Upto n AnyNoNL; lit (runes q)]) w c c' <->
  followedOnLine n p q w /\ c' = c.
Proof.
  unfold seqs, followedOnLine; simpl. split.
  - intros H. apply Sem_Cat_inv in H. destruct H as (w1 & r1 & c1 & -> & H1 & H).
    apply Sem_Cat_inv in H. destruct H as (g & r2 & c2 & -> & H2 & H).
    apply Sem_Cat_inv in H. destruct H as (w2 & r3 & c3 & -> & H3 & H).
    apply Sem_Eps_inv in H. destruct H as [-> ->].
    apply Sem_phrase in H1. destruct H1 as [H1 ->].
    apply Sem_Upto_inv in H2. destruct H2 as (Hl & Hg & ->).
    apply Sem_phrase in H3. destruct H3 as [H3 ->].
    split; [|easy]. exists w1, g, w2. rewrite app_nil_r.
    repeat split; auto. now apply any_on_line.
  - intros [(w1 & g & w2 & -> & H1 & Hl & Hg & H2) ->].
    econstructor; [apply Sem_phrase; eauto|].
    econstructor; [constructor; [exact Hl|now apply any_on_line]|].
    rewrite <- (app_nil_r w2).
    econstructor; [apply Sem_phrase; eauto|constructor].
Qed.

Lemma Sem_errorRe w c :
  Sem errorRe w [] c <->
  (phrase "exceeded your usage limit" w
   \/ followedOnLine 60 "usage limits" "try again after" w
   \/ followedOnLine 60 "rate limit" "retry after" w) /\ c = [(1%nat, w)].
Proof.
  unfold errorRe. split.
  - intros H. apply Sem_Group_inv in H. destruct H as (c1 & H & ->).
    apply Sem_Alt_inv in H. destruct H as [H|H].
    { apply Sem_phrase in H. destruct H as [H ->]. auto. }
    apply Sem_Alt_inv in H. destruct H as [H|H];
      apply Sem_gap in H; destruct H as [H ->]; auto.
  - intros [H ->]. constructor. destruct H as [H|[H|H]].
    + apply SemAltL. apply Sem_phrase. auto.
    + apply SemAltR, SemAltL. apply Sem_gap. auto.
    + apply SemAltR, SemAltR. apply Sem_gap. auto.
Qed.

Lemma occurs_or (P Q : text -> Prop) t :
  occurs (fun w => P w \/ Q w) t <-> occurs P t \/ occurs Q t.
Proof.
  unfold occurs. split.
  - intros (pre & w & post & E & [H|H]); [left|right]; eauto 6.
  - intros [(pre & w & post & E & H)|(pre & w & post & E & H)]; eauto 7.
Qed.

(** C1, as amended: [HasError] holds exactly of the texts that contain, in
    any mix of cases, "exceeded your usage limit", or "usage limits" and then
    "try again after" at most 60 characters of the same line later, or
    "rate limit" and then "retry after" at most 60 characters of the same
    line later. *)
Theorem HasError_iff_trigger (t : text) :
  HasError t = true <-> trigger t.
Proof.
  unfold HasError, trigger. rewrite MatchString_iff.
  rewrite <- !occurs_or. unfold matchesAt, occurs. split.
  - intros (c & pre & w & post & E & H). apply Sem_errorRe in H.
    destruct H as [H _]. eauto 6.
  - intros (pre & w & post & E & H). exists [(1%nat, w)], pre, w, post.
    split; [easy|]. apply Sem_errorRe. auto.
Qed.

(** C1, as the specification words it, fails: after the singular "usage
    limit" the phrase "try again after" does not make the text an error. *)
Lemma HasError_misses_usage_limit :
  claimedTrigger (runes "usage limit try again after")
  /\ HasError (runes "usage limit try again after") = false.
Proof.
  split; [|reflexivity].
  right; left. exists [], (runes "usage limit try again after"), [].
  split; [reflexivity|].
  exists (runes "usage limit"), (runes " "), (runes "try again after").
  split; [reflexivity|]. split; [|split; [simpl; lia|]];
    unfold phrase; repeat constructor.
Qed.

End UsagelimitFacts.

(* ------------------------------------------------------------------ *)
(** ** The relative-duration strategy *)

Module ParserFacts.
Import Go Regexp Denote Time Usagelimit RegexpFacts UsagelimitFacts.

Lemma wrap_small z : minInt <= z <= maxInt -> wrap z = z.
Proof.
  unfold wrap, minInt, maxInt. intros H.
  rewrite Z.mod_small; lia.
Qed.

Lemma digitsValue_nonneg d : forall acc,
  0 <= acc -> forallb isDigit d = true -> 0 <= digitsValue acc d.
Proof.
  induction d as [|x d IH]; cbn [digitsValue forallb]; intros acc Ha H; [easy|].
  apply andb_prop in H. destruct H as [Hx Hd]. apply IH; [|easy].
  unfold isDigit in Hx. apply andb_prop in Hx. destruct Hx as [H1 H2].
  apply Z.leb_le in H1, H2. unfold rune in *. lia.
Qed.

Lemma Atoi_nonneg s : 0 <= Atoi s.
Proof.
  unfold Atoi. destruct s as [|x s]; [easy|].
  destruct (forallb isDigit (x :: s)) eqn:E; [|easy].
  apply Z.min_glb; [|unfold maxInt; lia].
  apply digitsValue_nonneg; [lia|easy].
Qed.

Lemma Atoi_digits d :
  d <> [] -> forallb isDigit d = true -> Atoi d = Z.min (number d) maxInt.
Proof.
  unfold Atoi, number. intros Hn Hd. destruct d; [easy|]. now rewrite Hd.
Qed.

Lemma FindStringSubmatch_Some n r s l :
  FindStringSubmatch n r s = Some l ->
  exists pre w post c,
    s = pre ++ w ++ post /\ Sem r w [] c /\
    l = w :: map (fun i => capture i c) (seq 1 n).
Proof.
  unfold FindStringSubmatch.
  destruct (find r s) as [[from [rest c]]|] eqn:E; [|easy].
  intros H. injection H as <-.
  destruct (find_sound _ _ _ _ _ E) as (pre & w & -> & -> & S1).
  exists pre, w, rest, c. now rewrite firstn_app_exact.
Qed.

Lemma FindStringSubmatch_None n r s :
  FindStringSubmatch n r s = None <-> forall c, ~ matchesAt r s c.
Proof.
  rewrite <- find_None_iff. unfold FindStringSubmatch.
  destruct (find r s) as [[from [rest c]]|]; easy.
Qed.

(** What the three duration patterns capture. *)
Lemma Sem_digits_group i w c c' :
  Sem (Group i (Plus DigitC)) w c c' ->
  w <> [] /\ forallb isDigit w = true /\ c' = (i, w) :: c.
Proof.
  intros H. apply Sem_Group_inv in H. destruct H as (c1 & H & ->).
  apply Sem_Plus_inv in H. destruct H as (Hn & Hd & ->). auto.
Qed.

Lemma Sem_lit_caps p w c c' : Sem (lit p) w c c' -> c' = c.
Proof. intros H. now apply Sem_lit in H. Qed.

Lemma Sem_opt_s w c c' : Sem (Opt (lit (runes "s"))) w c c' -> c' = c.
Proof.
  intros H. apply Sem_Opt_inv in H. destruct H as [H|[_ H]]; [|easy].
  now apply Sem_lit_caps in H.
Qed.

Lemma Sem_hoursRe w c :
  Sem hoursRe w [] c ->
  exists d, c = [(1%nat, d)] /\ d <> [] /\ forallb isDigit d = true.
Proof.
  unfold hoursRe, seqs; cbn [fold_right]. intros H.
  apply Sem_Cat_inv in H. destruct H as (w1 & r1 & c1 & -> & H1 & H).
  apply Sem_Cat_inv in H. destruct H as (d & r2 & c2 & -> & H2 & H).
  apply Sem_Cat_inv in H. destruct H as (w3 & r3 & c3 & -> & H3 & H).
  apply Sem_Cat_inv in H. destruct H as (w4 & r4 & c4 & -> & H4 & H).
  apply Sem_Eps_inv in H. destruct H as [-> Hc].
  apply Sem_lit_caps in H1.
  apply Sem_digits_group in H2. destruct H2 as (Hn & Hd & H2).
  apply Sem_lit_caps in H3. apply Sem_opt_s in H4. subst.
  eauto.
Qed.

Lemma Sem_minsRe w c :
  Sem minsRe w [] c ->
  exists d, c = [(1%nat, d)] /\ d <> [] /\ forallb isDigit d = true.
Proof.
  unfold minsRe, seqs; cbn [fold_right]. intros H.
  apply Sem_Cat_inv in H. destruct H as (d & r2 & c2 & -> & H2 & H).
  apply Sem_Cat_inv in H. destruct H as (w3 & r3 & c3 & -> & H3 & H).
  apply Sem_Cat_inv in H. destruct H as (w4 & r4 & c4 & -> & H4 & H).
  apply Sem_Eps_inv in H. destruct H as [-> Hc].
  apply Sem_digits_group in H2. destruct H2 as (Hn & Hd & H2).
  apply Sem_lit_caps in H3. apply Sem_opt_s in H4. subst.
  eauto.
Qed.

Lemma Sem_utcTimeRe w c :
  Sem utcTimeRe w [] c ->
  exists dh dm, c = [(2%nat, dm); (1%nat, dh)] /\
    dh <> [] /\ forallb isDigit dh = true /\
    dm <> [] /\ forallb isDigit dm = true.
Proof.
  unfold utcTimeRe, seqs; cbn [fold_right]. intros H.
  apply Sem_Cat_inv in H. destruct H as (w1 & r1 & c1 & -> & H1 & H).
  apply Sem_Cat_inv in H. destruct H as (dh & r2 & c2 & -> & H2 & H).
  apply Sem_Cat_inv in H. destruct H as (w3 & r3 & c3 & -> & H3 & H).
  apply Sem_Cat_inv in H. destruct H as (dm & r4 & c4 & -> & H4 & H).
  apply Sem_Cat_inv in H. destruct H as (w5 & r5 & c5 & -> & H5 & H).
  apply Sem_Eps_inv in H. destruct H as [-> Hc].
  apply Sem_lit_caps in H1.
  apply Sem_digits_group in H2. destruct H2 as (Hn & Hd & H2).
  apply Sem_lit_caps in H3.
  apply Sem_digits_group in H4. destruct H4 as (Hn' & Hd' & H4).
  apply Sem_lit_caps in H5. subst.
  exists dh, dm. auto.
Qed.

(** The submatches of the one-group patterns are digit strings. *)
Lemma one_group_digits r s l :
  (forall w c, Sem r w [] c ->
     exists d, c = [(1%nat, d)] /\ d <> [] /\ forallb isDigit d = true) ->
  FindStringSubmatch 1 r s = Some l ->
  exists m0 d, l = [m0; d] /\ d <> [] /\ forallb isDigit d = true /\
               matchesAt r s [(1%nat, d)].
Proof.
  intros Hr H. apply FindStringSubmatch_Some in H.
  destruct H as (pre & w & post & c & -> & S1 & ->).
  destruct (Hr _ _ S1) as (d & -> & Hn & Hd).
  exists w, d. simpl. repeat split; auto. now exists pre, w, post.
Qed.

Lemma utc_digits s l :
  FindStringSubmatch 2 utcTimeRe s = Some l ->
  exists m0 dh dm, l = [m0; dh; dm] /\
    dh <> [] /\ forallb isDigit dh = true /\
    dm <> [] /\ forallb isDigit dm = true.
Proof.
  intros H. apply FindStringSubmatch_Some in H.
  destruct H as (pre & w & post & c & -> & S1 & ->).
  destruct (Sem_utcTimeRe _ _ S1) as (dh & dm & -> & H).
  exists w, dh, dm. simpl. auto.
Qed.

Lemma utcWait_no_match now s :
  FindStringSubmatch 2 utcTimeRe s = None -> utcWait now s = None.
Proof. unfold utcWait. now intros ->. Qed.

Lemma relativeWait_zero_hours s :
  match FindStringSubmatch 1 hoursRe s with
  | Some [_; d] => Atoi d = 0
  | _ => True
  end -> relativeWait s = 3600.
Proof.
  unfold relativeWait. intros H.
  destruct (FindStringSubmatch 1 hoursRe s) as [[|m0 [|d [|? ?]]]|]; try easy.
  now rewrite H.
Qed.

(** C3, as amended.  With no "after HH:MM UTC" match, let X be the number of
    the leftmost "in X hour(s)" match and Y that of the leftmost
    "Y minute(s)" match (0 without one).  If X is 0 the result is the 3600
    fallback; if X is at least 1 and X*3600 + Y*60 is no more than the
    largest 64-bit int, the result is X*3600 + Y*60. *)
Theorem relative_duration (now : Time) (t m0 dx : text) :
  FindStringSubmatch 2 utcTimeRe t = None ->
  FindStringSubmatch 1 hoursRe t = Some [m0; dx] ->
  let X := number dx in
  let Y := match FindStringSubmatch 1 minsRe t with
           | Some [_; dy] => number dy
           | _ => 0
           end in
  (X = 0 -> ExtractWaitSecs now t = 3600) /\
  (1 <= X -> X * 3600 + Y * 60 <= maxInt ->
   ExtractWaitSecs now t = X * 3600 + Y * 60).
Proof.
  intros Hu Hh X Y. unfold ExtractWaitSecs. rewrite (utcWait_no_match _ _ Hu).
  destruct (one_group_digits _ _ _ Sem_hoursRe Hh) as (m0' & d & E & Hn & Hd & _).
  injection E as <- <-.
  assert (HX : 0 <= X) by (apply digitsValue_nonneg; [lia|easy]).
  split.
  - intros HX0. apply relativeWait_zero_hours. rewrite Hh.
    rewrite Atoi_digits by easy. fold X. rewrite HX0. reflexivity.
  - intros HX1 Hfit.
    assert (HY : 0 <= Y /\ Y = match FindStringSubmatch 1 minsRe t with
                               | Some [_; dy] => Atoi dy
                               | _ => 0
                               end).
    { subst Y. destruct (FindStringSubmatch 1 minsRe t) as [l|] eqn:Hm; [|easy].
      destruct (one_group_digits _ _ _ Sem_minsRe Hm) as (m1 & dy & -> & Hn' & Hd' & _).
      rewrite Atoi_digits by easy. fold (number dy).
      assert (0 <= number dy) by (apply digitsValue_nonneg; [lia|easy]).
      split; [easy|]. rewrite Z.min_l; lia. }
    destruct HY as [HY0 HYe].
    unfold relativeWait. rewrite Hh. rewrite Atoi_digits by easy. fold X.
    rewrite Z.min_l by lia. rewrite <- HYe.
    replace (X >? 0) with true by (symmetry; apply Z.gtb_lt; lia).
    simpl. unfold add, mul. unfold maxInt in Hfit.
    rewrite !wrap_small; unfold minInt, maxInt; try lia.
    all: rewrite !wrap_small; unfold minInt, maxInt; lia.
Qed.

Lemma relative_duration_example :
  ExtractWaitSecs 0 (runes "in 1 hours 30 minutes") = 1 * 3600 + 30 * 60
  /\ ExtractWaitSecs 0 (runes "in 0 hours 45 minutes") = 3600.
Proof.
  split.
  - refine (proj2 (relative_duration 0 (runes "in 1 hours 30 minutes")
                     (runes "in 1 hours") (runes "1") _ _) _ _);
      vm_compute; congruence.
  - refine (proj1 (relative_duration 0 (runes "in 0 hours 45 minutes")
                     (runes "in 0 hours") (runes "0") _ _) _);
      vm_compute; congruence.
Defined.

(** Beyond that range the product wraps around in the 64-bit int. *)
Lemma relative_duration_overflow :
  FindStringSubmatch 2 utcTimeRe (runes "in 2562047788015216 hours") = None
  /\ FindStringSubmatch 1 hoursRe (runes "in 2562047788015216 hours")
     = Some [runes "in 2562047788015216 hours"; runes "2562047788015216"]
  /\ FindStringSubmatch 1 minsRe (runes "in 2562047788015216 hours") = None
  /\ number (runes "2562047788015216") = 2562047788015216
  /\ ExtractWaitSecs 0 (runes "in 2562047788015216 hours")
     = 2562047788015216 * 3600 - 2 ^ 64.
Proof. repeat split; vm_compute; reflexivity. Qed.

(** What the relative strategy returns, by the leftmost match of each of
    its two patterns. *)
Lemma relativeWait_value (t : text) :
  let X := match FindStringSubmatch 1 hoursRe t with
           | Some [_; dx] => number dx
           | _ => 0
           end in
  let Y := match FindStringSubmatch 1 minsRe t with
           | Some [_; dy] => number dy
           | _ => 0
           end in
  (X = 0 -> relativeWait t = 3600) /\
  (1 <= X -> X * 3600 + Y * 60 <= maxInt -> relativeWait t = X * 3600 + Y * 60).
Proof.
  intros X Y.
  assert (HX : 0 <= X /\ X <= maxInt ->
               X = match FindStringSubmatch 1 hoursRe t with
                   | Some [_; dx] => Atoi dx
                   | _ => 0
                   end).
  { subst X. destruct (FindStringSubmatch 1 hoursRe t) as [l|] eqn:Hh; [|easy].
    destruct (one_group_digits _ _ _ Sem_hoursRe Hh) as (m1 & dx & -> & Hn & Hd & _).
    intros [H0 H1]. rewrite Atoi_digits by easy. fold (number dx).
    rewrite Z.min_l; lia. }
  assert (HX0 : 0 <= X).
  { subst X. destruct (FindStringSubmatch 1 hoursRe t) as [l|] eqn:Hh; [|easy].
    destruct (one_group_digits _ _ _ Sem_hoursRe Hh) as (m1 & dx & -> & Hn & Hd & _).
    apply digitsValue_nonneg; [lia|easy]. }
  assert (HY : 0 <= Y /\ (Y <= maxInt ->
               Y = match FindStringSubmatch 1 minsRe t with
                   | Some [_; dy] => Atoi dy
                   | _ => 0
                   end)).
  { subst Y. destruct (FindStringSubmatch 1 minsRe t) as [l|] eqn:Hm; [|easy].
    destruct (one_group_digits _ _ _ Sem_minsRe Hm) as (m1 & dy & -> & Hn' & Hd' & _).
    rewrite Atoi_digits by easy. fold (number dy).
    assert (0 <= number dy) by (apply digitsValue_nonneg; [lia|easy]).
    split; [easy|]. intros H1. rewrite Z.min_l; lia. }
  destruct HY as [HY0 HYe]. split.
  - intros E. apply relativeWait_zero_hours.
    rewrite E in HX. unfold maxInt in HX. specialize (HX ltac:(lia)).
    destruct (FindStringSubmatch 1 hoursRe t) as [[|m0 [|d [|? ?]]]|]; try easy.
  - intros H1 Hfit. unfold relativeWait.
    rewrite <- HX by (unfold maxInt in *; lia).
    rewrite <- HYe by (unfold maxInt in *; lia).
    replace (X >? 0) with true by (symmetry; apply Z.gtb_lt; lia).
    simpl. unfold add, mul. unfold maxInt in Hfit.
    rewrite !wrap_small; unfold minInt, maxInt; try lia.
    all: rewrite !wrap_small; unfold minInt, maxInt; lia.
Qed.

(** C3, as first stated, fails on a text whose first "in X hours" has
    X = 0: the code reads the leftmost match of each pattern, so the text
    below, which holds "in 4 hours" and "1 minutes", gets the 3600
    fallback and not 4*3600 + 1*60. *)
Lemma relative_duration_leftmost :
  FindStringSubmatch 2 utcTimeRe (runes "in 0 hours, or rather in 4 hours 1 minutes") = None
  /\ matchesAt hoursRe (runes "in 0 hours, or rather in 4 hours 1 minutes")
       [(1%nat, runes "4")]
  /\ matchesAt minsRe (runes "in 0 hours, or rather in 4 hours 1 minutes")
       [(1%nat, runes "1")]
  /\ (forall now,
        ExtractWaitSecs now (runes "in 0 hours, or rather in 4 hours 1 minutes")
        = 3600)
  /\ 3600 <> 4 * 3600 + 1 * 60.
Proof.
  split; [reflexivity|]. split; [|split; [|split; [|lia]]].
  - exists (runes "in 0 hours, or rather "), (runes "in 4 hours"),
      (runes " 1 minutes"). split; [reflexivity|].
    destruct (go_sound hoursRe (runes "in 4 hours") [] [] [(1%nat, runes "4")])
      as (w & E & S); [vm_compute; auto|].
    rewrite app_nil_r in E. now subst w.
  - exists (runes "in 0 hours, or rather in 4 hours "), (runes "1 minutes"), [].
    split; [reflexivity|].
    destruct (go_sound minsRe (runes "1 minutes") [] [] [(1%nat, runes "1")])
      as (w & E & S); [vm_compute; auto|].
    rewrite app_nil_r in E. now subst w.
  - intros now. reflexivity.
Qed.

End ParserFacts.

(* ------------------------------------------------------------------ *)
(** ** The wall-clock strategy *)

Module ClockFacts.
Import Go Regexp Denote Time Usagelimit RegexpFacts UsagelimitFacts ParserFacts.

Lemma day_value : day = 86400000000000.
Proof. reflexivity. Qed.

Lemma Second_value : Second = 1000000000.
Proof. reflexivity. Qed.

(** *** The float of [Seconds] *)

Lemma nearest_bounds n d :
  0 < d -> n / d <= nearest n d <= n / d + 1.
Proof.
  intros Hd. unfold nearest.
  destruct (2 * (n mod d) <? d); [lia|].
  destruct (d <? 2 * (n mod d)); [lia|].
  destruct (Z.even (n / d)); lia.
Qed.

Lemma log2_below n d : 0 < n -> n < d -> Z.log2 n <= Z.log2 d.
Proof. intros. apply Z.log2_le_mono. lia. Qed.

(** The exponent that [float64] gives a fraction below 1. *)
Lemma float64_fraction n d :
  0 < n -> n < d ->
  53 <= snd (float64 n d)
  /\ fst (float64 n d) = nearest (n * 2 ^ snd (float64 n d)) d.
Proof.
  intros Hn Hd. unfold float64. cbn [fst snd].
  set (a := Z.log2 n). set (b := Z.log2 d).
  assert (Hab : a <= b) by (apply Z.log2_le_mono; lia).
  assert (Ha : 0 <= a) by apply Z.log2_nonneg.
  assert (K : 53 <= 52 - (if d * 2 ^ a <=? n * 2 ^ b then a - b else a - b - 1)).
  { destruct (Z.leb_spec (d * 2 ^ a) (n * 2 ^ b)) as [L|L]; [|lia].
    destruct (Z.eq_dec a b) as [E|E]; [|lia]. rewrite E in L.
    assert (0 < 2 ^ b) by (apply Z.pow_pos_nonneg; lia). nia. }
  split; [exact K|].
  destruct (Z.leb_spec 0 (52 - (if d * 2 ^ a <=? n * 2 ^ b then a - b else a - b - 1)));
    [reflexivity|lia].
Qed.

(** The exponent that [float64] gives a number below 2^20. *)
Lemma float64_sum num k :
  0 <= k -> 0 < num -> num < 2 ^ 20 * 2 ^ k ->
  33 <= snd (float64 num (2 ^ k))
  /\ fst (float64 num (2 ^ k))
     = nearest (num * 2 ^ snd (float64 num (2 ^ k))) (2 ^ k).
Proof.
  intros Hk Hlo Hhi. unfold float64. cbn [fst snd].
  rewrite Z.log2_pow2 by assumption.
  set (a := Z.log2 num).
  assert (P : 0 < 2 ^ k) by (apply Z.pow_pos_nonneg; lia).
  assert (Ha : a < 20 + k).
  { apply Z.log2_lt_pow2; [lia|]. rewrite Z.pow_add_r by lia. exact Hhi. }
  assert (K : 33 <= 52 - (if 2 ^ k * 2 ^ a <=? num * 2 ^ k then a - k else a - k - 1)).
  { destruct (_ <=? _); lia. }
  split; [exact K|].
  destruct (Z.leb_spec 0 (52 - (if 2 ^ k * 2 ^ a <=? num * 2 ^ k then a - k else a - k - 1)));
    [reflexivity|lia].
Qed.

Lemma SecondsInt_exact d :
  0 <= d < 2 ^ 20 * 10 ^ 9 -> SecondsInt d = d / Second.
Proof.
  intros Hd. unfold SecondsInt.
  change Second with 1000000000 in *. change (10 ^ 9) with 1000000000 in *.
  rewrite Z.quot_div_nonneg, Z.rem_mod_nonneg by lia.
  pose proof (Z.div_mod d 1000000000 ltac:(lia)) as E.
  pose proof (Z.mod_pos_bound d 1000000000 ltac:(lia)) as B.
  set (s := d / 1000000000) in *. set (ns := d mod 1000000000) in *.
  assert (Hs : 0 <= s < 2 ^ 20).
  { split; [apply Z.div_pos; lia|]. apply Z.div_lt_upper_bound; lia. }
  rewrite (Z.abs_eq s), (Z.abs_eq ns) by lia.
  destruct (Z.eqb_spec ns 0) as [N0|N0].
  - (* a whole number of seconds *)
    change (2 ^ 0) with 1. rewrite Z.mul_1_r, Z.add_0_r.
    destruct (Z.eqb_spec s 0) as [S0|S0].
    + cbn. rewrite S0. lia.
    + change 1 with (2 ^ 0) at 1.
      destruct (float64_sum s 0) as [K M]; [lia|lia|lia|].
      destruct (float64 s (2 ^ 0)) as [m k]. cbn [fst snd] in K, M.
      destruct (Z.leb_spec 0 k); [|lia].
      assert (Pk : 0 < 2 ^ k) by (apply Z.pow_pos_nonneg; lia).
      rewrite M. change (2 ^ 0) with 1.
      assert (X : nearest (s * 2 ^ k) 1 = s * 2 ^ k).
      { pose proof (nearest_bounds (s * 2 ^ k) 1 ltac:(lia)) as NB.
        unfold nearest in *. rewrite Z.mod_1_r, Z.div_1_r in *. reflexivity. }
      rewrite X, Z.div_mul by lia.
      assert (0 < d) by lia. rewrite (Z.sgn_pos d) by lia. lia.
  - destruct (float64_fraction ns 1000000000) as [K1 M1]; [lia|lia|].
    destruct (float64 ns 1000000000) as [m1 k1]. cbn [fst snd] in K1, M1.
    assert (P1 : 0 < 2 ^ (k1 - 31)) by (apply Z.pow_pos_nonneg; lia).
    assert (E1 : 2 ^ k1 = 2147483648 * 2 ^ (k1 - 31)).
    { replace k1 with (31 + (k1 - 31)) at 1 by lia. now rewrite Z.pow_add_r by lia. }
    set (P := 2 ^ (k1 - 31)) in *.
    assert (Hm1 : 1 <= m1 <= 2 ^ k1 - P).
    { pose proof (nearest_bounds (ns * 2 ^ k1) 1000000000 ltac:(lia)) as NB.
      rewrite <- M1 in NB. split.
      - assert (1 <= ns * 2 ^ k1 / 1000000000); [|lia].
        apply Z.div_le_lower_bound; [lia|]. rewrite E1.
        assert (4194304 <= P).
        { subst P. change 4194304 with (2 ^ 22). apply Z.pow_le_mono_r; lia. }
        nia.
      - assert (ns * 2 ^ k1 / 1000000000 <= 2 ^ k1 - P - 1); [|lia].
        apply Z.div_le_upper_bound; [lia|]. rewrite E1. nia. }
    assert (Pk1 : 0 < 2 ^ k1) by lia.
    destruct (Z.eqb_spec (s * 2 ^ k1 + m1) 0) as [Z0|_]; [nia|].
    destruct (float64_sum (s * 2 ^ k1 + m1) k1) as [K2 M2]; [lia|nia| |].
    { assert (s + 1 <= 2 ^ 20) by lia. nia. }
    destruct (float64 (s * 2 ^ k1 + m1) (2 ^ k1)) as [m2 k2]. cbn [fst snd] in K2, M2.
    destruct (Z.leb_spec 0 k2); [|lia].
    assert (0 < d) by lia. rewrite (Z.sgn_pos d), Z.mul_1_l by lia.
    assert (P2 : 0 < 2 ^ (k2 - 31)) by (apply Z.pow_pos_nonneg; lia).
    assert (E2 : 2 ^ k2 = 2147483648 * 2 ^ (k2 - 31)).
    { replace k2 with (31 + (k2 - 31)) at 1 by lia. now rewrite Z.pow_add_r by lia. }
    assert (Q2 : 4 <= 2 ^ (k2 - 31)).
    { change 4 with (2 ^ 2). apply Z.pow_le_mono_r; lia. }
    set (Q := 2 ^ (k2 - 31)) in *.
    pose proof (nearest_bounds ((s * 2 ^ k1 + m1) * 2 ^ k2) (2 ^ k1) Pk1) as NB.
    rewrite <- M2 in NB.
    replace ((s * 2 ^ k1 + m1) * 2 ^ k2) with (s * 2 ^ k2 * 2 ^ k1 + m1 * 2 ^ k2) in NB
      by ring.
    rewrite Z.div_add_l in NB by lia.
    assert (F : 0 <= m1 * 2 ^ k2 / 2 ^ k1 <= 2 ^ k2 - Q).
    { split; [apply Z.div_pos; nia|].
      apply Z.div_le_upper_bound; [lia|].
      rewrite E2. rewrite E1 in *. nia. }
    symmetry. apply Z.div_unique with (r := m2 - s * 2 ^ k2); lia.
Qed.

(** *** The date *)

Lemma norm_small hi lo base : 0 <= lo < base -> norm hi lo base = (hi, lo).
Proof.
  intros H. unfold norm.
  destruct (Z.ltb_spec lo 0); [lia|]. destruct (Z.leb_spec base lo); [lia|easy].
Qed.

(** With an hour and a minute that a clock can show nothing is carried
    over and nothing wraps around. *)
Lemma DateOn_clock now h mi :
  0 <= h < 24 -> 0 <= mi < 60 ->
  DateOn now h mi = (now - now mod day) + (h * 3600 + mi * 60) * 10 ^ 9.
Proof.
  intros Hh Hm. unfold DateOn. rewrite (norm_small h mi 60 Hm).
  rewrite (norm_small 0 h 24 Hh).
  pose proof (Z.mod_pos_bound now day ltac:(rewrite day_value; lia)) as Hb.
  pose proof (Z.div_mod now day ltac:(rewrite day_value; lia)) as Hd.
  assert (E : now - now mod day = now / day * 86400 * Second).
  { rewrite Second_value. rewrite day_value in *. lia. }
  rewrite E, Z.div_mul by (rewrite Second_value; lia).
  assert (W : (if inRange now
               then wrap (now / day * 86400 + unixToInternal + 0 * 86400
                          + h * 3600 + mi * 60)
               else now / day * 86400 + unixToInternal + 0 * 86400
                    + h * 3600 + mi * 60)
              = now / day * 86400 + unixToInternal + 0 * 86400 + h * 3600 + mi * 60).
  { unfold inRange. cbv zeta. rewrite E, Z.div_mul by (rewrite Second_value; lia).
    destruct (Z.leb_spec minInt (now / day * 86400 + unixToInternal));
      [|reflexivity].
    destruct (Z.leb_spec (now / day * 86400 + unixToInternal + 86399) maxInt);
      [|reflexivity].
    cbn [andb]. apply wrap_small. lia. }
  rewrite W. rewrite Second_value. change (10 ^ 9) with 1000000000. lia.
Qed.

(** The target the code settles on is the first instant after [now] that
    reads [h]:[mi] on the UTC clock. *)
Lemma next_occurrence (now h mi : Z) :
  0 <= h < 24 -> 0 <= mi < 60 ->
  let t0 := DateOn now h mi in
  let target := if negb (After t0 now) then Add t0 (24 * Hour) else t0 in
  target mod day = (h * 3600 + mi * 60) * 10 ^ 9
  /\ now < target <= now + day.
Proof.
  intros Hh Hm t0 target. subst t0 target. rewrite (DateOn_clock now h mi Hh Hm).
  unfold After, Add.
  change (24 * Hour) with day. change (10 ^ 9) with 1000000000.
  pose proof (Z.mod_pos_bound now day ltac:(rewrite day_value; lia)) as Hb.
  pose proof (Z.div_mod now day ltac:(rewrite day_value; lia)) as Hd.
  set (hm := (h * 3600 + mi * 60) * 1000000000).
  assert (Hhm : 0 <= hm < day) by (subst hm; rewrite day_value; lia).
  assert (E : now - now mod day = now / day * day) by lia.
  rewrite E.
  destruct (now <? now / day * day + hm) eqn:C; simpl.
  - apply Z.ltb_lt in C. split; [|lia].
    rewrite Z.add_comm, Z.mod_add by lia. now apply Z.mod_small.
  - apply Z.ltb_ge in C. split; [|lia].
    replace (now / day * day + hm + day) with (hm + (now / day + 1) * day) by lia.
    rewrite Z.mod_add by lia. now apply Z.mod_small.
Qed.

Lemma SecondsInt_Sub (target now : Z) :
  now < target <= now + day ->
  SecondsInt (Sub target now) = (target - now) / Second.
Proof.
  intros H. unfold Sub. rewrite day_value in H.
  change maxInt with 9223372036854775807.
  change minInt with (-9223372036854775808).
  rewrite Z.min_r by lia. rewrite Z.max_r by lia.
  apply SecondsInt_exact. change (2 ^ 20 * 10 ^ 9) with 1048576000000000. lia.
Qed.

(** C4, as amended.  When the leftmost "after HH:MM UTC" match names an hour
    below 24 and a minute below 60, there is a target instant, the first
    one after [now] that reads HH:MM on the UTC clock (today's if still
    ahead, else tomorrow's).  When the target is a second or more away the
    result is the whole number of seconds from [now] to it, whatever else
    the text holds.  When it is less than a second away the result is that
    of the relative strategy: 3600 when the leftmost "in X hour(s)" match
    has X = 0 or there is none, and X*3600 + Y*60, with Y of the leftmost
    "Y minute(s)" match, when X is at least 1 and the sum fits an int. *)
Theorem utc_wall_clock (now : Time) (t m0 dh dm : text) :
  FindStringSubmatch 2 utcTimeRe t = Some [m0; dh; dm] ->
  number dh < 24 -> number dm < 60 ->
  exists target : Time,
    target mod day = (number dh * 3600 + number dm * 60) * 10 ^ 9
    /\ now < target <= now + day
    /\ (Second <= target - now ->
        ExtractWaitSecs now t = (target - now) / Second)
    /\ (target - now < Second ->
        let X := match FindStringSubmatch 1 hoursRe t with
                 | Some [_; dx] => number dx
                 | _ => 0
                 end in
        let Y := match FindStringSubmatch 1 minsRe t with
                 | Some [_; dy] => number dy
                 | _ => 0
                 end in
        (X = 0 -> ExtractWaitSecs now t = 3600)
        /\ (1 <= X -> X * 3600 + Y * 60 <= maxInt ->
            ExtractWaitSecs now t = X * 3600 + Y * 60)).
Proof.
  intros Hf Hh Hm.
  destruct (utc_digits _ _ Hf) as (m0' & dh' & dm' & E & Hnh & Hdh & Hnm & Hdm).
  injection E as <- <- <-.
  assert (H0h : 0 <= number dh) by (apply digitsValue_nonneg; [lia|easy]).
  assert (H0m : 0 <= number dm) by (apply digitsValue_nonneg; [lia|easy]).
  assert (Eh : Atoi dh = number dh).
  { rewrite Atoi_digits by easy. apply Z.min_l. unfold maxInt. lia. }
  assert (Em : Atoi dm = number dm).
  { rewrite Atoi_digits by easy. apply Z.min_l. unfold maxInt. lia. }
  destruct (next_occurrence now (number dh) (number dm)) as [Hmod Hrange];
    [lia|lia|].
  eexists. split; [exact Hmod|]. split; [exact Hrange|].
  assert (EW : forall v,
    ExtractWaitSecs now t =
    (if (v >? 0) then v else relativeWait t) ->
    ExtractWaitSecs now t = if v >? 0 then v else relativeWait t) by auto.
  unfold ExtractWaitSecs, utcWait. rewrite Hf, Eh, Em.
  cbv zeta. rewrite (SecondsInt_Sub _ _ Hrange).
  match goal with |- context [(?T - now) / Second] => set (target := T) in * end.
  split.
  - intros Hs.
    assert (1 <= (target - now) / Second).
    { apply Z.div_le_lower_bound; rewrite Second_value in *; lia. }
    destruct (Z.gtb_spec ((target - now) / Second) 0); [reflexivity|lia].
  - intros Hs.
    assert (E0 : (target - now) / Second = 0).
    { apply Z.div_small. rewrite Second_value in *. lia. }
    rewrite E0. cbn [Z.gtb Z.compare]. apply relativeWait_value.
Qed.

(** At half a second before 14:00 the wall-clock strategy finds no whole
    second to wait and the three hours of the text decide; a minute
    earlier the 60 seconds to 14:00 do, not the three hours. *)
Lemma utc_wall_clock_example :
  (FindStringSubmatch 2 utcTimeRe
     (runes "limit reached, try again after 14:00 UTC or in 3 hours")
   = Some [runes "after 14:00 UTC"; runes "14"; runes "00"]
   /\ number (runes "14") < 24 /\ number (runes "00") < 60)
  /\ (exists target : Time,
        target mod day = (number (runes "14") * 3600 + number (runes "00") * 60)
                         * 10 ^ 9
        /\ 50399500000000 < target <= 50399500000000 + day
        /\ (Second <= target - 50399500000000 ->
            ExtractWaitSecs 50399500000000
              (runes "limit reached, try again after 14:00 UTC or in 3 hours")
            = (target - 50399500000000) / Second)
        /\ (target - 50399500000000 < Second ->
            let X := match FindStringSubmatch 1 hoursRe
                             (runes "limit reached, try again after 14:00 UTC or in 3 hours")
                     with
                     | Some [_; dx] => number dx
                     | _ => 0
                     end in
            let Y := match FindStringSubmatch 1 minsRe
                             (runes "limit reached, try again after 14:00 UTC or in 3 hours")
                     with
                     | Some [_; dy] => number dy
                     | _ => 0
                     end in
            (X = 0 ->
             ExtractWaitSecs 50399500000000
               (runes "limit reached, try again after 14:00 UTC or in 3 hours")
             = 3600)
            /\ (1 <= X -> X * 3600 + Y * 60 <= maxInt ->
                ExtractWaitSecs 50399500000000
                  (runes "limit reached, try again after 14:00 UTC or in 3 hours")
                = X * 3600 + Y * 60)))
  /\ ExtractWaitSecs 50399500000000
       (runes "limit reached, try again after 14:00 UTC or in 3 hours") = 10800
  /\ ExtractWaitSecs 50340000000000
       (runes "limit reached, try again after 14:00 UTC or in 3 hours") = 60.
Proof.
  split; [repeat split|]. split; [|split; reflexivity].
  apply (utc_wall_clock 50399500000000
           (runes "limit reached, try again after 14:00 UTC or in 3 hours")
           (runes "after 14:00 UTC") (runes "14") (runes "00"));
    vm_compute; congruence.
Defined.

(** C4, as first stated, fails for digits that no clock shows: the code
    hands any hour and minute to [time.Date], which carries them over.
    Half an hour after midnight "after 25:30 UTC" gives the 90000 seconds
    to 01:30 of the next day, and no instant of the following 24 hours is
    that far away. *)
Lemma utc_hour_beyond_the_clock :
  FindStringSubmatch 2 utcTimeRe (runes "try again after 25:30 UTC")
  = Some [runes "after 25:30 UTC"; runes "25"; runes "30"]
  /\ ExtractWaitSecs (1800 * 10 ^ 9) (runes "try again after 25:30 UTC") = 90000
  /\ forall target : Time,
       1800 * 10 ^ 9 < target <= 1800 * 10 ^ 9 + day ->
       (target - 1800 * 10 ^ 9) / Second <> 90000.
Proof.
  split; [reflexivity|]. split; [reflexivity|].
  intros target H E. rewrite day_value in H.
  assert ((target - 1800 * 10 ^ 9) / Second <= 86400); [|lia].
  apply Z.div_le_upper_bound; rewrite Second_value; lia.
Qed.

End ClockFacts.

(* ------------------------------------------------------------------ *)
(** ** The fallback, and the sign of the result *)

Module FallbackFacts.
Import Go Regexp Denote Time Usagelimit RegexpFacts UsagelimitFacts ParserFacts.

Lemma matchesAt_everywhere r s c :
  matchesAt r s c -> exists rest, In (rest, c) (everywhere r s).
Proof.
  intros (pre & w & post & -> & S1). exists post.
  induction pre as [|x pre IH]; simpl.
  - pose proof (go_complete _ _ _ _ S1 post) as H.
    destruct (w ++ post); simpl; [now rewrite app_nil_r|].
    apply in_or_app. now left.
  - apply in_or_app. now right.
Qed.

(** A check of every match of a pattern in a text. *)
Lemma every_match r s (P : caps -> bool) :
  forallb (fun t => P (snd t)) (everywhere r s) = true ->
  forall c, matchesAt r s c -> P c = true.
Proof.
  intros H c Hc. destruct (matchesAt_everywhere _ _ _ Hc) as (rest & Hin).
  rewrite forallb_forall in H. apply (H _ Hin).
Qed.

(** C10.  A text with no "after HH:MM UTC" match, in which every
    "in X hour(s)" phrase has X = 0, gets the 3600 fallback, whatever
    "N minutes" phrase it holds. *)
Theorem minutes_alone_ignored (now : Time) (t : text) :
  (forall c, ~ matchesAt utcTimeRe t c) ->
  (forall c, matchesAt hoursRe t c -> number (capture 1 c) = 0) ->
  ExtractWaitSecs now t = 3600.
Proof.
  intros Hu Hh. unfold ExtractWaitSecs.
  rewrite utcWait_no_match by now apply FindStringSubmatch_None.
  apply relativeWait_zero_hours.
  destruct (FindStringSubmatch 1 hoursRe t) as [l|] eqn:E; [|easy].
  destruct (one_group_digits _ _ _ Sem_hoursRe E) as (m0 & d & -> & Hn & Hd & Hm).
  rewrite Atoi_digits by easy. specialize (Hh _ Hm). simpl in Hh.
  rewrite Hh. reflexivity.
Qed.

Lemma minutes_alone_ignored_example :
  MatchString minsRe (runes "retry in 0 hours 45 minutes") = true
  /\ ExtractWaitSecs 0 (runes "retry in 0 hours 45 minutes") = 3600.
Proof.
  split; [reflexivity|].
  apply (minutes_alone_ignored 0 (runes "retry in 0 hours 45 minutes")).
  - apply find_None_iff. reflexivity.
  - intros c H. apply Z.eqb_eq. revert c H.
    apply (every_match hoursRe _ (fun c => number (capture 1 c) =? 0)).
    reflexivity.
Defined.

(** C8 fails on the code: the product of a large hour count and 3600 wraps
    around, and the result is negative, or zero. *)
Theorem ExtractWaitSecs_not_positive (now : Time) :
  ExtractWaitSecs now (runes "in 2562047788015216 hours")
    = -9223372036854774016
  /\ ExtractWaitSecs now (runes "in 1 hours 4611686018427387844 minutes") = 0.
Proof. split; reflexivity. Qed.

Lemma utcWait_positive now t secs : utcWait now t = Some secs -> 0 < secs.
Proof.
  unfold utcWait.
  destruct (FindStringSubmatch 2 utcTimeRe t) as [[|? [|? [|? [|? ?]]]]|]; try easy.
  cbv zeta. destruct (_ >? 0) eqn:E; [|easy].
  intros H. injection H as <-. now apply Z.gtb_lt.
Qed.

(** Within the range of the arithmetic the contract of C8 holds: when the
    hour and minute counts of the text stay below 2^50 the result is
    positive. *)
Theorem ExtractWaitSecs_positive (now : Time) (t : text) :
  (forall c, matchesAt hoursRe t c -> number (capture 1 c) < 2 ^ 50) ->
  (forall c, matchesAt minsRe t c -> number (capture 1 c) < 2 ^ 50) ->
  0 < ExtractWaitSecs now t.
Proof.
  intros Hh Hm. unfold ExtractWaitSecs.
  destruct (utcWait now t) as [secs|] eqn:E; [now apply utcWait_positive in E|].
  unfold relativeWait.
  set (hours := match FindStringSubmatch 1 hoursRe t with
                | Some [_; m1] => Atoi m1 | _ => 0 end).
  set (mins := match FindStringSubmatch 1 minsRe t with
               | Some [_; m1] => Atoi m1 | _ => 0 end).
  assert (Bh : 0 <= hours < 2 ^ 50).
  { subst hours. destruct (FindStringSubmatch 1 hoursRe t) as [l|] eqn:F; [|easy].
    destruct (one_group_digits _ _ _ Sem_hoursRe F) as (m0 & d & -> & Hn & Hd & M).
    split; [apply Atoi_nonneg|]. rewrite Atoi_digits by easy.
    specialize (Hh _ M). simpl in Hh. lia. }
  assert (Bm : 0 <= mins < 2 ^ 50).
  { subst mins. destruct (FindStringSubmatch 1 minsRe t) as [l|] eqn:F; [|easy].
    destruct (one_group_digits _ _ _ Sem_minsRe F) as (m0 & d & -> & Hn & Hd & M).
    split; [apply Atoi_nonneg|]. rewrite Atoi_digits by easy.
    specialize (Hm _ M). simpl in Hm. lia. }
  clearbody hours mins. change (2 ^ 50) with 1125899906842624 in *.
  assert (W : forall a b, 0 <= a < 1125899906842624 -> 0 <= b < 1125899906842624 ->
                add (mul a 3600) (mul b 60) = a * 3600 + b * 60).
  { intros a b Ha Hb. unfold add, mul.
    rewrite !wrap_small; unfold minInt, maxInt; try lia.
    all: rewrite !wrap_small; unfold minInt, maxInt; lia. }
  destruct (hours >? 0) eqn:Eh.
  - apply Z.gtb_lt in Eh. simpl. rewrite W by lia. lia.
  - simpl. destruct (0 >? 0) eqn:E0; [easy|]. simpl. lia.
Qed.

Lemma ExtractWaitSecs_positive_example :
  0 < ExtractWaitSecs 0 (runes "in 2 hours 15 minutes").
Proof.
  apply (ExtractWaitSecs_positive 0 (runes "in 2 hours 15 minutes"));
    intros c H; apply Z.ltb_lt; revert c H.
  - apply (every_match hoursRe _ (fun c => number (capture 1 c) <? 2 ^ 50)).
    reflexivity.
  - apply (every_match minsRe _ (fun c => number (capture 1 c) <? 2 ^ 50)).
    reflexivity.
Defined.

(** The examples of the specification and of parser_test.go that this
    version of the parser meets. *)
Example parser_examples :
  HasError (runes "You have exceeded your usage limit for today.") = true
  /\ HasError (runes "API usage limits " ++ [8212]
                 ++ runes " try again after 14:00 UTC") = true
  /\ HasError (runes "Rate limit exceeded, retry after 1 hour") = true
  /\ HasError (runes "Everything is fine, carry on.") = false
  /\ HasError [] = false
  /\ ExtractWaitSecs 0 (runes "in 2 hours") = 7200
  /\ ExtractWaitSecs 0 (runes "in 1 hours 30 minutes") = 5400
  /\ ExtractWaitSecs 0 (runes "in 0 hours 45 minutes") = 3600
  /\ ExtractWaitSecs 0 (runes "no duration here") = 3600
  /\ ExtractWaitSecs 0 (runes "exceeded your usage limit") = 3600
  /\ ExtractWaitSecs (43200 * 10 ^ 9) (runes "try again after 14:00 UTC") = 7200.
Proof. repeat split; reflexivity. Qed.

End FallbackFacts.

(* ------------------------------------------------------------------ *)
(** ** The fallback selector *)

Module CmdFacts.
Import Go Config Cmd Scenario.
Local Open Scope string_scope.

(** What the replacement loop of the later version computes. *)
Lemma replaceByName_spec name fallback workers :
  replaceByName name fallback workers =
  (map (fun w => if String.eqb (fst (parseWorker w)) name then fallback else w)
       workers,
   Z.of_nat (List.length
     (filter (fun w => String.eqb (fst (parseWorker w)) name) workers))).
Proof.
  induction workers as [|w ws IH]; [reflexivity|]. cbn [replaceByName map filter].
  rewrite IH. destruct (String.eqb (fst (parseWorker w)) name); [|reflexivity].
  cbn [List.length]. now rewrite Nat2Z.inj_succ, Z.add_1_r.
Qed.

Lemma firstAvailableCLI_two LookPath a b :
  firstAvailableCLI LookPath [a; b] =
  if LookPath a then (a, true) else if LookPath b then (b, true) else ("", false).
Proof. reflexivity. Qed.

(** The later selector for gemini.  When some worker is of type gemini and
    the probe of gemini fails, every worker whose name before the colon is
    gemini, model variant or not, becomes claude when claude is on the
    search path, else codex when codex is, and the replacements are
    reported; with neither on the path the list is returned as it was,
    with the two lines of the warning; in every other case the list is
    returned as it was and nothing is printed.  No case is an error. *)
Theorem normalizeGemini_replaces LookPath probe workers :
  let gemini := fun w => String.eqb (fst (parseWorker w)) "gemini" in
  let swap := fun fallback w => if gemini w then fallback else w in
  let count := Z.of_nat (List.length (filter gemini workers)) in
  normalizeGemini LookPath probe workers =
  if containsCLIType workers "gemini" && negb (geminiHealthCheck probe)
  then
    if LookPath "claude"
    then (map (swap "claude") workers, geminiReplaced count "claude")
    else if LookPath "codex"
    then (map (swap "codex") workers, geminiReplaced count "codex")
    else (workers, geminiNoFallback)
  else (workers, []).
Proof.
  intros gemini swap count. unfold normalizeGemini.
  destruct (containsCLIType workers "gemini"); [|reflexivity].
  destruct (geminiHealthCheck probe); [reflexivity|].
  cbn [negb andb]. rewrite firstAvailableCLI_two. unfold commandExists.
  destruct (LookPath "claude").
  - cbn [negb]. now rewrite replaceByName_spec.
  - destruct (LookPath "codex"); [|reflexivity].
    cbn [negb]. now rewrite replaceByName_spec.
Qed.

(** C9 fails on the first [normalizeWorkers]: with gemini failing its probe
    and claude on the search path, a worker that carries a model variant of
    gemini stays as it is (0 workers are replaced), where the later
    [normalizeGemini] replaces it. *)
Theorem normalizeWorkers1_keeps_model_variant :
  normalizeWorkers1 hostPath hostProbe ["gemini:gemini-2.0-flash"; "claude"]
  = (["gemini:gemini-2.0-flash"; "claude"], geminiReplaced 0 "claude")
  /\ normalizeGemini hostPath hostProbe ["gemini:gemini-2.0-flash"; "claude"]
     = (["claude"; "claude"], geminiReplaced 1 "claude").
Proof. split; reflexivity. Qed.

End CmdFacts.

(* ------------------------------------------------------------------ *)
(** ** The watchdog *)

Module MonitorFacts.
Import Go Regexp Denote Time Usagelimit Config Monitor History.
Import RegexpFacts UsagelimitFacts ParserFacts.

(** *** How the calls of the monad run *)

Lemma run_select {A} d (k : bool -> M A) w :
  (x <- selectDone d ;; k x) w =
  match script w with
  | RSelect b :: s => k b {| script := s; past := CSelect d b :: past w |}
  | _ => Pending w
  end.
Proof. unfold bind, selectDone. destruct (script w) as [|[]]; reflexivity. Qed.

Lemma run_now {A} (k : Time -> M A) w :
  (x <- timeNow ;; k x) w =
  match script w with
  | RNow t :: s => k t {| script := s; past := CNow t :: past w |}
  | _ => Pending w
  end.
Proof. unfold bind, timeNow. destruct (script w) as [|[]]; reflexivity. Qed.

Lemma run_capture {A} tgt (k : option text -> M A) w :
  (x <- CapturePane tgt ;; k x) w =
  match script w with
  | RCapture r :: s => k r {| script := s; past := CCapturePane tgt r :: past w |}
  | _ => Pending w
  end.
Proof. unfold bind, CapturePane. destruct (script w) as [|[]]; reflexivity. Qed.

Lemma run_session {A} ses (k : bool -> M A) w :
  (x <- HasSession ses ;; k x) w =
  match script w with
  | RHasSession b :: s => k b {| script := s; past := CHasSession ses b :: past w |}
  | _ => Pending w
  end.
Proof. unfold bind, HasSession. destruct (script w) as [|[]]; reflexivity. Qed.

Lemma run_call {A} c (k : M A) w :
  (call c ;;; k) w = k {| script := script w; past := c :: past w |}.
Proof. reflexivity. Qed.

Lemma run_logf {A} log line (k : M A) w :
  (logf log line ;;; k) w =
  match script w with
  | RNow t :: s =>
      k {| script := s;
           past := (if log then [CFprint t line] else [])
                     ++ CPrint t line :: CNow t :: past w |}
  | _ => Pending w
  end.
Proof.
  unfold logf, bind, timeNow, call, ret.
  destruct (script w) as [|[]]; try reflexivity. now destruct log.
Qed.

(** The extraction reads the clock when the text holds "after HH:MM UTC",
    and then the wait is [ExtractWaitSecs] at that reading; otherwise it
    makes no call and the wait is that of the relative strategy. *)
Lemma run_extract {A} content (k : Z -> M A) w :
  bind (ExtractWaitSecsM content) k w = Pending w
  \/ (readsClock content = false /\
      bind (ExtractWaitSecsM content) k w = k (relativeWait content) w)
  \/ (exists te s, readsClock content = true /\ script w = RNow te :: s /\
        bind (ExtractWaitSecsM content) k w =
        k (ExtractWaitSecs te content)
          {| script := s; past := CNow te :: past w |}).
Proof.
  unfold ExtractWaitSecsM, readsClock.
  destruct (FindStringSubmatch 2 utcTimeRe content)
    as [[|m0 [|m1 [|m2 [|m3 l]]]]|] eqn:E;
    try (right; left; split; reflexivity).
  unfold bind, timeNow, ret. destruct (script w) as [|[b|t|r|b] s]; auto.
  right; right. exists t, s. repeat split; reflexivity.
Qed.

(** *** Histories *)

Lemma active_app_true l h : active l = true -> active (l ++ h) = true.
Proof.
  induction l as [|c l IH]; simpl; [easy|].
  destruct c as [| | | |stamp line|stamp line| |]; auto. now destruct line.
Qed.

Lemma active_waited d waits h : Waited d waits -> active (waits ++ h) = active h.
Proof. induction 1; simpl; auto. Qed.

Lemma nofinal_waited d waits h : Waited d waits -> nofinal h -> nofinal (waits ++ h).
Proof. unfold nofinal. induction 1; simpl; auto. Qed.

Lemma nofinal_app l h : nofinal l -> nofinal h -> nofinal (l ++ h).
Proof. unfold nofinal. intros H1 H2. rewrite forallb_app. now rewrite H1, H2. Qed.

Lemma nofinal_cons c h : final c = false -> nofinal h -> nofinal (c :: h).
Proof. unfold nofinal. simpl. now intros -> ->. Qed.

Section Invariant.

Variable cfg : Config.
Variable session target : string.
Variable waitLabel : Z -> Z -> Z -> string.
Variable workerNum : Z.
Variable log : bool.

Local Abbreviation Inv := (Always cfg session target workerNum).
Local Abbreviation ok := (step_ok cfg session target workerNum).
Local Abbreviation Good := (History.Good cfg session target workerNum).
Local Abbreviation logged := (History.logged log).

Lemma active_armed base content wait t0 :
  Armed target base content wait t0 -> active base = true.
Proof. destruct 1. simpl. now apply active_app_true. Qed.

Lemma afterSend_waiting d waits base content wait t0 :
  Armed target base content wait t0 -> Waited d waits ->
  afterSend (waits ++ base) = false.
Proof. intros Ha Hw. destruct Hw; [now destruct Ha|reflexivity]. Qed.

(** A call that is neither a wait nor a keystroke. *)
Lemma ok_plain c h :
  nofinal h -> (active h = true -> quiet c = true) -> afterSend h = false ->
  match c with
  | CSendKeys _ _ | CSelect _ _ | CFprint _ _ => False
  | _ => True
  end ->
  ok c h.
Proof.
  intros Hn Hq Hs Hc. unfold step_ok. repeat split; auto.
  - rewrite Hs. discriminate.
  - now destruct c.
Qed.

Lemma waitUntil_good fuel : forall w waits base content wait t0,
  past w = waits ++ base ->
  Armed target base content wait t0 ->
  Waited (deadlineOf cfg t0 wait) waits ->
  Inv (past w) -> nofinal (past w) ->
  match waitUntil fuel (deadlineOf cfg t0 wait) w with
  | Ret false w' =>
      exists tk waits',
        past w' = CNow tk :: waits' ++ base
        /\ Waited (deadlineOf cfg t0 wait) waits'
        /\ Before tk (deadlineOf cfg t0 wait) = false
        /\ Inv (past w') /\ nofinal (past w')
  | Ret true w' => Good (Ret tt w')
  | Pending w' => Good (Pending w')
  end.
Proof.
  induction fuel as [|fuel IH]; intros w waits base content wait t0 Hp Ha Hw Hi Hn.
  - simpl. split; assumption.
  - cbn [waitUntil]. rewrite run_now.
    destruct (script w) as [|[b|t|r|b] s]; try (split; assumption).
    assert (Hact : active (past w) = true).
    { rewrite Hp, (active_waited _ _ _ Hw). eapply active_armed; eauto. }
    assert (H1 : Inv (CNow t :: past w)).
    { split; [|assumption]. apply ok_plain; auto.
      rewrite Hp. eapply afterSend_waiting; eauto. }
    assert (N1 : nofinal (CNow t :: past w)) by now apply nofinal_cons.
    destruct (Before t (deadlineOf cfg t0 wait)) eqn:B.
    + rewrite run_select. cbn [script past].
      destruct s as [|[b| | | ] s]; try (split; assumption).
      assert (H2 : Inv (CSelect (mul 5 Second) b :: CNow t :: past w)).
      { split; [|assumption]. unfold step_ok.
        split; [assumption|]. split; [intros _; reflexivity|].
        split; [discriminate|].
        intros _. exists content, wait, t0. rewrite Hp. now constructor. }
      destruct b.
      * unfold ret. split; [assumption|]. cbn [past]. eauto.
      * apply (IH _ (CSelect (mul 5 Second) false :: CNow t :: waits)
                 base content wait t0); cbn [past]; auto;
          try (now rewrite Hp); try (now constructor);
          try (now apply nofinal_cons).
    + unfold ret. exists t, waits. cbn [past]. rewrite Hp in *. auto.
Qed.

Lemma logged_eq t line h :
  (if log then [CFprint t line] else []) ++ CPrint t line :: CNow t :: h
  = logged t line ++ h.
Proof. unfold logged. now rewrite <- app_assoc. Qed.

Lemma logged_good t line h :
  Inv h -> nofinal h -> afterSend h = false ->
  (active h = true -> quiet (CPrint t line) = true) ->
  Inv (logged t line ++ h) /\ nofinal (logged t line ++ h)
  /\ forallb isLog (logged t line) = true
  /\ afterSend (logged t line ++ h) = false
  /\ active (logged t line ++ h) = active (CPrint t line :: h).
Proof.
  intros Hi Hn Hs Hq.
  assert (H1 : Inv (CNow t :: h)) by (split; [apply ok_plain|]; auto).
  assert (H2 : Inv (CPrint t line :: CNow t :: h)).
  { split; [apply ok_plain|]; auto; now apply nofinal_cons. }
  assert (N2 : nofinal (CPrint t line :: CNow t :: h))
    by (apply nofinal_cons; [easy|now apply nofinal_cons]).
  assert (A2 : active (CPrint t line :: CNow t :: h) = active (CPrint t line :: h))
    by now destruct line.
  unfold logged. destruct log; cbn [app].
  - split; [split; [|exact H2]|].
    { unfold step_ok. split; [assumption|]. split; [reflexivity|].
      split; [discriminate|]. eauto. }
    split; [now apply nofinal_cons|].
    split; [reflexivity|]. split; [reflexivity|exact A2].
  - split; [exact H2|]. split; [exact N2|].
    split; [reflexivity|]. split; [reflexivity|exact A2].
Qed.

Lemma watchLoop_good fuel : forall w,
  Inv (past w) -> nofinal (past w) ->
  active (past w) = false -> afterSend (past w) = false ->
  Good (watchLoop cfg session target waitLabel workerNum log fuel false w).
Proof.
  induction fuel as [|fuel IH]; intros w Hi Hn Hact Hs.
  - simpl. split; assumption.
  - cbn [watchLoop]. rewrite run_select.
    destruct (script w) as [|[b|t|r|b] s]; try (split; assumption).
    assert (H1 : Inv (CSelect (mul (MonitorInterval cfg) Second) b :: past w)).
    { split; [|assumption]. unfold step_ok. rewrite Hact, Hs.
      repeat split; auto; discriminate. }
    destruct b; [split; [assumption|unfold ret; cbn [past]; eauto]|].
    assert (N1 : nofinal (CSelect (mul (MonitorInterval cfg) Second) false :: past w))
      by now apply nofinal_cons.
    cbv beta iota. rewrite run_capture. cbn [script past].
    destruct s as [|[b|t|r|b] s]; try (split; assumption).
    match goal with |- context [CCapturePane target r :: ?h] =>
      assert (H2 : Inv (CCapturePane target r :: h))
    end.
    { split; [|assumption]. apply ok_plain; auto. simpl. rewrite Hact. discriminate. }
    destruct r as [content|]; [|split; [assumption|unfold ret; cbn [past]; eauto]].
    match goal with |- context [CCapturePane target (Some content) :: ?h] =>
      assert (N2 : nofinal (CCapturePane target (Some content) :: h))
        by now apply nofinal_cons
    end.
    cbv beta iota. cbn [negb andb]. destruct (HasError content) eqn:HE;
      [|apply IH; cbn [past]; auto].
    set (h1 := CSelect (mul (MonitorInterval cfg) Second) false :: past w) in *.
    assert (A1 : active h1 = false) by (subst h1; simpl; assumption).
    match goal with |- Good (bind (ExtractWaitSecsM content) ?K ?W) =>
      set (k := K); set (w2 := W)
    end.
    assert (Common : forall reads wait w3,
      Extracted content reads wait ->
      past w3 = reads ++ CCapturePane target (Some content) :: h1 ->
      Inv (past w3) -> nofinal (past w3) ->
      Good (k wait w3)).
    { intros reads wait w3 Hr Hp3 Hi3 Hn3.
      assert (A3 : active (past w3) = false)
        by (rewrite Hp3; destruct Hr; simpl; assumption).
      assert (S3 : afterSend (past w3) = false)
        by (rewrite Hp3; destruct Hr; reflexivity).
      subst k. cbv beta. rewrite run_logf.
      destruct (script w3) as [|[b|tl|r|b] s3]; try (split; assumption).
      rewrite logged_eq.
      match goal with |- context [logged tl ?L] =>
        remember L as line eqn:Hline
      end.
      destruct (logged_good tl line (past w3)) as (I4 & N4 & L4 & S4 & A4); auto;
        [rewrite A3; discriminate|].
      assert (A4' : active (logged tl line ++ past w3) = true)
        by (rewrite A4, Hline; reflexivity).
      rewrite run_call. cbn [script past].
      match goal with |- context [CSetLabel target ?L :: logged _ _ ++ _] =>
        generalize L; intros lbl
      end.
      assert (I5 : Inv (CSetLabel target lbl :: logged tl line ++ past w3)).
      { split; [apply ok_plain|]; auto. }
      assert (N5 : nofinal (CSetLabel target lbl :: logged tl line ++ past w3))
        by now apply nofinal_cons.
      rewrite run_now. cbn [script past].
      destruct s3 as [|[b|t0|r|b] s3]; try (split; assumption).
      set (base := CNow t0 :: CSetLabel target lbl :: logged tl line ++ past w3).
      assert (Hbase : Armed target base content wait t0).
      { subst base. rewrite Hp3. econstructor; eauto.
        rewrite Hline. unfold logged. now destruct log. }
      assert (I6 : Inv base).
      { split; [apply ok_plain|]; auto. }
      assert (N6 : nofinal base) by now apply nofinal_cons.
      unfold bind at 1.
      pose proof (waitUntil_good fuel {| script := s3; past := base |} []
                    base content wait t0
                    eq_refl Hbase (WaitedNil _) I6 N6) as HW.
      change (Add t0 (mul (add wait
                               (ResumeBufferSec cfg)) Second))
        with (deadlineOf cfg t0 wait).
      destruct (waitUntil fuel _ _) as [[|] w4|w4]; [exact HW| |exact HW].
      destruct HW as (tk & waits & Hp4 & Hw4 & Bk & I7 & N7).
      assert (A7 : active (past w4) = true).
      { rewrite Hp4. simpl. rewrite (active_waited _ _ _ Hw4).
        eapply active_armed; eauto. }
      rewrite run_session.
      destruct (script w4) as [|[b|t|r|b] s4]; try (split; assumption).
      assert (I8 : Inv (CHasSession session b :: past w4)).
      { split; [apply ok_plain|]; auto. now rewrite Hp4. }
      destruct b; cbn [negb]; cbv beta iota;
        [|split; [assumption|unfold ret; cbn [past]; eauto]].
      assert (N8 : nofinal (CHasSession session true :: past w4))
        by now apply nofinal_cons.
      rewrite run_logf. cbn [script past].
      destruct s4 as [|[b|ts|r|b] s4]; try (split; assumption).
      rewrite logged_eq.
      destruct (logged_good ts (ResumeLine workerNum (CLIType cfg))
                  (CHasSession session true :: past w4))
        as (I9 & N9 & L9 & S9 & A9); auto.
      rewrite !run_call. cbn [script past].
      apply IH; cbn [past]; try reflexivity.
      + split; [|split; [|exact I9]].
        * unfold step_ok. split; [now apply nofinal_cons|].
          split; [discriminate|]. now split.
        * unfold step_ok. split; [assumption|]. split; [reflexivity|].
          split; [rewrite S9; discriminate|].
          split; [reflexivity|]. split; [reflexivity|].
          exists content, wait, t0, tk.
          rewrite Hp4. now constructor.
      + apply nofinal_cons; [reflexivity|]. now apply nofinal_cons. }
    destruct (run_extract content k w2)
      as [E|[(Hrc & E)|(te & s' & Hrc & Hs' & E)]]; rewrite E.
    + split; assumption.
    + apply (Common [] _ w2); auto. now constructor.
    + apply (Common [CNow te]); cbn [past]; auto; [now constructor|].
      split; [apply ok_plain|]; auto; simpl; rewrite A1; discriminate.
Qed.

End Invariant.

Lemma Watch_good cfg session paneID workerNum log answers :
  Good cfg session paneID workerNum
    (Watch cfg session paneID workerNum log answers).
Proof. unfold Watch. now apply watchLoop_good. Qed.

Lemma WatchWindow_good cfg session windowID workerNum log answers :
  Good cfg session (session ++ ":" ++ windowID) workerNum
    (WatchWindow cfg session windowID workerNum log answers).
Proof. unfold WatchWindow. now apply watchLoop_good. Qed.

Lemma calls_split {A} (r : Res A) before c after :
  calls r = before ++ c :: after ->
  history r = rev after ++ c :: rev before.
Proof.
  unfold calls. intros H. apply (f_equal (@rev Call)) in H.
  rewrite rev_involutive in H. rewrite H, rev_app_distr. simpl.
  now rewrite <- app_assoc.
Qed.

Lemma Always_at cfg session target n later : forall c earlier,
  Always cfg session target n (later ++ c :: earlier) ->
  step_ok cfg session target n c earlier.
Proof.
  induction later as [|x later IH]; simpl; intros c earlier [H1 H2]; auto.
Qed.

Lemma nofinal_at later c earlier :
  nofinal (later ++ c :: earlier) -> final c = false.
Proof.
  unfold nofinal. rewrite forallb_app. simpl. intros H.
  apply andb_prop in H. destruct H as [_ H]. apply andb_prop in H.
  destruct H as [H _]. now apply negb_true_iff.
Qed.

(** A final call is the last call of a run, and the run has returned. *)
Lemma final_is_last cfg session target n r later c earlier :
  Good cfg session target n r ->
  history r = later ++ c :: earlier -> final c = true ->
  later = [] /\ returned r = true.
Proof.
  intros [Hi Hr] Hh Hc.
  assert (L : later = []).
  { destruct later as [|x later]; [easy|]. rewrite Hh in Hi.
    destruct Hi as [(Hn & _) _]. apply nofinal_at in Hn. congruence. }
  split; [assumption|]. subst later. destruct r as [a w|w]; [easy|].
  simpl in Hh. rewrite Hh in Hr. apply (nofinal_at []) in Hr. congruence.
Qed.

Lemma in_range_deadline cfg t0 wait tk :
  Before tk (deadlineOf cfg t0 wait) = false ->
  minInt <= (wait + ResumeBufferSec cfg) * 10 ^ 9 <= maxInt ->
  t0 + (wait + ResumeBufferSec cfg) * 10 ^ 9 <= tk.
Proof.
  unfold Before, deadlineOf, Add, add, mul. intros B H.
  apply Z.ltb_ge in B. change Second with (10 ^ 9) in B.
  assert (R : minInt <= wait + ResumeBufferSec cfg <= maxInt).
  { unfold minInt, maxInt in *. lia. }
  rewrite (wrap_small _ R) in B. now rewrite (wrap_small _ H) in B.
Qed.

Lemma Extracted_wait content reads wait :
  Extracted content reads wait -> exists te, wait = ExtractWaitSecs te content.
Proof.
  destruct 1 as [H|te H]; [|eauto]. exists 0.
  unfold ExtractWaitSecs, utcWait. unfold readsClock in H.
  now destruct (FindStringSubmatch 2 utcTimeRe content)
    as [[|m0 [|m1 [|m2 [|m3 l]]]]|].
Qed.

Lemma Cycle_wait cfg session target h content wait t0 tk :
  Cycle cfg session target h content wait t0 tk ->
  HasError content = true /\ exists te, wait = ExtractWaitSecs te content.
Proof. intros []. destruct H. split; [assumption|]. eapply Extracted_wait; eauto. Qed.

Lemma log_prefix_unique (l1 : list Call) : forall l2 a b r1 r2,
  forallb isLog l1 = true -> forallb isLog l2 = true ->
  isLog a = false -> isLog b = false ->
  l1 ++ a :: r1 = l2 ++ b :: r2 -> l1 = l2 /\ a = b /\ r1 = r2.
Proof.
  induction l1 as [|x l1 IH]; intros l2 a b r1 r2 H1 H2 Ha Hb E.
  - destruct l2 as [|y l2]; simpl in E.
    + now injection E as -> ->.
    + injection E as -> _. simpl in H2. apply andb_prop in H2. destruct H2.
      congruence.
  - destruct l2 as [|y l2]; simpl in E.
    + injection E as -> _. simpl in H1. apply andb_prop in H1. destruct H1.
      congruence.
    + injection E as -> E. simpl in H1, H2.
      apply andb_prop in H1. apply andb_prop in H2.
      destruct (IH l2 a b r1 r2) as (-> & -> & ->); tauto.
Qed.

Lemma waits_unique d waits : Waited d waits ->
  forall d' waits' t0 t0' a b a' b' r r',
  Waited d' waits' ->
  waits ++ CNow t0 :: CSetLabel a b :: r
  = waits' ++ CNow t0' :: CSetLabel a' b' :: r' ->
  waits = waits' /\ t0 = t0' /\ CSetLabel a b :: r = CSetLabel a' b' :: r'.
Proof.
  induction 1 as [|t h Hw IH B]; intros d' waits' t0 t0' a b a' b' r r' Hw' E.
  - destruct Hw' as [|t' h' Hw' B']; simpl in E.
    + injection E as -> -> -> ->. auto.
    + discriminate.
  - destruct Hw' as [|t' h' Hw' B']; simpl in E.
    + discriminate.
    + injection E as -> E.
      destruct (IH _ _ _ _ _ _ _ _ _ _ Hw' E) as (-> & -> & ->). auto.
Qed.

Lemma Extracted_reads content reads wait :
  Extracted content reads wait -> forallb isLog reads = true.
Proof. now destruct 1. Qed.

Lemma Extracted_unique content logs reads wait logs' reads' wait' :
  Extracted content reads wait -> Extracted content reads' wait' ->
  logs ++ reads = logs' ++ reads' -> wait = wait'.
Proof.
  intros [H|te H] [H'|te' H'] E; try congruence.
  apply app_inj_tail in E. destruct E as [_ E]. now injection E as ->.
Qed.

(** A history is armed in one way only: the content, the wait and the
    reading of the clock are determined by it. *)
Lemma Armed_unique target base content wait t0 content' wait' t0' :
  Armed target base content wait t0 -> Armed target base content' wait' t0' ->
  content = content' /\ wait = wait' /\ t0 = t0'.
Proof.
  intros H H'. remember base as base' eqn:Eb in H'.
  destruct H as [older content reads wait logs lbl t0 HE Hx Hl Ha].
  destruct H' as [older' content' reads' wait' logs' lbl' t0' HE' Hx' Hl' Ha'].
  injection Eb as -> <- E. rewrite !app_assoc in E.
  assert (L : forallb isLog (logs ++ reads) = true)
    by (rewrite forallb_app, Hl, (Extracted_reads _ _ _ Hx); reflexivity).
  assert (L' : forallb isLog (logs' ++ reads') = true)
    by (rewrite forallb_app, Hl', (Extracted_reads _ _ _ Hx'); reflexivity).
  destruct (log_prefix_unique (logs' ++ reads') (logs ++ reads)
              (CCapturePane target (Some content'))
              (CCapturePane target (Some content)) older' older
              L' L eq_refl eq_refl E) as (El & Ec & _).
  injection Ec as ->. split; [reflexivity|]. split; [|reflexivity].
  symmetry. eapply Extracted_unique; eauto.
Qed.

(** So is the cycle before a resume keystroke. *)
Lemma Cycle_unique cfg session target h content wait t0 tk content' wait' t0' tk' :
  Cycle cfg session target h content wait t0 tk ->
  Cycle cfg session target h content' wait' t0' tk' ->
  content = content' /\ wait = wait' /\ t0 = t0' /\ tk = tk'.
Proof.
  intros H H'. remember h as h' eqn:Eh in H'.
  destruct H as [base content wait t0 waits tk logs Ha Hw Hb Hl].
  destruct H' as [base' content' wait' t0' waits' tk' logs' Ha' Hw' Hb' Hl'].
  destruct (log_prefix_unique logs' logs (CHasSession session true)
              (CHasSession session true) _ _ Hl' Hl eq_refl eq_refl Eh)
    as (_ & _ & E).
  injection E as -> E.
  assert (Eb : base' = base).
  { destruct Ha as [older c reads w lg lbl u HE Hx Hlg Hact].
    destruct Ha' as [older' c' reads' w' lg' lbl' u' HE' Hx' Hlg' Hact'].
    destruct (waits_unique _ _ Hw' _ _ _ _ _ _ _ _ _ _ Hw E) as (_ & -> & ->).
    reflexivity. }
  subst base'.
  destruct (Armed_unique _ _ _ _ _ _ _ _ Ha Ha') as (-> & -> & ->). auto.
Qed.
(** C6.  When a select of a watchdog takes the [ctx.Done()] case, that is
    the last call the watchdog ever makes, so no keystroke follows it, and
    [Watch] has returned. *)
Theorem cancellation_is_final cfg session paneID workerNum log answers
    before timer after :
  calls (Watch cfg session paneID workerNum log answers)
    = before ++ CSelect timer true :: after ->
  after = [] /\ returned (Watch cfg session paneID workerNum log answers) = true.
Proof.
  intros H. apply calls_split in H.
  destruct (final_is_last _ _ _ _ _ _ _ _ (Watch_good _ _ _ _ _ _) H eq_refl)
    as [L R].
  split; [|assumption]. apply (f_equal (@rev Call)) in L.
  now rewrite rev_involutive in L.
Qed.

(** Before every resume keystroke of a watchdog lies one cycle: a capture
    whose content is an error, the wait extracted from that content (at
    the reading of the clock that the extraction took, when the text names
    a UTC time), a reading [t0] of the clock once the detection is logged
    and the wait label set, the turns of the wait loop, a reading [tk] not
    before the deadline, and a session found alive.  When
    (wait + ResumeBufferSec) seconds fit a Duration, that deadline is t0
    plus wait plus ResumeBufferSec seconds.  The history holds no other
    cycle: the content, the wait and the two readings are determined by
    it.  A session found gone is the last call of the watchdog, which
    returns. *)
Theorem resume_after_deadline cfg session paneID workerNum log answers
    before c after :
  calls (Watch cfg session paneID workerNum log answers)
    = before ++ c :: after ->
  (forall tgt keys, c = CSendKeys tgt keys ->
     exists content wait t0 tk,
       Cycle cfg session paneID (rev before) content wait t0 tk
       /\ HasError content = true
       /\ (exists te, wait = ExtractWaitSecs te content)
       /\ (minInt <= (wait + ResumeBufferSec cfg) * 10 ^ 9 <= maxInt ->
           t0 + (wait + ResumeBufferSec cfg) * 10 ^ 9 <= tk)
       /\ (forall content' wait' t0' tk',
             Cycle cfg session paneID (rev before) content' wait' t0' tk' ->
             content' = content /\ wait' = wait /\ t0' = t0 /\ tk' = tk))
  /\ (forall s, c = CHasSession s false ->
        after = []
        /\ returned (Watch cfg session paneID workerNum log answers) = true).
Proof.
  intros H. apply calls_split in H.
  pose proof (Watch_good cfg session paneID workerNum log answers) as G.
  split.
  - intros tgt keys ->. destruct G as [Hi _]. rewrite H in Hi.
    apply Always_at in Hi. destruct Hi as (_ & _ & _ & _ & _ & Hc).
    destruct Hc as (content & wait & t0 & tk & Hc).
    exists content, wait, t0, tk. split; [assumption|].
    destruct (Cycle_wait _ _ _ _ _ _ _ _ Hc) as [HE Hw].
    split; [assumption|]. split; [assumption|]. split.
    + destruct Hc. now apply in_range_deadline.
    + intros content' wait' t0' tk' Hc'.
      destruct (Cycle_unique _ _ _ _ _ _ _ _ _ _ _ _ Hc Hc') as (-> & -> & -> & ->).
      auto.
  - intros s ->.
    destruct (final_is_last _ _ _ _ _ _ _ _ G H eq_refl) as [L R].
    split; [|assumption]. apply (f_equal (@rev Call)) in L.
    now rewrite rev_involutive in L.
Qed.

(** C7.  While a detection is under way, that is from its detection line
    to the resume keystroke, a watchdog makes no capture, prints no second
    detection line and waits only in five-second turns; each such turn is
    taken because the clock read before the one deadline that was set from
    the reading [t0] and the wait of that detection; and a line goes to the
    log file only as the copy of the line printed just before. *)
Theorem one_detection_at_a_time cfg session paneID workerNum log answers
    before c after :
  calls (Watch cfg session paneID workerNum log answers)
    = before ++ c :: after ->
  active (rev before) = true ->
  quiet c = true
  /\ (forall timer done, c = CSelect timer done ->
        exists content wait t0,
          Ticking cfg paneID (rev before) content wait t0)
  /\ (forall stamp line, c = CFprint stamp line ->
        exists earlier, rev before = CPrint stamp line :: earlier).
Proof.
  intros H Ha. apply calls_split in H.
  destruct (Watch_good cfg session paneID workerNum log answers) as [Hi _].
  rewrite H in Hi. apply Always_at in Hi.
  destruct Hi as (_ & Hq & _ & Hc). split; [auto|]. split.
  - intros timer done ->. auto.
  - intros stamp line ->. exact Hc.
Qed.


End MonitorFacts.

(* ------------------------------------------------------------------ *)
(** ** Fuel *)

Module FuelFacts.
Import Go Regexp Time Usagelimit Config Monitor History.

(** *** The fuel of the two loops never runs out before the answers do *)

Lemma bind_cong {A B} (m : M A) (k1 k2 : A -> M B) w :
  (forall a w', m w = Ret a w' -> k1 a w' = k2 a w') ->
  bind m k1 w = bind m k2 w.
Proof. unfold bind. intros H. destruct (m w); auto. Qed.

Lemma bind_cong2 {A B} (m1 m2 : M A) (k1 k2 : A -> M B) w :
  m1 w = m2 w ->
  (forall a w', m1 w = Ret a w' -> k1 a w' = k2 a w') ->
  bind m1 k1 w = bind m2 k2 w.
Proof. unfold bind. intros <- H. destruct (m1 w); auto. Qed.

Lemma selectDone_len d w b w' :
  selectDone d w = Ret b w' ->
  S (List.length (script w')) = List.length (script w).
Proof.
  unfold selectDone. destruct (script w) as [|[]] eqn:E; try easy.
  intros H. injection H as <- <-. reflexivity.
Qed.

Lemma timeNow_len w t w' :
  timeNow w = Ret t w' -> S (List.length (script w')) = List.length (script w).
Proof.
  unfold timeNow. destruct (script w) as [|[]] eqn:E; try easy.
  intros H. injection H as <- <-. reflexivity.
Qed.

Lemma CapturePane_len tgt w r w' :
  CapturePane tgt w = Ret r w' ->
  S (List.length (script w')) = List.length (script w).
Proof.
  unfold CapturePane. destruct (script w) as [|[]] eqn:E; try easy.
  intros H. injection H as <- <-. reflexivity.
Qed.

Lemma HasSession_len ses w b w' :
  HasSession ses w = Ret b w' ->
  S (List.length (script w')) = List.length (script w).
Proof.
  unfold HasSession. destruct (script w) as [|[]] eqn:E; try easy.
  intros H. injection H as <- <-. reflexivity.
Qed.

Lemma call_len c w u w' :
  call c w = Ret u w' -> List.length (script w') = List.length (script w).
Proof. unfold call. intros H. injection H as <- <-. reflexivity. Qed.

Lemma logf_len log line w u w' :
  logf log line w = Ret u w' ->
  S (List.length (script w')) = List.length (script w).
Proof.
  unfold logf, bind, timeNow, call, ret.
  destruct (script w) as [|[]] eqn:E; try easy.
  destruct log; intros H; injection H as <- <-; reflexivity.
Qed.

Lemma ExtractWaitSecsM_len content w z w' :
  ExtractWaitSecsM content w = Ret z w' ->
  (List.length (script w') <= List.length (script w))%nat.
Proof.
  unfold ExtractWaitSecsM, bind, timeNow, ret.
  destruct (FindStringSubmatch 2 utcTimeRe content)
    as [[|m0 [|m1 [|m2 [|m3 l]]]]|];
    try (intros H; injection H as <- <-; lia).
  destruct (script w) as [|[]] eqn:E; try easy.
  intros H. injection H as <- <-. simpl. lia.
Qed.

Lemma waitUntil_len fuel : forall d w b w',
  waitUntil fuel d w = Ret b w' ->
  (List.length (script w') < List.length (script w))%nat.
Proof.
  induction fuel as [|fuel IH]; intros d w b w'; [easy|].
  cbn [waitUntil]. unfold bind at 1.
  destruct (timeNow w) as [t w1|] eqn:E1; [|easy]. apply timeNow_len in E1.
  destruct (Before t d).
  - unfold bind. destruct (selectDone _ w1) as [done w2|] eqn:E2; [|easy].
    apply selectDone_len in E2. destruct done.
    + intros H. injection H as <- <-. lia.
    + intros H. apply IH in H. lia.
  - intros H. injection H as <- <-. lia.
Qed.

Lemma waitUntil_fuel f1 : forall f2 d w,
  (List.length (script w) < f1)%nat -> (List.length (script w) < f2)%nat ->
  waitUntil f1 d w = waitUntil f2 d w.
Proof.
  induction f1 as [|f1 IH]; intros f2 d w H1 H2; [lia|].
  destruct f2 as [|f2]; [lia|]. cbn [waitUntil].
  apply bind_cong. intros t w1 E1. apply timeNow_len in E1.
  destruct (Before t d); [|reflexivity].
  apply bind_cong. intros done w2 E2. apply selectDone_len in E2.
  destruct done; [reflexivity|]. apply IH; lia.
Qed.

Section Fuel.

Variable cfg : Config.
Variable session target : string.
Variable waitLabel : Z -> Z -> Z -> string.
Variable workerNum : Z.
Variable log : bool.

Lemma watchLoop_fuel f1 : forall f2 detected w,
  (List.length (script w) < f1)%nat -> (List.length (script w) < f2)%nat ->
  watchLoop cfg session target waitLabel workerNum log f1 detected w =
  watchLoop cfg session target waitLabel workerNum log f2 detected w.
Proof.
  induction f1 as [|f1 IH]; intros f2 detected w H1 H2; [lia|].
  destruct f2 as [|f2]; [lia|]. cbn [watchLoop].
  apply bind_cong. intros done w1 E1. apply selectDone_len in E1.
  destruct done; [reflexivity|].
  apply bind_cong. intros r w2 E2. apply CapturePane_len in E2.
  destruct r as [content|]; [|reflexivity].
  destruct (negb detected && HasError content); [|apply IH; lia].
  apply bind_cong. intros waitSecs w3 E3. apply ExtractWaitSecsM_len in E3.
  cbv zeta.
  apply bind_cong. intros u4 w4 E4. apply logf_len in E4.
  apply bind_cong. intros u5 w5 E5. apply call_len in E5.
  apply bind_cong. intros now w6 E6. apply timeNow_len in E6.
  apply bind_cong2; [apply waitUntil_fuel; lia|].
  intros cancelled w7 E7. apply waitUntil_len in E7.
  destruct cancelled; [reflexivity|].
  apply bind_cong. intros alive w8 E8. apply HasSession_len in E8.
  destruct (negb alive); [reflexivity|].
  apply bind_cong. intros u9 w9 E9. apply logf_len in E9.
  apply bind_cong. intros u10 w10 E10. apply call_len in E10.
  apply bind_cong. intros u11 w11 E11. apply call_len in E11.
  apply IH; lia.
Qed.

End Fuel.

(** More fuel than [Watch] takes changes nothing: a run that is left
    pending waits for an answer, never for fuel. *)
Lemma Watch_fuel cfg session paneID workerNum log answers extra :
  watchLoop cfg session paneID
    (fun n h m => "worker-" ++ itoa n ++ " [wait " ++ itoa h ++ "h"
                    ++ itoa m ++ "m]")%string
    workerNum log (S (List.length answers) + extra) false
    {| script := answers; past := [] |}
  = Watch cfg session paneID workerNum log answers.
Proof. unfold Watch. apply watchLoop_fuel; simpl; lia. Qed.

End FuelFacts.

(* ------------------------------------------------------------------ *)
(** ** Scenarios of the watchdog *)

Module ScenarioFacts.
Import Go Regexp Time Usagelimit Config Monitor History Cmd Scenario.
Import MonitorFacts.
Local Open Scope string_scope.

(** The scenario of the specification: a wait of 30 seconds and a buffer
    of 120 put the deadline 150 seconds after the reading of the clock. *)
Lemma deadline_150_seconds (t0 : Time) :
  ExtractWaitSecs halfToTwo limitText = 30
  /\ deadlineOf (cfgOf "claude" "") t0 30 = t0 + 150 * 10 ^ 9.
Proof.
  split; [reflexivity|]. unfold deadlineOf, Add. f_equal.
Qed.

Lemma resume_after_deadline_example :
  exists content wait t0 tk,
    Cycle (cfgOf "claude" "") "claude-swarm" "%1"
      (rev (firstn 13 resumeCalls)) content wait t0 tk
    /\ HasError content = true
    /\ (exists te, wait = ExtractWaitSecs te content)
    /\ (minInt <= (wait + ResumeBufferSec (cfgOf "claude" "")) * 10 ^ 9
          <= maxInt ->
        t0 + (wait + ResumeBufferSec (cfgOf "claude" "")) * 10 ^ 9 <= tk)
    /\ (forall content' wait' t0' tk',
          Cycle (cfgOf "claude" "") "claude-swarm" "%1"
            (rev (firstn 13 resumeCalls)) content' wait' t0' tk' ->
          content' = content /\ wait' = wait /\ t0' = t0 /\ tk' = tk).
Proof.
  refine (proj1 (resume_after_deadline (cfgOf "claude" "") "claude-swarm"
                   "%1" 1 false resumeAnswers (firstn 13 resumeCalls)
                   (CSendKeys "%1" "claude --continue")
                   (skipn 14 resumeCalls) _) "%1" "claude --continue" eq_refl).
  vm_compute. reflexivity.
Defined.

(** C5 fails on the code when the wait is long.  With "in 3000000 hours"
    on the pane the wait is 10800000000 seconds; with the buffer that does
    not fit a Duration, [time.Duration(totalSecs) * time.Second] wraps
    around, the deadline lands in the past, and the keystroke is sent with
    the clock at 2000 ns, long before 1000 ns plus the wait plus the
    buffer. *)
Lemma resume_before_deadline_overflow :
  calls (Watch (cfgOf "claude" "") "claude-swarm" "%1" 1 false longAnswers)
  = [CSelect 30000000000 false; CCapturePane "%1" (Some longText);
     CNow 1000; CPrint 1000 (HitLine 1 3000000 2);
     CSetLabel "%1" "worker-1 [wait 3000000h2m]";
     CNow 1000; CNow 2000; CHasSession "claude-swarm" true;
     CNow 2000; CPrint 2000 (ResumeLine 1 "claude");
     CSendKeys "%1" "claude --continue"; CSetLabel "%1" "worker-1"]
  /\ HasError longText = true
  /\ ExtractWaitSecs 1000 longText = 10800000000
  /\ 2000 < 1000 + (10800000000 + ResumeBufferSec (cfgOf "claude" "")) * 10 ^ 9.
Proof. repeat split; vm_compute; reflexivity. Qed.

Lemma cancellation_is_final_example :
  @nil Call = []
  /\ returned (Watch (cfgOf "claude" "") "claude-swarm" "%1" 1 false
                cancelAnswers) = true.
Proof.
  apply (cancellation_is_final (cfgOf "claude" "") "claude-swarm" "%1" 1 false
           cancelAnswers (firstn 8 cancelCalls) (5 * 10 ^ 9) []).
  vm_compute. reflexivity.
Defined.

Lemma one_detection_at_a_time_example :
  quiet (CSelect (5 * 10 ^ 9) false) = true
  /\ (forall timer done,
        CSelect (5 * 10 ^ 9) false = CSelect timer done ->
        exists content wait t0,
          Ticking (cfgOf "claude" "") "%1" (rev (firstn 8 resumeCalls))
            content wait t0)
  /\ (forall stamp line,
        CSelect (5 * 10 ^ 9) false = CFprint stamp line ->
        exists earlier,
          rev (firstn 8 resumeCalls) = CPrint stamp line :: earlier).
Proof.
  apply (one_detection_at_a_time (cfgOf "claude" "") "claude-swarm" "%1" 1
           false resumeAnswers (firstn 8 resumeCalls)
           (CSelect (5 * 10 ^ 9) false) (skipn 9 resumeCalls)).
  - vm_compute. reflexivity.
  - reflexivity.
Defined.


End ScenarioFacts.

(* ------------------------------------------------------------------ *)
(** ** Workers: names, commands and the worker list *)

Module WorkerFacts.
Import Go Config Strings Cmd CmdFacts.
Local Open Scope string_scope.

(** *** Strings *)

Lemma prefix_one c a s :
  prefix (String c "") (String a s) = Ascii.eqb c a.
Proof.
  simpl. destruct (ascii_dec c a) as [->|N].
  - rewrite Ascii.eqb_refl. now destruct s.
  - symmetry. now apply Ascii.eqb_neq.
Qed.

(** Where the first occurrence of a byte is. *)
Lemma index_nil c : index 0 (String c "") "" = None.
Proof. reflexivity. Qed.

Lemma index_cons c a s :
  index 0 (String c "") (String a s) =
  if Ascii.eqb c a then Some 0%nat
  else match index 0 (String c "") s with
       | Some n => Some (S n)
       | None => None
       end.
Proof. cbn [index]. now rewrite prefix_one. Qed.

Lemma index_app_absent c s t :
  index 0 (String c "") s = None ->
  index 0 (String c "") (s ++ String c t) = Some (String.length s).
Proof.
  induction s as [|a s IH]; intros H.
  - cbn [append]. now rewrite index_cons, Ascii.eqb_refl.
  - rewrite index_cons in H. cbn [append String.length]. rewrite index_cons.
    destruct (Ascii.eqb c a); [discriminate|].
    destruct (index 0 (String c "") s); [discriminate|].
    now rewrite IH.
Qed.

Lemma index_app_none c s t :
  index 0 (String c "") s = None -> index 0 (String c "") t = None ->
  index 0 (String c "") (s ++ t) = None.
Proof.
  induction s as [|a s IH]; intros H1 H2; [assumption|].
  rewrite index_cons in H1. cbn [append]. rewrite index_cons.
  destruct (Ascii.eqb c a); [discriminate|].
  destruct (index 0 (String c "") s); [discriminate|].
  now rewrite IH.
Qed.

Lemma index_app_inv c s t :
  index 0 (String c "") (s ++ t) = None ->
  index 0 (String c "") s = None /\ index 0 (String c "") t = None.
Proof.
  induction s as [|a s IH]; intros H; [now split|].
  cbn [append] in H. rewrite index_cons in *.
  destruct (Ascii.eqb c a); [discriminate|].
  destruct (index 0 (String c "") (s ++ t)) eqn:E; [discriminate|].
  destruct (IH eq_refl) as [-> ->]. now split.
Qed.

Lemma substring_prefix s t :
  substring 0 (String.length s) (s ++ t) = s.
Proof. induction s as [|a s IH]; simpl; [now destruct t|now rewrite IH]. Qed.

Lemma substring_all s : substring 0 (String.length s) s = s.
Proof. induction s as [|a s IH]; simpl; [reflexivity|now rewrite IH]. Qed.

Lemma substring_suffix s t :
  substring (String.length s) (String.length t) (s ++ t) = t.
Proof. induction s as [|a s IH]; simpl; [apply substring_all|exact IH]. Qed.

Lemma length_append s t :
  String.length (s ++ t) = (String.length s + String.length t)%nat.
Proof. induction s as [|a s IH]; simpl; [reflexivity|now rewrite IH]. Qed.

Lemma append_nil_r s : s ++ "" = s.
Proof. induction s as [|a s IH]; simpl; [reflexivity|now rewrite IH]. Qed.

Lemma append_assoc s t u : (s ++ t) ++ u = s ++ t ++ u.
Proof. induction s as [|a s IH]; simpl; [reflexivity|now rewrite IH]. Qed.

Lemma prefix_append s t : prefix s (s ++ t) = true.
Proof.
  induction s as [|a s IH]; simpl; [now destruct t|].
  destruct (ascii_dec a a); [assumption|congruence].
Qed.

Lemma append_cancel_l s t u : s ++ t = s ++ u -> t = u.
Proof. induction s as [|a s IH]; simpl; [easy|]. intros H. injection H. auto. Qed.

(** *** parseWorker *)

(** The two cases of [parseWorker], by where the first colon is. *)
Lemma parseWorker_plain s :
  index 0 ":" s = None -> parseWorker s = (s, "").
Proof. unfold parseWorker. now intros ->. Qed.

Lemma parseWorker_colon name model :
  index 0 ":" name = None ->
  parseWorker (name ++ ":" ++ model) = (name, model).
Proof.
  intros H. unfold parseWorker. cbn [append].
  rewrite (index_app_absent _ _ model H).
  rewrite substring_prefix. f_equal.
  replace (String.length (name ++ String ":" model) - (String.length name + 1))%nat
    with (String.length model)
    by (rewrite length_append; simpl; lia).
  replace (name ++ String ":" model) with ((name ++ ":") ++ model)
    by (now rewrite append_assoc).
  replace (String.length name + 1)%nat with (String.length (name ++ ":"))
    by (rewrite length_append; reflexivity).
  apply substring_suffix.
Qed.

(** Every string is a name without a colon, alone or followed by a colon
    and the rest. *)
Lemma colon_split s :
  index 0 ":" s = None
  \/ exists name model, index 0 ":" name = None /\ s = name ++ ":" ++ model.
Proof.
  induction s as [|a s IH]; [now left|].
  rewrite index_cons. destruct (Ascii.eqb ":" a) eqn:E.
  - right. apply Ascii.eqb_eq in E. subst a. now exists "", s.
  - destruct IH as [->|(name & model & Hn & ->)]; [now left|right].
    exists (String a name), model. rewrite index_cons, E, Hn. now split.
Qed.

(** What [parseWorker] returns puts the worker together again, and the
    name holds no colon. *)
Theorem parseWorker_splits_at_first_colon s :
  let (cliName, model) := parseWorker s in
  index 0 ":" cliName = None
  /\ (s = cliName /\ model = "" /\ index 0 ":" s = None
      \/ s = cliName ++ ":" ++ model).
Proof.
  destruct (colon_split s) as [H|(name & model & Hn & ->)].
  - rewrite (parseWorker_plain _ H). split; [assumption|]. now left.
  - rewrite (parseWorker_colon _ model Hn). split; [assumption|]. now right.
Qed.

(** A name without a colon and a model, joined by a colon, parse back into
    the two, whatever the model holds (further colons included). *)
Theorem parseWorker_of_join name model :
  index 0 ":" name = None ->
  parseWorker (name ++ ":" ++ model) = (name, model).
Proof. apply parseWorker_colon. Qed.

Lemma parseWorker_of_join_example :
  index 0 ":" "gemini" = None
  /\ parseWorker ("gemini" ++ ":" ++ "flash:exp") = ("gemini", "flash:exp").
Proof.
  split; [reflexivity|]. apply (parseWorker_of_join "gemini" "flash:exp").
  reflexivity.
Defined.

(** *** cliCmdFor *)

(** The command of a worker starts with the CLI name of the worker. *)
Theorem cliCmdFor_starts_with_name cfg worker :
  prefix (fst (parseWorker worker)) (cliCmdFor cfg worker) = true.
Proof.
  unfold cliCmdFor. destruct (parseWorker worker) as [cliName model]. simpl.
  destruct (String.eqb model ""), (String.eqb (CLIFlags cfg) "");
    rewrite ?append_assoc; try apply prefix_append.
  rewrite <- (append_nil_r cliName) at 2. apply prefix_append.
Qed.

(** For a worker with a model, the command is the name, the model after
    " --model " unless the model is empty, and the flags of the
    configuration after a space unless they are empty. *)
Theorem cliCmdFor_of_variant cfg name model :
  index 0 ":" name = None ->
  cliCmdFor cfg (name ++ ":" ++ model) =
  name ++ (if String.eqb model "" then "" else " --model " ++ model)
       ++ (if String.eqb (CLIFlags cfg) "" then "" else " " ++ CLIFlags cfg).
Proof.
  intros H. unfold cliCmdFor. rewrite (parseWorker_colon _ model H).
  destruct (String.eqb model ""), (String.eqb (CLIFlags cfg) "");
    cbn [append]; rewrite ?append_assoc, ?append_nil_r; reflexivity.
Qed.

Lemma cliCmdFor_of_variant_example :
  index 0 ":" "gemini" = None
  /\ cliCmdFor (Scenario.cfgOf "gemini:gemini-2.0-flash" "--yolo")
       ("gemini" ++ ":" ++ "gemini-2.0-flash")
     = "gemini --model gemini-2.0-flash --yolo".
Proof.
  split; [reflexivity|].
  apply (cliCmdFor_of_variant
           (Scenario.cfgOf "gemini:gemini-2.0-flash" "--yolo")
           "gemini" "gemini-2.0-flash").
  reflexivity.
Defined.

(** *** Split and Join *)

Lemma Split_absent sep t :
  index 0 (String sep "") t = None -> Split t sep = [t].
Proof.
  induction t as [|a t IH]; [reflexivity|]. rewrite index_cons. cbn [Split].
  rewrite (Ascii.eqb_sym a sep). destruct (Ascii.eqb sep a); [easy|].
  destruct (index 0 (String sep "") t); [easy|].
  intros _. now rewrite IH.
Qed.

Lemma Split_app sep t s :
  index 0 (String sep "") t = None ->
  Split (t ++ String sep s) sep = t :: Split s sep.
Proof.
  induction t as [|a t IH].
  - intros _. cbn [append Split]. now rewrite Ascii.eqb_refl.
  - rewrite index_cons. cbn [append Split]. rewrite (Ascii.eqb_sym a sep).
    destruct (Ascii.eqb sep a); [easy|].
    destruct (index 0 (String sep "") t); [easy|].
    intros _. now rewrite IH.
Qed.

Lemma Split_Join sep t ts :
  Forall (fun t => index 0 (String sep "") t = None) (t :: ts) ->
  Split (Join (t :: ts) (String sep "")) sep = t :: ts.
Proof.
  revert t. induction ts as [|u ts IH]; intros t H.
  - apply Split_absent. now inversion H.
  - inversion H as [|? ? Ht Hts]; subst. unfold Join in *.
    cbn [String.concat]. cbn [append]. rewrite Split_app by assumption.
    f_equal. now apply IH.
Qed.

Lemma Split_pieces sep s :
  Forall (fun p => index 0 (String sep "") p = None) (Split s sep).
Proof.
  induction s as [|a s IH]; [repeat constructor|]. cbn [Split].
  destruct (Ascii.eqb a sep) eqn:E; [constructor; [reflexivity|assumption]|].
  destruct (Split s sep) as [|p ps].
  - repeat constructor. rewrite index_cons. now rewrite (Ascii.eqb_sym sep a), E.
  - inversion IH as [|? ? Hp Hps]; subst. constructor; [|assumption].
    rewrite index_cons, (Ascii.eqb_sym sep a), E. now rewrite Hp.
Qed.

(** *** TrimSpace *)

Lemma index_absent_iff c s :
  index 0 (String c "") s = None <-> ~ In c (list_ascii_of_string s).
Proof.
  induction s as [|a s IH]; [simpl; tauto|]. rewrite index_cons. simpl.
  destruct (Ascii.eqb c a) eqn:E.
  - apply Ascii.eqb_eq in E. subst. split; [discriminate|]. intros H.
    destruct H. now left.
  - apply Ascii.eqb_neq in E. destruct (index 0 (String c "") s).
    + split; [discriminate|]. intros H. exfalso. apply H. right.
      destruct (in_dec ascii_dec c (list_ascii_of_string s)) as [i|ni];
        [exact i|]. apply IH in ni. discriminate.
    + split; [|reflexivity]. intros _ [H|H]; [congruence|]. now apply IH.
Qed.

Lemma stripPrefix_Some tok : forall s s',
  stripPrefix tok s = Some s' -> s = (tok ++ s')%list.
Proof.
  induction tok as [|a tok IH]; intros [|b s] s' H; simpl in H;
    try discriminate; try (now injection H as <-).
  destruct (Ascii.eqb a b) eqn:E; [|discriminate].
  apply Ascii.eqb_eq in E. subst. simpl. f_equal. now apply IH.
Qed.

Lemma stripPrefix_app tok s : stripPrefix tok (tok ++ s)%list = Some s.
Proof.
  induction tok as [|a tok IH]; [now destruct s|]. simpl.
  now rewrite Ascii.eqb_refl.
Qed.

Lemma dropSpace_Some toks s s' :
  dropSpace toks s = Some s' ->
  exists tok, In tok toks /\ s = (tok ++ s')%list.
Proof.
  induction toks as [|tok toks IH]; simpl; [discriminate|].
  destruct (stripPrefix tok s) as [x|] eqn:E.
  - intros H. injection H as <-. exists tok. split; [now left|].
    now apply stripPrefix_Some.
  - intros H. destruct (IH H) as (t & Hin & Hs). exists t. split; [now right|easy].
Qed.

Lemma dropSpace_None toks s tok :
  dropSpace toks s = None -> In tok toks -> stripPrefix tok s = None.
Proof.
  induction toks as [|t toks IH]; simpl; [easy|].
  destruct (stripPrefix t s) eqn:E; [discriminate|].
  intros H [<-|Hin]; auto.
Qed.

Lemma dropSpace_prefix toks s x :
  dropSpace toks (s ++ x)%list = None -> Forall (fun tok => tok <> []) toks ->
  dropSpace toks s = None.
Proof.
  intros H Hne. destruct (dropSpace toks s) as [s'|] eqn:E; [|reflexivity].
  destruct (dropSpace_Some _ _ _ E) as (tok & Hin & ->).
  pose proof (dropSpace_None _ _ _ H Hin) as N.
  rewrite <- app_assoc, stripPrefix_app in N. discriminate.
Qed.

Lemma trimLeft_suffix toks fuel : forall s,
  exists pre, s = (pre ++ trimLeft toks fuel s)%list.
Proof.
  induction fuel as [|fuel IH]; intros s; [now exists []|]. simpl.
  destruct (dropSpace toks s) as [s'|] eqn:E; [|now exists []].
  destruct (dropSpace_Some _ _ _ E) as (tok & _ & ->).
  destruct (IH s') as (pre & Hp). exists (tok ++ pre)%list.
  rewrite <- app_assoc. now rewrite <- Hp.
Qed.

Lemma trimLeft_done toks fuel : forall s,
  Forall (fun tok => tok <> []) toks -> (List.length s <= fuel)%nat ->
  dropSpace toks (trimLeft toks fuel s) = None.
Proof.
  induction fuel as [|fuel IH]; intros s Hne Hl.
  - destruct s; [|simpl in Hl; lia]. simpl.
    destruct (dropSpace toks []) eqn:E; [|reflexivity].
    destruct (dropSpace_Some _ _ _ E) as (tok & Hin & Hs).
    symmetry in Hs. apply app_eq_nil in Hs. destruct Hs as [-> _].
    rewrite Forall_forall in Hne. now destruct (Hne _ Hin).
  - simpl. destruct (dropSpace toks s) as [s'|] eqn:E; [|assumption].
    apply IH; [assumption|]. destruct (dropSpace_Some _ _ _ E) as (tok & Hin & ->).
    rewrite Forall_forall in Hne. specialize (Hne _ Hin).
    rewrite length_app in Hl. destruct tok; [easy|]. simpl in Hl. lia.
Qed.

Lemma trimLeft_fixed toks fuel s :
  dropSpace toks s = None -> trimLeft toks fuel s = s.
Proof. destruct fuel; simpl; [easy|]. now intros ->. Qed.

Lemma spaceRunes_nonempty : Forall (fun tok => tok <> []) spaceRunes.
Proof. repeat constructor; discriminate. Qed.

Lemma rev_spaceRunes_nonempty :
  Forall (fun tok : list ascii => tok <> []) (map (@rev ascii) spaceRunes).
Proof. repeat constructor; discriminate. Qed.

(** What [TrimSpace] returns is a piece of its argument that neither starts
    nor ends with a white-space rune. *)
Lemma TrimSpace_spec s :
  exists pre post,
    list_ascii_of_string s =
      (pre ++ list_ascii_of_string (TrimSpace s) ++ post)%list
    /\ dropSpace spaceRunes (list_ascii_of_string (TrimSpace s)) = None
    /\ dropSpace (map (@rev ascii) spaceRunes)
         (rev (list_ascii_of_string (TrimSpace s))) = None.
Proof.
  unfold TrimSpace. set (b := list_ascii_of_string s).
  set (l := trimLeft spaceRunes (List.length b) b).
  set (r := trimLeft (map (@rev ascii) spaceRunes) (List.length l) (rev l)).
  rewrite list_ascii_of_string_of_list_ascii.
  destruct (trimLeft_suffix spaceRunes (List.length b) b) as (pre & Hpre).
  destruct (trimLeft_suffix (map (@rev ascii) spaceRunes) (List.length l) (rev l))
    as (post & Hpost).
  fold l in Hpre. fold r in Hpost.
  assert (Hl : l = (rev r ++ rev post)%list).
  { rewrite <- rev_app_distr, <- Hpost. now rewrite rev_involutive. }
  exists pre, (rev post). split; [now rewrite <- Hl|].
  split.
  - apply dropSpace_prefix with (x := rev post); [|apply spaceRunes_nonempty].
    rewrite <- Hl. apply trimLeft_done; [apply spaceRunes_nonempty|subst l; lia].
  - rewrite rev_involutive. apply trimLeft_done;
      [apply rev_spaceRunes_nonempty|now rewrite length_rev].
Qed.

Lemma TrimSpace_fixed b :
  dropSpace spaceRunes b = None ->
  dropSpace (map (@rev ascii) spaceRunes) (rev b) = None ->
  TrimSpace (string_of_list_ascii b) = string_of_list_ascii b.
Proof.
  intros H1 H2. unfold TrimSpace. rewrite list_ascii_of_string_of_list_ascii.
  rewrite (trimLeft_fixed _ _ _ H1), (trimLeft_fixed _ _ _ H2).
  now rewrite rev_involutive.
Qed.

Lemma TrimSpace_idempotent s : TrimSpace (TrimSpace s) = TrimSpace s.
Proof.
  destruct (TrimSpace_spec s) as (pre & post & _ & H1 & H2).
  pose proof (TrimSpace_fixed _ H1 H2) as F.
  now rewrite string_of_list_ascii_of_string in F.
Qed.

Lemma TrimSpace_absent c s :
  index 0 (String c "") s = None -> index 0 (String c "") (TrimSpace s) = None.
Proof.
  rewrite !index_absent_iff. intros H Hin. apply H.
  destruct (TrimSpace_spec s) as (pre & post & -> & _).
  apply in_or_app. right. apply in_or_app. now left.
Qed.

(** *** parseCLITypes *)

Lemma parseCLITypes_loop parts : forall acc,
  fold_left
    (fun cliTypes p =>
       let trimmed := TrimSpace p in
       if negb (String.eqb trimmed "") then (cliTypes ++ [trimmed])%list
       else cliTypes)
    parts acc
  = (acc ++ filter (fun t => negb (String.eqb t "")) (map TrimSpace parts))%list.
Proof.
  induction parts as [|p parts IH]; intros acc; simpl; [now rewrite app_nil_r|].
  rewrite IH. destruct (String.eqb (TrimSpace p) ""); simpl; [reflexivity|].
  now rewrite <- app_assoc.
Qed.

Lemma parseCLITypes_filter raw :
  parseCLITypes raw =
  filter (fun t => negb (String.eqb t "")) (map TrimSpace (Split raw ",")).
Proof. unfold parseCLITypes. now rewrite parseCLITypes_loop. Qed.

(** An entry as [parseCLITypes] yields them: not empty, without a comma,
    and without white space at either end. *)
Local Abbreviation entry :=
  (fun t : string => t <> "" /\ index 0 "," t = None /\ TrimSpace t = t).

Lemma parseCLITypes_entry raw t : In t (parseCLITypes raw) -> entry t.
Proof.
  rewrite parseCLITypes_filter. intros H. apply filter_In in H.
  destruct H as [H Hne]. apply in_map_iff in H. destruct H as (p & <- & Hp).
  split; [|split].
  - apply negb_true_iff in Hne. now apply String.eqb_neq.
  - apply TrimSpace_absent. pose proof (Split_pieces "," raw) as F.
    rewrite Forall_forall in F. now apply F.
  - apply TrimSpace_idempotent.
Qed.

Lemma parseCLITypes_Join_entries ts :
  Forall entry ts -> parseCLITypes (Join ts ",") = ts.
Proof.
  intros H. rewrite parseCLITypes_filter. destruct ts as [|t ts]; [reflexivity|].
  rewrite Split_Join by (eapply Forall_impl; [|exact H]; now intros a (_ & Ha & _)).
  induction H as [|u us (Hne & _ & Ht) _ IH]; [reflexivity|].
  cbn [map filter]. rewrite Ht. apply String.eqb_neq in Hne. rewrite Hne.
  cbn [negb]. now rewrite IH.
Qed.

(** Every entry of the list that [parseCLITypes] returns is non-empty, holds
    no comma, and is its own [TrimSpace]. *)
Theorem parseCLITypes_entries raw :
  Forall (fun t => t <> "" /\ index 0 "," t = None /\ TrimSpace t = t)
         (parseCLITypes raw).
Proof. apply Forall_forall. intros t. apply parseCLITypes_entry. Qed.

(** Entries of that kind, joined by commas, parse back into themselves. *)
Theorem parseCLITypes_of_Join ts :
  Forall (fun t => t <> "" /\ index 0 "," t = None /\ TrimSpace t = t) ts ->
  parseCLITypes (Join ts ",") = ts.
Proof. apply parseCLITypes_Join_entries. Qed.

Lemma parseCLITypes_of_Join_example :
  Forall (fun t => t <> "" /\ index 0 "," t = None /\ TrimSpace t = t)
         ["claude"; "gemini:gemini-2.0-flash"]
  /\ parseCLITypes (Join ["claude"; "gemini:gemini-2.0-flash"] ",")
     = ["claude"; "gemini:gemini-2.0-flash"].
Proof.
  assert (H : Forall (fun t => t <> "" /\ index 0 "," t = None /\ TrimSpace t = t)
                ["claude"; "gemini:gemini-2.0-flash"]).
  { repeat constructor; discriminate. }
  split; [exact H|]. exact (parseCLITypes_of_Join _ H).
Defined.

(** Parsing is a projection: the list it returns, joined by commas, parses
    into the same list. *)
Theorem parseCLITypes_reparse raw :
  parseCLITypes (Join (parseCLITypes raw) ",") = parseCLITypes raw.
Proof.
  apply parseCLITypes_Join_entries. apply Forall_forall. intros t.
  apply parseCLITypes_entry.
Qed.

(** *** buildWorkers *)

Lemma setAt_Some ws : forall i v,
  (i < List.length ws)%nat ->
  exists ws', setAt ws i v = Some ws'
    /\ List.length ws' = List.length ws
    /\ nth_error ws' i = Some v
    /\ forall j, j <> i -> nth_error ws' j = nth_error ws j.
Proof.
  induction ws as [|w ws IH]; intros i v Hi; [simpl in Hi; lia|].
  destruct i as [|i]; simpl.
  - eexists. split; [reflexivity|]. split; [reflexivity|]. split; [reflexivity|].
    intros [|j] Hj; [easy|reflexivity].
  - destruct (IH i v) as (ws' & -> & Hl & Hn & Ho); [simpl in Hi; lia|].
    eexists. split; [reflexivity|]. simpl. split; [now rewrite Hl|].
    split; [assumption|]. intros [|j] Hj; [reflexivity|]. simpl. apply Ho. lia.
Qed.

Lemma rem_of_nat k n :
  n <> 0%nat -> Z.to_nat (Z.rem (Z.of_nat k) (Z.of_nat n)) = (k mod n)%nat.
Proof.
  intros Hn. rewrite Z.rem_mod_nonneg by lia.
  rewrite <- Nat2Z.inj_mod. apply Nat2Z.id.
Qed.

(** The loop of [buildWorkers] after [k] turns, with [count] turns to go. *)
Lemma fillWorkers_spec cliTypes : cliTypes <> [] -> forall count k ws,
  List.length ws = (k + count)%nat ->
  exists ws', fillWorkers cliTypes count (Z.of_nat k) ws = Some ws'
    /\ List.length ws' = List.length ws
    /\ (forall j, (j < k)%nat -> nth_error ws' j = nth_error ws j)
    /\ (forall j, (k <= j < k + count)%nat ->
          nth_error ws' j = nth_error cliTypes (j mod List.length cliTypes)).
Proof.
  intros Hne. assert (Hlen : List.length cliTypes <> 0%nat) by now destruct cliTypes.
  induction count as [|count IH]; intros k ws Hl.
  - exists ws. simpl. repeat split; auto. intros j Hj. lia.
  - cbn [fillWorkers].
    destruct (Z.eqb_spec (Z.of_nat (List.length cliTypes)) 0) as [E|_]; [lia|].
    rewrite rem_of_nat by assumption.
    destruct (nth_error cliTypes (k mod List.length cliTypes)) as [c|] eqn:Ec.
    2:{ apply nth_error_None in Ec.
        pose proof (Nat.mod_upper_bound k _ Hlen). lia. }
    rewrite Nat2Z.id.
    destruct (setAt_Some ws k c) as (ws1 & -> & Hl1 & Hk & Ho); [lia|].
    replace (Z.of_nat k + 1) with (Z.of_nat (S k)) by lia.
    destruct (IH (S k) ws1) as (ws' & -> & Hl' & Hlow & Hhigh); [lia|].
    exists ws'. split; [reflexivity|]. split; [congruence|]. split.
    + intros j Hj. rewrite Hlow by lia. apply Ho. lia.
    + intros j Hj. destruct (Nat.eq_dec j k) as [->|Hjk].
      * rewrite Hlow by lia. congruence.
      * apply Hhigh. lia.
Qed.

Lemma makeStrings_Returns maxAlloc hasMemory len :
  0 <= len -> 16 * len < 2 ^ 64 -> 16 * len <= maxAlloc ->
  hasMemory (16 * len) = true ->
  makeStrings maxAlloc hasMemory len = Returns (repeat "" (Z.to_nat len)).
Proof.
  intros H0 H1 H2 H3. unfold makeStrings.
  destruct (Z.ltb_spec len 0); [lia|].
  destruct (Z.leb_spec (2 ^ 64) (16 * len)); [lia|].
  destruct (Z.ltb_spec maxAlloc (16 * len)); [lia|]. cbn [orb].
  now rewrite H3.
Qed.

Lemma buildWorkers_Returns maxAlloc hasMemory cfg :
  0 <= Num cfg -> 16 * Num cfg < 2 ^ 64 -> 16 * Num cfg <= maxAlloc ->
  hasMemory (16 * Num cfg) = true ->
  parseCLITypes (CLIType cfg) <> [] ->
  exists workers,
    buildWorkers maxAlloc hasMemory cfg = Returns workers
    /\ List.length workers = Z.to_nat (Num cfg)
    /\ forall i, (i < Z.to_nat (Num cfg))%nat ->
         nth_error workers i =
         nth_error (parseCLITypes (CLIType cfg))
                   (i mod List.length (parseCLITypes (CLIType cfg))).
Proof.
  intros Hn H1 H2 H3 Hne. unfold buildWorkers.
  rewrite makeStrings_Returns by assumption.
  destruct (fillWorkers_spec _ Hne (Z.to_nat (Num cfg)) 0
              (repeat "" (Z.to_nat (Num cfg))))
    as (ws' & E & Hl & _ & H); [now rewrite repeat_length|].
  exists ws'. change (Z.of_nat 0) with 0 in E. rewrite E.
  split; [reflexivity|].
  split; [now rewrite Hl, repeat_length|]. intros i Hi. apply H. lia.
Qed.

(** When [make] gets its slice, that is with a count that is not negative,
    whose 16 bytes a worker neither overflow a uintptr nor exceed the
    runtime's [maxAlloc], and with that memory at hand, and with at least
    one CLI type, [buildWorkers] returns that many workers, the CLI types
    dealt out in turn: worker i is type i modulo the number of types. *)
Theorem buildWorkers_round_robin maxAlloc hasMemory cfg :
  0 <= Num cfg -> 16 * Num cfg < 2 ^ 64 -> 16 * Num cfg <= maxAlloc ->
  hasMemory (16 * Num cfg) = true ->
  parseCLITypes (CLIType cfg) <> [] ->
  exists workers,
    buildWorkers maxAlloc hasMemory cfg = Returns workers
    /\ List.length workers = Z.to_nat (Num cfg)
    /\ forall i, (i < Z.to_nat (Num cfg))%nat ->
         nth_error workers i =
         nth_error (parseCLITypes (CLIType cfg))
                   (i mod List.length (parseCLITypes (CLIType cfg))).
Proof. apply buildWorkers_Returns. Qed.

Lemma buildWorkers_round_robin_example :
  (0 <= 4 /\ 16 * 4 < 2 ^ 64 /\ 16 * 4 <= 2 ^ 48
   /\ Scenario.plenty (16 * 4) = true
   /\ parseCLITypes "claude, gemini" <> [])
  /\ exists workers,
       buildWorkers (2 ^ 48) Scenario.plenty
         (Scenario.cfgOf "claude, gemini" "")
         = Returns workers
       /\ List.length workers = Z.to_nat 4
       /\ forall i, (i < Z.to_nat 4)%nat ->
            nth_error workers i =
            nth_error (parseCLITypes "claude, gemini")
                      (i mod List.length (parseCLITypes "claude, gemini")).
Proof.
  split; [repeat split; try lia; discriminate|].
  apply (buildWorkers_round_robin (2 ^ 48) Scenario.plenty
           (Scenario.cfgOf "claude, gemini" ""));
    [simpl; lia|simpl; lia|simpl; lia|reflexivity|discriminate].
Defined.

(** [buildWorkers] panics in these cases only: [make] refuses the count
    (it is negative, or 16 bytes a worker overflow a uintptr or exceed the
    runtime's [maxAlloc]), or the slice was made for a positive count and
    there is no CLI type to deal out.  It ends the program with "out of
    memory" exactly when [make] accepts the count and the machine does not
    have the memory.  A count of 2^62, which [validate] accepts, is
    refused by [make] whatever [maxAlloc] is. *)
Theorem buildWorkers_panics maxAlloc hasMemory cfg :
  (buildWorkers maxAlloc hasMemory cfg = Panics <->
   Num cfg < 0 \/ 2 ^ 64 <= 16 * Num cfg \/ maxAlloc < 16 * Num cfg
   \/ (0 < Num cfg /\ hasMemory (16 * Num cfg) = true
       /\ parseCLITypes (CLIType cfg) = []))
  /\ (buildWorkers maxAlloc hasMemory cfg = OutOfMemory <->
      0 <= Num cfg /\ 16 * Num cfg < 2 ^ 64 /\ 16 * Num cfg <= maxAlloc
      /\ hasMemory (16 * Num cfg) = false)
  /\ (Num cfg = 2 ^ 62 -> buildWorkers maxAlloc hasMemory cfg = Panics).
Proof.
  assert (Refused : Num cfg < 0 \/ 2 ^ 64 <= 16 * Num cfg
                    \/ maxAlloc < 16 * Num cfg ->
                    buildWorkers maxAlloc hasMemory cfg = Panics).
  { intros H. unfold buildWorkers, makeStrings.
    destruct (Z.ltb_spec (Num cfg) 0); [reflexivity|].
    destruct (Z.leb_spec (2 ^ 64) (16 * Num cfg)); [reflexivity|].
    destruct (Z.ltb_spec maxAlloc (16 * Num cfg)); [reflexivity|]. lia. }
  assert (Starved : 0 <= Num cfg -> 16 * Num cfg < 2 ^ 64 ->
                    16 * Num cfg <= maxAlloc ->
                    hasMemory (16 * Num cfg) = false ->
                    buildWorkers maxAlloc hasMemory cfg = OutOfMemory).
  { intros H0 H1 H2 H3. unfold buildWorkers, makeStrings.
    destruct (Z.ltb_spec (Num cfg) 0); [lia|].
    destruct (Z.leb_spec (2 ^ 64) (16 * Num cfg)); [lia|].
    destruct (Z.ltb_spec maxAlloc (16 * Num cfg)); [lia|]. cbn [orb].
    now rewrite H3. }
  assert (Empty : 0 < Num cfg -> 16 * Num cfg < 2 ^ 64 ->
                  16 * Num cfg <= maxAlloc ->
                  hasMemory (16 * Num cfg) = true ->
                  parseCLITypes (CLIType cfg) = [] ->
                  buildWorkers maxAlloc hasMemory cfg = Panics).
  { intros H0 H1 H2 H3 E. unfold buildWorkers.
    rewrite makeStrings_Returns by (assumption || lia). rewrite E.
    destruct (Z.to_nat (Num cfg)) eqn:N; [lia|reflexivity]. }
  assert (Cases : (Num cfg < 0 \/ 2 ^ 64 <= 16 * Num cfg
                   \/ maxAlloc < 16 * Num cfg)
                  \/ (0 <= Num cfg /\ 16 * Num cfg < 2 ^ 64
                      /\ 16 * Num cfg <= maxAlloc)) by lia.
  split; [|split].
  - split.
    + intros H. destruct Cases as [C|(C0 & C1 & C2)]; [tauto|].
      destruct (hasMemory (16 * Num cfg)) eqn:Hm.
      2:{ rewrite Starved in H by first [assumption|reflexivity]. discriminate. }
      destruct (parseCLITypes (CLIType cfg)) as [|c l] eqn:E.
      * destruct (Z.eq_dec (Num cfg) 0) as [Z0|].
        { unfold buildWorkers in H.
          rewrite makeStrings_Returns in H by assumption.
          rewrite Z0 in H. discriminate. }
        right; right; right. split; [lia|]. now split.
      * destruct (buildWorkers_Returns maxAlloc hasMemory cfg C0 C1 C2 Hm)
          as (ws & Hw & _); [now rewrite E|]. congruence.
    + intros [H|[H|[H|(H0 & Hm & E)]]]; try (apply Refused; tauto).
      destruct Cases as [C|(C0 & C1 & C2)]; [now apply Refused|].
      now apply Empty.
  - split.
    + intros H. destruct Cases as [C|(C0 & C1 & C2)].
      { rewrite Refused in H by assumption. discriminate. }
      repeat split; try assumption.
      destruct (hasMemory (16 * Num cfg)) eqn:Hm; [|reflexivity].
      destruct (parseCLITypes (CLIType cfg)) as [|c l] eqn:E.
      * destruct (Z.eq_dec (Num cfg) 0) as [Z0|].
        { unfold buildWorkers in H.
          rewrite makeStrings_Returns in H by assumption.
          rewrite Z0 in H. discriminate. }
        rewrite Empty in H by first [assumption|reflexivity|lia]. discriminate.
      * destruct (buildWorkers_Returns maxAlloc hasMemory cfg C0 C1 C2 Hm)
          as (ws & Hw & _); [now rewrite E|]. congruence.
    + intros (H0 & H1 & H2 & H3). now apply Starved.
  - intros E. apply Refused. rewrite E. right; left.
    change (16 * 2 ^ 62) with (4 * 2 ^ 64). lia.
Qed.

(** *** uniqueWorkerTypes *)

Local Abbreviation seenStep :=
  (fun (state : list string * list string) worker =>
     let (seen, ordered) := state in
     if negb (existsb (String.eqb worker) seen)
     then (worker :: seen, (ordered ++ [worker])%list)
     else (seen, ordered)).

Local Abbreviation absent seen :=
  (fun x : string => negb (existsb (String.eqb x) seen)).

Lemma filter_filter {A} (f g : A -> bool) l :
  filter f (filter g l) = filter (fun x => g x && f x) l.
Proof.
  induction l as [|a l IH]; [reflexivity|]. simpl.
  destruct (g a); simpl; [destruct (f a)|]; now rewrite IH.
Qed.

Lemma unique_loop ws : forall seen ordered,
  snd (fold_left seenStep ws (seen, ordered))
  = (ordered ++ filter (absent seen) (uniqueWorkerTypes ws))%list.
Proof.
  unfold uniqueWorkerTypes.
  induction ws as [|w ws IH]; intros seen ordered; [simpl; now rewrite app_nil_r|].
  cbn [fold_left]. cbv beta iota. cbn [existsb negb orb].
  rewrite (IH [w] ([] ++ [w])%list). cbn [app filter].
  destruct (existsb (String.eqb w) seen) eqn:E; cbn [negb].
  - rewrite IH. f_equal. rewrite filter_filter. apply filter_ext. intros x.
    cbn [existsb]. rewrite orb_false_r.
    destruct (String.eqb_spec x w) as [->|N]; [now rewrite E|reflexivity].
  - rewrite IH, <- app_assoc. cbn [app]. do 2 f_equal.
    rewrite filter_filter. apply filter_ext. intros x. cbn [existsb].
    rewrite orb_false_r. now destruct (String.eqb x w).
Qed.

Lemma unique_cons w ws :
  uniqueWorkerTypes (w :: ws)
  = w :: filter (fun x => negb (String.eqb x w)) (uniqueWorkerTypes ws).
Proof.
  unfold uniqueWorkerTypes at 1. cbn [fold_left]. cbv beta iota.
  cbn [existsb negb]. rewrite unique_loop. cbn [app]. f_equal.
  apply filter_ext. intros x. cbn [existsb]. now rewrite orb_false_r.
Qed.

Lemma unique_In ws w : In w (uniqueWorkerTypes ws) <-> In w ws.
Proof.
  induction ws as [|a ws IH]; [reflexivity|]. rewrite unique_cons. simpl.
  rewrite filter_In, IH. destruct (String.eqb_spec w a) as [->|N].
  - split; [now left|]. intros _. now left.
  - split; [intros [H|[H _]]; auto|]. intros [H|H]; [now left|].
    right. now split.
Qed.

Lemma unique_NoDup ws : NoDup (uniqueWorkerTypes ws).
Proof.
  induction ws as [|a ws IH]; [constructor|]. rewrite unique_cons.
  constructor; [|now apply NoDup_filter].
  rewrite filter_In. intros [_ H]. now rewrite String.eqb_refl in H.
Qed.

Lemma unique_fixed ws : NoDup ws -> uniqueWorkerTypes ws = ws.
Proof.
  induction 1 as [|a ws Ha Hnd IH]; [reflexivity|]. rewrite unique_cons, IH.
  f_equal. apply forallb_filter_id. apply forallb_forall. intros x Hx.
  apply negb_true_iff, String.eqb_neq. congruence.
Qed.

(** [uniqueWorkerTypes] keeps every worker type of the list, each once. *)
Theorem uniqueWorkerTypes_each_once workers :
  NoDup (uniqueWorkerTypes workers)
  /\ forall w, In w (uniqueWorkerTypes workers) <-> In w workers.
Proof. split; [apply unique_NoDup|intros w; apply unique_In]. Qed.

(** The types come in the order of their first occurrence: those of a list
    that continues are those of its start, then those of the rest that the
    start does not hold.  So a list without repetitions is returned as it
    is, and the function is idempotent. *)
Theorem uniqueWorkerTypes_first_occurrences xs ys :
  uniqueWorkerTypes (xs ++ ys)
  = (uniqueWorkerTypes xs
     ++ filter (fun y => negb (existsb (String.eqb y) xs))
               (uniqueWorkerTypes ys))%list
  /\ uniqueWorkerTypes (uniqueWorkerTypes xs) = uniqueWorkerTypes xs.
Proof.
  split; [|apply unique_fixed, unique_NoDup].
  induction xs as [|x xs IH]; cbn [app].
  - symmetry. apply forallb_filter_id. now apply forallb_forall.
  - rewrite !unique_cons, IH, filter_app, filter_filter. cbn [app]. do 2 f_equal.
    apply filter_ext. intros y. cbn [existsb].
    rewrite negb_orb, andb_comm. reflexivity.
Qed.

(** *** Branch names *)

Lemma itoa_injective a b : itoa a = itoa b -> a = b.
Proof.
  unfold itoa. intros H.
  assert (Hi : forall z, NilZero.int_of_string (NilZero.string_of_int (Z.to_int z))
                         = Some (Z.to_int z)).
  { intros z. apply NilZero.isi; destruct z; try discriminate;
      simpl; intros E; injection E as E;
      now apply (DecimalPos.Unsigned.to_uint_nonnil p). }
  pose proof (Hi a) as Ha. rewrite H, Hi in Ha. injection Ha as Ha.
  rewrite <- (DecimalZ.of_to a), <- (DecimalZ.of_to b). now rewrite Ha.
Qed.

Lemma append_cancel_r u : forall s t, s ++ u = t ++ u -> s = t.
Proof.
  induction s as [|a s IH]; intros [|b t] H; [reflexivity| | |].
  - apply (f_equal String.length) in H. cbn [append String.length] in H.
    rewrite length_append in H. lia.
  - apply (f_equal String.length) in H. cbn [append String.length] in H.
    rewrite length_append in H. lia.
  - cbn [append] in H. injection H as -> H. f_equal. now apply IH.
Qed.

(** Workers with different numbers are told apart by their branch off one
    base branch, by their pane title and by their plain label. *)
Theorem worker_names_distinct baseBranch cliType i j :
  i <> j ->
  wtBranch baseBranch i <> wtBranch baseBranch j
  /\ paneTitle i cliType <> paneTitle j cliType
  /\ Monitor.plainLabel i <> Monitor.plainLabel j.
Proof.
  intros N. split; [|split]; intros H; apply N.
  - unfold wtBranch in H. apply append_cancel_l in H.
    apply append_cancel_l in H. apply append_cancel_l in H.
    now apply itoa_injective.
  - unfold paneTitle in H. apply append_cancel_l in H.
    rewrite <- !append_assoc in H. apply append_cancel_r in H.
    apply append_cancel_r in H. apply append_cancel_r in H.
    now apply itoa_injective.
  - unfold Monitor.plainLabel in H. apply append_cancel_l in H.
    now apply itoa_injective.
Qed.

Lemma worker_names_distinct_example :
  1 <> 2
  /\ wtBranch "main" 1 <> wtBranch "main" 2
  /\ paneTitle 1 "claude" <> paneTitle 2 "claude"
  /\ Monitor.plainLabel 1 <> Monitor.plainLabel 2.
Proof.
  split; [lia|]. apply (worker_names_distinct "main" "claude" 1 2). lia.
Defined.

End WorkerFacts.

(* ------------------------------------------------------------------ *)
(** ** The selectors together, and validation *)

Module SelectorFacts.
Import Go Config Strings Cmd CmdFacts WorkerFacts.
Local Open Scope string_scope.

Local Abbreviation name := (fun w : string => fst (parseWorker w)).

(** The CLI that [firstAvailableCLI] returns is the first one of the list
    that is on the search path; it returns none only when none is. *)
Theorem firstAvailableCLI_first LookPath cliTypes :
  match firstAvailableCLI LookPath cliTypes with
  | (cli, true) =>
      exists before after,
        cliTypes = (before ++ cli :: after)%list
        /\ LookPath cli = true
        /\ Forall (fun c => LookPath c = false) before
  | (cli, false) => cli = "" /\ Forall (fun c => LookPath c = false) cliTypes
  end.
Proof.
  induction cliTypes as [|c l IH]; [now split|]. cbn [firstAvailableCLI].
  unfold commandExists. destruct (LookPath c) eqn:E.
  - exists [], l. now repeat split.
  - destruct (firstAvailableCLI LookPath l) as [cli [|]].
    + destruct IH as (before & after & -> & H1 & H2).
      exists (c :: before), after. repeat split; auto.
    + destruct IH as [-> IH]. split; [reflexivity|]. now constructor.
Qed.

(** The selector for codex, in the same way as the one for gemini: when
    some worker is of type codex and the probe of codex fails, every worker
    whose name before the colon is codex becomes claude when claude is on
    the search path, else gemini when gemini is; with neither on the path
    the list is returned as it was, with the warning. *)
Theorem normalizeCodex_replaces LookPath probe workers :
  let codex := fun w => String.eqb (fst (parseWorker w)) "codex" in
  let swap := fun fallback w => if codex w then fallback else w in
  let count := Z.of_nat (List.length (filter codex workers)) in
  normalizeCodex LookPath probe workers =
  if containsCLIType workers "codex" && negb (codexHealthCheck probe)
  then
    if LookPath "claude"
    then (map (swap "claude") workers, codexReplaced count "claude")
    else if LookPath "gemini"
    then (map (swap "gemini") workers, codexReplaced count "gemini")
    else (workers, codexNoFallback)
  else (workers, []).
Proof.
  intros codex swap count. unfold normalizeCodex.
  destruct (containsCLIType workers "codex"); [|reflexivity].
  destruct (codexHealthCheck probe); [reflexivity|].
  cbn [negb andb]. rewrite firstAvailableCLI_two. unfold commandExists.
  destruct (LookPath "claude").
  - cbn [negb]. now rewrite replaceByName_spec.
  - destruct (LookPath "gemini"); [|reflexivity].
    cbn [negb]. now rewrite replaceByName_spec.
Qed.

(** *** The two selectors, one after the other *)

Lemma containsCLIType_existsb workers cliType :
  containsCLIType workers cliType
  = existsb (fun w => String.eqb (name w) cliType) workers.
Proof.
  induction workers as [|w ws IH]; [reflexivity|]. simpl.
  now destruct (String.eqb (fst (parseWorker w)) cliType).
Qed.

Lemma Forall2_map_r {A} (R : A -> A -> Prop) (f : A -> A) l :
  (forall a, R a (f a)) -> Forall2 R l (map f l).
Proof. intros H. induction l; constructor; auto. Qed.

Lemma Forall2_same {A} (R : A -> A -> Prop) l :
  (forall a, R a a) -> Forall2 R l l.
Proof. intros H. induction l; constructor; auto. Qed.

Lemma Forall2_compose {A} (R S T : A -> A -> Prop) :
  (forall a b c, R a b -> S b c -> T a c) ->
  forall l1 l2 l3, Forall2 R l1 l2 -> Forall2 S l2 l3 -> Forall2 T l1 l3.
Proof.
  intros H l1 l2 l3 H1. revert l3. induction H1; intros l3 H2;
    inversion H2; subst; constructor; eauto.
Qed.

(** What one selector does to one worker: it leaves it, or it puts one of
    its two fallbacks, found on the search path, in the place of a worker
    of its type. *)
Lemma replace_pointwise LookPath cliType a b workers :
  let (fallback, ok) := firstAvailableCLI LookPath [a; b] in
  ok = true ->
  Forall2 (fun w w' =>
             w' = w \/ (name w = cliType /\ (w' = a \/ w' = b)
                        /\ LookPath w' = true))
          workers (fst (replaceByName cliType fallback workers)).
Proof.
  rewrite firstAvailableCLI_two.
  destruct (LookPath a) eqn:Ea; [|destruct (LookPath b) eqn:Eb];
    intros H; try discriminate; rewrite replaceByName_spec; cbn [fst];
    apply Forall2_map_r; intros w;
    destruct (String.eqb_spec (fst (parseWorker w)) cliType); auto.
Qed.

Lemma normalizeGemini_pointwise LookPath probe workers :
  Forall2 (fun w w' =>
             w' = w \/ (name w = "gemini" /\ (w' = "claude" \/ w' = "codex")
                        /\ LookPath w' = true))
          workers (fst (normalizeGemini LookPath probe workers)).
Proof.
  unfold normalizeGemini.
  destruct (containsCLIType workers "gemini"); cbn [negb];
    [|apply Forall2_same; auto].
  destruct (geminiHealthCheck probe); [apply Forall2_same; auto|].
  pose proof (replace_pointwise LookPath "gemini" "claude" "codex" workers) as H.
  destruct (firstAvailableCLI LookPath ["claude"; "codex"]) as [fallback [|]];
    cbn [negb]; [|apply Forall2_same; auto].
  specialize (H eq_refl).
  now destruct (replaceByName "gemini" fallback workers).
Qed.

Lemma normalizeCodex_pointwise LookPath probe workers :
  Forall2 (fun w w' =>
             w' = w \/ (name w = "codex" /\ (w' = "claude" \/ w' = "gemini")
                        /\ LookPath w' = true))
          workers (fst (normalizeCodex LookPath probe workers)).
Proof.
  unfold normalizeCodex.
  destruct (containsCLIType workers "codex"); cbn [negb];
    [|apply Forall2_same; auto].
  destruct (codexHealthCheck probe); [apply Forall2_same; auto|].
  pose proof (replace_pointwise LookPath "codex" "claude" "gemini" workers) as H.
  destruct (firstAvailableCLI LookPath ["claude"; "gemini"]) as [fallback [|]];
    cbn [negb]; [|apply Forall2_same; auto].
  specialize (H eq_refl).
  now destruct (replaceByName "codex" fallback workers).
Qed.

Lemma normalizeWorkers_fst LookPath probe workers :
  fst (normalizeWorkers LookPath probe workers)
  = fst (normalizeCodex LookPath probe
           (fst (normalizeGemini LookPath probe workers))).
Proof.
  unfold normalizeWorkers.
  destruct (normalizeGemini LookPath probe workers) as [g o1]. cbn [fst].
  now destruct (normalizeCodex LookPath probe g).
Qed.

Lemma normalizeWorkers_pointwise LookPath probe workers :
  Forall2 (fun w w' =>
             w' = w
             \/ ((name w = "gemini" \/ name w = "codex")
                 /\ (w' = "claude" \/ w' = "codex" \/ w' = "gemini")
                 /\ LookPath w' = true))
          workers (fst (normalizeWorkers LookPath probe workers)).
Proof.
  rewrite normalizeWorkers_fst.
  eapply Forall2_compose;
    [|apply normalizeGemini_pointwise|apply normalizeCodex_pointwise].
  cbv beta. intros a b c H1 H2.
  destruct H1 as [->|(Ha & Hb & Hp)]; destruct H2 as [->|(Hb' & Hc & Hp')].
  - now left.
  - right. split; [now right|]. split; [destruct Hc; auto|assumption].
  - right. split; [now left|]. split; [destruct Hb; auto|assumption].
  - right. split; [now left|]. split; [destruct Hc; auto|assumption].
Qed.

(** [normalizeWorkers] changes the worker list one worker at a time: the
    list keeps its length, a worker that is neither of type gemini nor of
    type codex stays as it is, and whatever takes the place of a worker is
    one of the plain names claude, codex and gemini, and is on the search
    path. *)
Theorem normalizeWorkers_replaces_in_place LookPath probe workers :
  Forall2 (fun w w' =>
             w' = w
             \/ ((fst (parseWorker w) = "gemini" \/ fst (parseWorker w) = "codex")
                 /\ (w' = "claude" \/ w' = "codex" \/ w' = "gemini")
                 /\ LookPath w' = true))
          workers (fst (normalizeWorkers LookPath probe workers)).
Proof. apply normalizeWorkers_pointwise. Qed.

(** With claude on the search path, no worker is left on a CLI whose probe
    failed. *)
Theorem normalizeWorkers_leaves_no_failed_cli LookPath probe workers :
  LookPath "claude" = true ->
  Forall (fun w =>
            (fst (parseWorker w) = "gemini" -> geminiHealthCheck probe = true)
            /\ (fst (parseWorker w) = "codex" -> codexHealthCheck probe = true))
         (fst (normalizeWorkers LookPath probe workers)).
Proof.
  intros Hc. rewrite normalizeWorkers_fst.
  assert (G : Forall (fun w => name w = "gemini" -> geminiHealthCheck probe = true)
                (fst (normalizeGemini LookPath probe workers))).
  { unfold normalizeGemini. rewrite containsCLIType_existsb.
    destruct (existsb _ workers) eqn:E; cbn [negb fst].
    - destruct (geminiHealthCheck probe); [now apply Forall_forall|].
      rewrite firstAvailableCLI_two. unfold commandExists. rewrite Hc.
      cbn [negb]. rewrite replaceByName_spec. cbn [fst].
      apply Forall_forall. intros w Hw. apply in_map_iff in Hw.
      destruct Hw as (x & <- & _).
      destruct (String.eqb_spec (fst (parseWorker x)) "gemini"); [discriminate|easy].
    - apply Forall_forall. intros w Hw Hn.
      apply not_true_iff_false in E. exfalso. apply E.
      apply existsb_exists. exists w. split; [assumption|].
      now apply String.eqb_eq. }
  set (g := fst (normalizeGemini LookPath probe workers)) in *.
  unfold normalizeCodex. rewrite containsCLIType_existsb.
  destruct (existsb _ g) eqn:E; cbn [negb fst].
  - destruct (codexHealthCheck probe).
    + eapply Forall_impl; [|exact G]. cbv beta. intros w H. now split.
    + rewrite firstAvailableCLI_two. unfold commandExists. rewrite Hc.
      cbn [negb]. rewrite replaceByName_spec. cbn [fst].
      apply Forall_forall. intros w Hw. apply in_map_iff in Hw.
      destruct Hw as (x & <- & Hx). rewrite Forall_forall in G.
      destruct (String.eqb_spec (fst (parseWorker x)) "codex") as [|N];
        [split; discriminate|]. split; [now apply G|easy].
  - rewrite Forall_forall in *. intros w Hw. split; [now apply G|]. intros Hn.
    apply not_true_iff_false in E. exfalso. apply E.
    apply existsb_exists. exists w. split; [assumption|].
    now apply String.eqb_eq.
Qed.

Lemma normalizeWorkers_leaves_no_failed_cli_example :
  Scenario.hostPath "claude" = true
  /\ Forall (fun w =>
            (fst (parseWorker w) = "gemini"
             -> geminiHealthCheck Scenario.hostProbe = true)
            /\ (fst (parseWorker w) = "codex"
                -> codexHealthCheck Scenario.hostProbe = true))
         (fst (normalizeWorkers Scenario.hostPath Scenario.hostProbe
                 ["claude"; "gemini:gemini-2.0-flash"; "gemini"])).
Proof.
  split; [reflexivity|].
  apply (normalizeWorkers_leaves_no_failed_cli Scenario.hostPath
           Scenario.hostProbe ["claude"; "gemini:gemini-2.0-flash"; "gemini"]).
  reflexivity.
Defined.

(** When both probes fail, claude is not on the search path and codex and
    gemini are, the workers of type gemini become codex and then, with the
    workers of type codex, plain gemini: every worker of either type ends on
    gemini, without its model. *)
Theorem normalizeWorkers_both_probes_fail LookPath probe workers :
  containsCLIType workers "gemini" = true ->
  geminiHealthCheck probe = false -> codexHealthCheck probe = false ->
  LookPath "claude" = false -> LookPath "codex" = true ->
  LookPath "gemini" = true ->
  fst (normalizeWorkers LookPath probe workers) =
  map (fun w =>
         if String.eqb (fst (parseWorker w)) "gemini"
            || String.eqb (fst (parseWorker w)) "codex"
         then "gemini" else w)
      workers.
Proof.
  intros Hg Gf Cf Lc Lx Lg. rewrite normalizeWorkers_fst.
  unfold normalizeGemini. rewrite Hg, Gf. cbn [negb].
  rewrite firstAvailableCLI_two. unfold commandExists. rewrite Lc, Lx.
  cbn [negb]. rewrite replaceByName_spec. cbn [fst].
  unfold normalizeCodex. rewrite Cf.
  assert (Hc : containsCLIType
                 (map (fun w => if String.eqb (fst (parseWorker w)) "gemini"
                                then "codex" else w) workers) "codex" = true).
  { rewrite containsCLIType_existsb in *. apply existsb_exists in Hg.
    destruct Hg as (w & Hw & Hn). apply existsb_exists. exists "codex".
    split; [|reflexivity]. apply in_map_iff. exists w. split; [|assumption].
    cbv beta in Hn. now rewrite Hn. }
  rewrite Hc. cbn [negb]. rewrite firstAvailableCLI_two. unfold commandExists.
  rewrite Lc, Lg. cbn [negb]. rewrite replaceByName_spec. cbn [fst].
  rewrite map_map. apply map_ext. intros w.
  destruct (String.eqb (fst (parseWorker w)) "gemini") eqn:E; [reflexivity|].
  reflexivity.
Qed.

Lemma normalizeWorkers_both_probes_fail_example :
  (containsCLIType ["gemini:gemini-2.0-flash"; "claude"; "codex"] "gemini" = true
   /\ geminiHealthCheck Scenario.deadProbe = false
   /\ codexHealthCheck Scenario.deadProbe = false
   /\ Scenario.noClaudePath "claude" = false
   /\ Scenario.noClaudePath "codex" = true
   /\ Scenario.noClaudePath "gemini" = true)
  /\ fst (normalizeWorkers Scenario.noClaudePath Scenario.deadProbe
            ["gemini:gemini-2.0-flash"; "claude"; "codex"])
     = ["gemini"; "claude"; "gemini"].
Proof.
  split; [repeat split|].
  apply (normalizeWorkers_both_probes_fail Scenario.noClaudePath
           Scenario.deadProbe ["gemini:gemini-2.0-flash"; "claude"; "codex"]);
    reflexivity.
Defined.

(** *** validate *)

Local Abbreviation usable LookPath :=
  (fun c : string =>
     isSupportedCLIType c = true /\ LookPath (fst (parseWorker c)) = true).

Lemma checkCLITypes_None LookPath cliTypes :
  checkCLITypes LookPath cliTypes = None <-> Forall (usable LookPath) cliTypes.
Proof.
  induction cliTypes as [|c l IH]; [now split|]. cbn [checkCLITypes].
  destruct (isSupportedCLIType c) eqn:S; cbn [negb].
  - destruct (LookPath (fst (parseWorker c))) eqn:L; cbn [negb].
    + rewrite IH. split; [now constructor|]. now inversion 1.
    + split; [discriminate|]. inversion 1 as [|? ? [_ H1] ?]. congruence.
  - split; [discriminate|]. inversion 1 as [|? ? [H1 _] ?]. congruence.
Qed.

Lemma validate_None LookPath inRepo cfg :
  validate LookPath inRepo cfg = None <->
  LookPath "tmux" = true /\ inRepo = true
  /\ parseCLITypes (CLIType cfg) <> []
  /\ Forall (usable LookPath) (parseCLITypes (CLIType cfg))
  /\ 1 <= Num cfg.
Proof.
  unfold validate. destruct (LookPath "tmux"); cbn [negb];
    [|split; [discriminate|now intros [? _]]].
  destruct inRepo; cbn [negb]; [|split; [discriminate|now intros (_ & ? & _)]].
  rewrite <- checkCLITypes_None.
  destruct (parseCLITypes (CLIType cfg)) as [|c l].
  - simpl. split; [discriminate|]. now intros (_ & _ & ? & _).
  - change (Z.of_nat (List.length (c :: l)) =? 0)%Z with false.
    destruct (checkCLITypes LookPath (c :: l)).
    + split; [discriminate|]. now intros (_ & _ & _ & ? & _).
    + destruct (Z.ltb_spec (Num cfg) 1).
      * split; [discriminate|]. intros (_ & _ & _ & _ & ?). lia.
      * split; [|reflexivity]. intros _. repeat split; auto. discriminate.
Qed.

(** [validate] returns no error exactly when tmux is on the search path,
    the directory is inside a git repository, the CLI types hold at least
    one entry, every entry is of a supported type whose CLI is on the
    search path, and the count is at least 1. *)
Theorem validate_accepts LookPath inRepo cfg :
  validate LookPath inRepo cfg = None <->
  LookPath "tmux" = true /\ inRepo = true
  /\ parseCLITypes (CLIType cfg) <> []
  /\ Forall (fun c => isSupportedCLIType c = true
                      /\ LookPath (fst (parseWorker c)) = true)
            (parseCLITypes (CLIType cfg))
  /\ 1 <= Num cfg.
Proof. apply validate_None. Qed.

(** With tmux and the repository in place, the error is about the first
    entry that is not usable, unknown type before missing CLI, whatever
    the count is. *)
Theorem validate_reports_first_bad_entry LookPath inRepo cfg before c after :
  LookPath "tmux" = true -> inRepo = true ->
  parseCLITypes (CLIType cfg) = (before ++ c :: after)%list ->
  Forall (fun c => isSupportedCLIType c = true
                   /\ LookPath (fst (parseWorker c)) = true) before ->
  ~ (isSupportedCLIType c = true /\ LookPath (fst (parseWorker c)) = true) ->
  validate LookPath inRepo cfg =
  Some (if isSupportedCLIType c then CLINotFound (fst (parseWorker c))
        else UnknownCLIType (fst (parseWorker c))).
Proof.
  intros Ht -> E Hb Hc. unfold validate. rewrite Ht, E. cbn [negb].
  replace (Z.of_nat (List.length (before ++ c :: after)) =? 0)%Z with false
    by (symmetry; apply Z.eqb_neq; rewrite length_app; simpl; lia).
  assert (X : checkCLITypes LookPath (before ++ c :: after) =
              Some (if isSupportedCLIType c then CLINotFound (fst (parseWorker c))
                    else UnknownCLIType (fst (parseWorker c)))).
  { clear E. induction Hb as [|b l [H1 H2] _ IH]; cbn [app checkCLITypes].
    - destruct (isSupportedCLIType c); cbn [negb]; [|reflexivity].
      destruct (LookPath (fst (parseWorker c))); [|reflexivity].
      now destruct Hc.
    - rewrite H1, H2. cbn [negb]. apply IH. }
  now rewrite X.
Qed.

Lemma validate_reports_first_bad_entry_example :
  (Scenario.claudePath "tmux" = true /\ true = true
   /\ parseCLITypes "claude, gemini:flash, cursor" =
      (["claude"] ++ "gemini:flash" :: ["cursor"])%list
   /\ Forall (fun c => isSupportedCLIType c = true
                       /\ Scenario.claudePath (fst (parseWorker c)) = true)
             ["claude"]
   /\ ~ (isSupportedCLIType "gemini:flash" = true
         /\ Scenario.claudePath (fst (parseWorker "gemini:flash")) = true))
  /\ validate Scenario.claudePath true
       (Scenario.cfgOf "claude, gemini:flash, cursor" "")
     = Some (CLINotFound "gemini").
Proof.
  assert (H : ~ (isSupportedCLIType "gemini:flash" = true
                 /\ Scenario.claudePath (fst (parseWorker "gemini:flash"))
                    = true)).
  { intros [_ H]. discriminate H. }
  split; [repeat split; [repeat constructor|exact H]|].
  apply (validate_reports_first_bad_entry Scenario.claudePath true
           (Scenario.cfgOf "claude, gemini:flash, cursor" "")
           ["claude"] "gemini:flash" ["cursor"]);
    [reflexivity|reflexivity|reflexivity|repeat constructor|exact H].
Defined.

(** After [validate] has accepted a configuration whose count [make] can
    serve (16 bytes a worker neither overflow a uintptr nor exceed the
    runtime's [maxAlloc], and the machine has that memory; [validate] puts
    no upper bound on the count), [buildWorkers] returns, and the workers
    that [normalizeWorkers] then returns are as many as the count asks
    for, each of a supported type whose CLI is on the search path. *)
Theorem validated_workers maxAlloc hasMemory LookPath inRepo probe cfg :
  validate LookPath inRepo cfg = None ->
  16 * Num cfg < 2 ^ 64 -> 16 * Num cfg <= maxAlloc ->
  hasMemory (16 * Num cfg) = true ->
  exists workers,
    buildWorkers maxAlloc hasMemory cfg = Returns workers
    /\ Z.of_nat (List.length (fst (normalizeWorkers LookPath probe workers)))
       = Num cfg
    /\ Forall (fun w => isSupportedCLIType w = true
                        /\ LookPath (fst (parseWorker w)) = true)
              (fst (normalizeWorkers LookPath probe workers)).
Proof.
  intros H H1 H2 H3. apply validate_None in H.
  destruct H as (_ & _ & Hne & Hok & Hn).
  destruct (buildWorkers_Returns maxAlloc hasMemory cfg)
    as (workers & Hb & Hl & Hnth); [lia|assumption..|].
  exists workers. split; [assumption|].
  pose proof (normalizeWorkers_pointwise LookPath probe workers) as F.
  split.
  - rewrite <- (Forall2_length F), Hl. lia.
  - assert (W : Forall (usable LookPath) workers).
    { apply Forall_forall. intros w Hw. apply In_nth_error in Hw.
      destruct Hw as (i & Hi).
      assert (Hlt : (i < Z.to_nat (Num cfg))%nat).
      { rewrite <- Hl. apply nth_error_Some. congruence. }
      rewrite (Hnth i Hlt) in Hi. apply nth_error_In in Hi.
      rewrite Forall_forall in Hok. now apply Hok. }
    clear - F W. induction F as [|w w' l l' R _ IH]; [constructor|].
    inversion W as [|? ? Hw Hl]; subst. constructor; [|now apply IH].
    destruct R as [->|(_ & Hc & Hp)]; [assumption|].
    destruct Hc as [->|[->| ->]]; now split.
Qed.

Lemma validated_workers_example :
  (validate Scenario.tmuxPath true
     (Scenario.cfgOf "claude,claude,claude,gemini" "") = None
   /\ 16 * 4 < 2 ^ 64 /\ 16 * 4 <= 2 ^ 48
   /\ Scenario.plenty (16 * 4) = true)
  /\ exists workers,
       buildWorkers (2 ^ 48) Scenario.plenty
         (Scenario.cfgOf "claude,claude,claude,gemini" "")
         = Returns workers
       /\ Z.of_nat (List.length
                      (fst (normalizeWorkers Scenario.tmuxPath
                              Scenario.hostProbe workers)))
          = 4
       /\ Forall (fun w => isSupportedCLIType w = true
                           /\ Scenario.tmuxPath (fst (parseWorker w)) = true)
                 (fst (normalizeWorkers Scenario.tmuxPath
                         Scenario.hostProbe workers)).
Proof.
  split; [repeat split; lia|].
  apply (validated_workers (2 ^ 48) Scenario.plenty Scenario.tmuxPath true
           Scenario.hostProbe
           (Scenario.cfgOf "claude,claude,claude,gemini" ""));
    [reflexivity|simpl; lia|simpl; lia|reflexivity].
Defined.

End SelectorFacts.

(* ------------------------------------------------------------------ *)
(** ** The highest window index *)

Module TmuxFacts.
Import Tmux.

Lemma maxOver_spec indices : forall max,
  max <= maxOver max indices
  /\ (forall idx, In idx indices -> idx <= maxOver max indices)
  /\ (maxOver max indices = max \/ In (maxOver max indices) indices).
Proof.
  induction indices as [|i l IH]; intros max; cbn [maxOver].
  - split; [lia|]. split; [now intros|now left].
  - destruct (IH (if i >? max then i else max)) as (H1 & H2 & H3).
    destruct (Z.gtb_spec i max) as [G|G].
    + split; [lia|]. split.
      * intros idx [->|Hin]; [assumption|now apply H2].
      * right. destruct H3 as [->|H3]; [now left|now right].
    + split; [assumption|]. split.
      * intros idx [->|Hin]; [lia|now apply H2].
      * destruct H3 as [H3|H3]; [now left|right; now right].
Qed.

(** When the windows of the session can be listed, [MaxWindowIndex] returns
    no error and a number that is at least 0 and at least every index, and
    that is 0 or one of the indices; the number after it is the index of no
    window.  An error of the listing is passed on, with 0. *)
Theorem MaxWindowIndex_is_max (Error : Type)
    (ListWindowIndices : string -> list Z + Error) session :
  match ListWindowIndices session with
  | inl indices =>
      exists max,
        MaxWindowIndex ListWindowIndices session = (max, None)
        /\ 0 <= max
        /\ (forall idx, In idx indices -> idx <= max)
        /\ (max = 0 \/ In max indices)
        /\ ~ In (max + 1) indices
  | inr err => MaxWindowIndex ListWindowIndices session = (0, Some err)
  end.
Proof.
  unfold MaxWindowIndex. destruct (ListWindowIndices session) as [indices|err];
    [|reflexivity].
  destruct (maxOver_spec indices 0) as (H1 & H2 & H3).
  exists (maxOver 0 indices). repeat split; auto.
  intros Hin. apply H2 in Hin. lia.
Qed.

End TmuxFacts.

(* ------------------------------------------------------------------ *)
(** ** The footprint and the progress of a watchdog *)

Module FootprintFacts.
Import Go Regexp Time Usagelimit Config Monitor History Footprint MonitorFacts.

(** *** Computations that keep to a set of calls *)

Section Keeps.

Variable P : Call -> Prop.

Lemma keeps_ret {A} (a : A) : keeps P (ret a).
Proof. intros w H. exact H. Qed.

Lemma keeps_pending {A} : keeps P (@Pending A).
Proof. intros w H. exact H. Qed.

Lemma keeps_bind {A B} (m : M A) (k : A -> M B) :
  keeps P m -> (forall a, keeps P (k a)) -> keeps P (bind m k).
Proof.
  intros Hm Hk w Hw. specialize (Hm w Hw). unfold bind.
  destruct (m w) as [a w'|w']; [now apply Hk|exact Hm].
Qed.

Lemma keeps_call c : P c -> keeps P (call c).
Proof. intros Hc w Hw. simpl. now constructor. Qed.

Lemma keeps_select d : (forall b, P (CSelect d b)) -> keeps P (selectDone d).
Proof.
  intros Hc w Hw. unfold selectDone.
  destruct (script w) as [|[]]; simpl; auto.
Qed.

Lemma keeps_now : (forall t, P (CNow t)) -> keeps P timeNow.
Proof.
  intros Hc w Hw. unfold timeNow.
  destruct (script w) as [|[]]; simpl; auto.
Qed.

Lemma keeps_capture tgt :
  (forall r, P (CCapturePane tgt r)) -> keeps P (CapturePane tgt).
Proof.
  intros Hc w Hw. unfold CapturePane.
  destruct (script w) as [|[]]; simpl; auto.
Qed.

Lemma keeps_session s :
  (forall b, P (CHasSession s b)) -> keeps P (HasSession s).
Proof.
  intros Hc w Hw. unfold HasSession.
  destruct (script w) as [|[]]; simpl; auto.
Qed.

End Keeps.

Section Own.

Variable cfg : Config.
Variable session target : string.
Variable waitLabel : Z -> Z -> Z -> string.
Variable workerNum : Z.
Variable log : bool.

Local Abbreviation own := (Footprint.own cfg session target waitLabel workerNum log).

Lemma keeps_clock : keeps own timeNow.
Proof. apply keeps_now. now intros. Qed.

Lemma keeps_logf line : ownLine cfg workerNum line -> keeps own (logf log line).
Proof.
  intros Hl. unfold logf. apply keeps_bind; [apply keeps_clock|]. intros t.
  apply keeps_bind; [now apply keeps_call|]. intros _.
  destruct log eqn:E; [|apply keeps_ret]. apply keeps_call. now split.
Qed.

Lemma keeps_extract content : keeps own (ExtractWaitSecsM content).
Proof.
  unfold ExtractWaitSecsM.
  destruct (FindStringSubmatch 2 utcTimeRe content)
    as [[|m0 [|m1 [|m2 [|m3 l]]]]|]; try apply keeps_ret.
  apply keeps_bind; [apply keeps_clock|]. intros t. apply keeps_ret.
Qed.

Lemma keeps_waitUntil fuel deadline : keeps own (waitUntil fuel deadline).
Proof.
  induction fuel as [|fuel IH]; [apply keeps_pending|]. cbn [waitUntil].
  apply keeps_bind; [apply keeps_clock|]. intros now.
  destruct (Before now deadline); [|apply keeps_ret].
  apply keeps_bind; [apply keeps_select; intros; now right|]. intros done.
  destruct done; [apply keeps_ret|apply IH].
Qed.

Lemma keeps_watchLoop fuel : forall detected,
  keeps own (watchLoop cfg session target waitLabel workerNum log fuel detected).
Proof.
  induction fuel as [|fuel IH]; intros detected; [apply keeps_pending|].
  cbn [watchLoop].
  apply keeps_bind; [apply keeps_select; intros; now left|]. intros done.
  destruct done; [apply keeps_ret|].
  apply keeps_bind; [apply keeps_capture; now intros|]. intros [content|];
    [|apply keeps_ret].
  destruct (negb detected && HasError content); [|apply IH].
  apply keeps_bind; [apply keeps_extract|]. intros waitSecs.
  apply keeps_bind.
  { apply keeps_logf. split; [reflexivity|]. eexists. split; reflexivity. }
  intros _. apply keeps_bind.
  { apply keeps_call. split; [reflexivity|]. right.
    eexists _, _, _. split; [split; reflexivity|reflexivity]. }
  intros _. apply keeps_bind; [apply keeps_clock|]. intros now.
  apply keeps_bind; [apply keeps_waitUntil|]. intros cancelled.
  destruct cancelled; [apply keeps_ret|].
  apply keeps_bind; [apply keeps_session; now intros|]. intros alive.
  destruct alive; [|apply keeps_ret]. cbn [negb].
  apply keeps_bind; [apply keeps_logf; now split|]. intros _.
  apply keeps_bind; [apply keeps_call; now split|]. intros _.
  apply keeps_bind; [apply keeps_call; split; [reflexivity|now left]|].
  intros _. apply IH.
Qed.

End Own.

(** Every call of a watchdog is one of its own: it waits the poll interval
    or five seconds, reads the clock, captures its own pane and no other,
    asks about its own session, prints the detection line or the resume
    line of its own worker, writes to the log file only when it was given
    one, sets the wait label or the plain label on its own pane, and sends
    nothing but the resume keystroke. *)
Theorem Watch_footprint cfg session paneID workerNum log answers :
  Forall (own cfg session paneID
            (fun n h m => ("worker-" ++ itoa n ++ " [wait " ++ itoa h ++ "h"
                             ++ itoa m ++ "m]")%string)
            workerNum log)
         (calls (Watch cfg session paneID workerNum log answers)).
Proof.
  unfold calls. apply Forall_rev. unfold Watch. apply keeps_watchLoop.
  constructor.
Qed.

(** The same for the earlier version, whose target is the window of the
    worker in the session. *)
Theorem WatchWindow_footprint cfg session windowID workerNum log answers :
  Forall (own cfg session (session ++ ":" ++ windowID)%string
            (fun n h m => ("w" ++ itoa n ++ "[wait " ++ itoa h ++ "h"
                             ++ itoa m ++ "m]")%string)
            workerNum log)
         (calls (WatchWindow cfg session windowID workerNum log answers)).
Proof.
  unfold calls. apply Forall_rev. unfold WatchWindow. apply keeps_watchLoop.
  constructor.
Qed.

(** *** How a watchdog ends *)

(** A capture that fails is the last call of a watchdog, which returns:
    nothing is logged and no label is touched once the pane is gone. *)
Theorem capture_failure_is_final cfg session paneID workerNum log answers
    before tgt after :
  calls (Watch cfg session paneID workerNum log answers)
    = before ++ CCapturePane tgt None :: after ->
  after = [] /\ returned (Watch cfg session paneID workerNum log answers) = true.
Proof.
  intros H. apply calls_split in H.
  destruct (final_is_last _ _ _ _ _ _ _ _ (Watch_good _ _ _ _ _ _) H eq_refl)
    as [L R].
  split; [|assumption]. apply (f_equal (@rev Call)) in L.
  now rewrite rev_involutive in L.
Qed.

(** The earlier version ends in the same three ways: a cancelled wait, a
    failed capture and a session found gone are each the last call, after
    which it has returned. *)
Theorem WatchWindow_final_call cfg session windowID workerNum log answers
    before c after :
  calls (WatchWindow cfg session windowID workerNum log answers)
    = before ++ c :: after ->
  final c = true ->
  after = []
  /\ returned (WatchWindow cfg session windowID workerNum log answers) = true.
Proof.
  intros H Hc. apply calls_split in H.
  destruct (final_is_last _ _ _ _ _ _ _ _ (WatchWindow_good _ _ _ _ _ _) H Hc)
    as [L R].
  split; [|assumption]. apply (f_equal (@rev Call)) in L.
  now rewrite rev_involutive in L.
Qed.


(** *** Runs that go on *)

Lemma watchLoop_starved cfg session target waitLabel n log fuel detected p :
  watchLoop cfg session target waitLabel n log fuel detected
    {| script := []; past := p |}
  = Pending {| script := []; past := p |}.
Proof. destruct fuel; reflexivity. Qed.

Lemma watchLoop_idle cfg session target waitLabel n log contents :
  forall fuel detected p,
  (List.length contents <= fuel)%nat ->
  Forall (fun c => HasError c = false) contents ->
  watchLoop cfg session target waitLabel n log fuel detected
    {| script := flat_map (fun c => [RSelect false; RCapture (Some c)]) contents;
       past := p |}
  = Pending
      {| script := [];
         past := rev (flat_map
                        (fun c => [CSelect (mul (MonitorInterval cfg) Second) false;
                                   CCapturePane target (Some c)]) contents)
                   ++ p |}.
Proof.
  induction contents as [|c cs IH]; intros fuel detected p Hf Hc.
  - apply watchLoop_starved.
  - destruct fuel as [|fuel]; [simpl in Hf; lia|].
    inversion Hc as [|? ? Hc1 Hc2]; subst.
    cbn [watchLoop flat_map app]. rewrite run_select. cbn [script past].
    cbv beta iota. rewrite run_capture. cbn [script past]. cbv beta iota.
    rewrite Hc1, andb_false_r. rewrite IH by (simpl in Hf; auto; lia).
    do 2 f_equal. cbn [rev]. now rewrite <- !app_assoc.
Qed.

(** While no capture holds an error, a watchdog does nothing but wait the
    poll interval and capture its pane, once per answer, and it does not
    return. *)
Theorem Watch_polls_while_no_error cfg session paneID workerNum log contents :
  Forall (fun c => HasError c = false) contents ->
  let answers :=
    flat_map (fun c => [RSelect false; RCapture (Some c)]) contents in
  calls (Watch cfg session paneID workerNum log answers)
  = flat_map (fun c => [CSelect (mul (MonitorInterval cfg) Second) false;
                        CCapturePane paneID (Some c)]) contents
  /\ returned (Watch cfg session paneID workerNum log answers) = false.
Proof.
  intros Hc answers. unfold Watch, calls.
  rewrite (watchLoop_idle _ _ _ _ _ _ contents); [|subst answers|assumption].
  - cbn [history past returned]. rewrite app_nil_r, rev_involutive. now split.
  - clear. induction contents as [|c cs IH]; simpl; lia.
Qed.

Lemma Watch_polls_while_no_error_example :
  Forall (fun c => HasError c = false)
         [runes "thinking"; runes "All usage limits are fine"]
  /\ calls (Watch (Scenario.cfgOf "claude" "") "claude-swarm" "%1" 1 false
              (flat_map (fun c => [RSelect false; RCapture (Some c)])
                 [runes "thinking"; runes "All usage limits are fine"]))
     = flat_map (fun c => [CSelect (mul 30 Second) false;
                           CCapturePane "%1" (Some c)])
         [runes "thinking"; runes "All usage limits are fine"]
  /\ returned (Watch (Scenario.cfgOf "claude" "") "claude-swarm" "%1" 1 false
                 (flat_map (fun c => [RSelect false; RCapture (Some c)])
                    [runes "thinking"; runes "All usage limits are fine"]))
     = false.
Proof.
  assert (H : Forall (fun c => HasError c = false)
                [runes "thinking"; runes "All usage limits are fine"]).
  { repeat constructor. }
  split; [exact H|].
  exact (Watch_polls_while_no_error (Scenario.cfgOf "claude" "")
           "claude-swarm" "%1" 1 false _ H).
Defined.

Lemma waitUntil_turns deadline tk rest waits : forall fuel p,
  (List.length waits < fuel)%nat ->
  Forall (fun t => Before t deadline = true) waits ->
  Before tk deadline = false ->
  waitUntil fuel deadline
    {| script := flat_map (fun t => [RNow t; RSelect false]) waits
                   ++ RNow tk :: rest;
       past := p |}
  = Ret false
      {| script := rest;
         past := CNow tk
                   :: rev (flat_map
                             (fun t => [CNow t; CSelect (mul 5 Second) false])
                             waits) ++ p |}.
Proof.
  induction waits as [|t ts IH]; intros fuel p Hf Hw Hk;
    (destruct fuel as [|fuel]; [simpl in Hf; lia|]).
  - cbn [waitUntil flat_map app]. rewrite run_now. cbn [script past].
    now rewrite Hk.
  - inversion Hw as [|? ? Ht Hts]; subst.
    cbn [waitUntil flat_map app]. rewrite run_now. cbn [script past].
    rewrite Ht. rewrite run_select. cbn [script past]. cbv beta iota.
    rewrite IH by (simpl in Hf; auto; lia).
    do 2 f_equal. cbn [rev]. now rewrite <- !app_assoc.
Qed.

(** What the watchdog reads from the clock to extract the wait: one
    reading when the text holds "after HH:MM UTC", none otherwise. *)
Lemma run_extract_reads {A} content (k : Z -> M A) te s p :
  bind (ExtractWaitSecsM content) k
    {| script :=
         match FindStringSubmatch 2 utcTimeRe content with
         | Some [_; _; _] => [RNow te]
         | _ => []
         end ++ s;
       past := p |}
  = k (ExtractWaitSecs te content)
      {| script := s;
         past := match FindStringSubmatch 2 utcTimeRe content with
                 | Some [_; _; _] => [CNow te]
                 | _ => []
                 end ++ p |}.
Proof.
  unfold ExtractWaitSecsM, ExtractWaitSecs, utcWait.
  destruct (FindStringSubmatch 2 utcTimeRe content)
    as [[|m0 [|m1 [|m2 [|m3 l]]]]|]; reflexivity.
Qed.



(** *** The three theorems on how a watchdog ends, on concrete runs *)

Lemma capture_failure_is_final_example :
  calls (Watch (Scenario.cfgOf "claude" "") "claude-swarm" "%1" 1 true
           [RSelect false; RCapture None; RSelect false])
    = [CSelect (mul 30 Second) false] ++ CCapturePane "%1" None :: []
  /\ @nil Call = []
  /\ returned (Watch (Scenario.cfgOf "claude" "") "claude-swarm" "%1" 1 true
                 [RSelect false; RCapture None; RSelect false]) = true.
Proof.
  split; [reflexivity|].
  apply (capture_failure_is_final (Scenario.cfgOf "claude" "") "claude-swarm"
           "%1" 1 true [RSelect false; RCapture None; RSelect false]
           [CSelect (mul 30 Second) false] "%1" []).
  reflexivity.
Defined.

Lemma WatchWindow_final_call_example :
  (calls (WatchWindow (Scenario.cfgOf "claude" "") "claude-swarm" "@1" 1 false
            Scenario.cancelAnswers)
     = firstn 8 (calls (WatchWindow (Scenario.cfgOf "claude" "")
                          "claude-swarm" "@1" 1 false Scenario.cancelAnswers))
         ++ CSelect (5 * 10 ^ 9) true :: []
   /\ final (CSelect (5 * 10 ^ 9) true) = true)
  /\ @nil Call = []
  /\ returned (WatchWindow (Scenario.cfgOf "claude" "") "claude-swarm" "@1" 1
                 false Scenario.cancelAnswers) = true.
Proof.
  assert (H : calls (WatchWindow (Scenario.cfgOf "claude" "") "claude-swarm"
                       "@1" 1 false Scenario.cancelAnswers)
              = firstn 8 (calls (WatchWindow (Scenario.cfgOf "claude" "")
                                   "claude-swarm" "@1" 1 false
                                   Scenario.cancelAnswers))
                ++ CSelect (5 * 10 ^ 9) true :: []).
  { vm_compute. reflexivity. }
  split; [split; [exact H|reflexivity]|].
  exact (WatchWindow_final_call (Scenario.cfgOf "claude" "") "claude-swarm"
           "@1" 1 false Scenario.cancelAnswers _ _ [] H eq_refl).
Defined.


End FootprintFacts.

(* ------------------------------------------------------------------ *)
(** ** More on the wait *)

Module WaitFacts.
Import Go Regexp Denote Time Usagelimit.
Import RegexpFacts UsagelimitFacts ParserFacts ClockFacts.

(** Text around an error message does not hide it. *)
Theorem HasError_in_context (pre t post : text) :
  HasError t = true -> HasError (pre ++ t ++ post) = true.
Proof.
  unfold HasError. rewrite !MatchString_iff.
  intros (c & a & w & b & -> & S). exists c, (pre ++ a), w, (b ++ post).
  split; [|assumption]. now rewrite <- !app_assoc.
Qed.

Lemma HasError_in_context_example :
  HasError (runes "You have exceeded your usage limit") = true
  /\ HasError (runes "> " ++ runes "You have exceeded your usage limit"
                 ++ runes ". Upgrade?") = true.
Proof.
  split; [reflexivity|].
  apply (HasError_in_context (runes "> ")
           (runes "You have exceeded your usage limit") (runes ". Upgrade?")).
  reflexivity.
Defined.

(** A wall-clock time that a clock can show is never more than a day
    away: the wait that the UTC strategy returns is above 0 and at most
    86400 seconds. *)
Theorem utc_wait_within_a_day (now : Time) (t m0 dh dm : text) (secs : Z) :
  FindStringSubmatch 2 utcTimeRe t = Some [m0; dh; dm] ->
  number dh < 24 -> number dm < 60 ->
  utcWait now t = Some secs ->
  ExtractWaitSecs now t = secs /\ 0 < secs <= 86400.
Proof.
  intros Hf Hh Hm Hu. unfold ExtractWaitSecs. rewrite Hu. split; [reflexivity|].
  destruct (utc_digits _ _ Hf) as (m0' & dh' & dm' & E & Hnh & Hdh & Hnm & Hdm).
  injection E as <- <- <-.
  assert (H0h : 0 <= number dh) by (apply digitsValue_nonneg; [lia|easy]).
  assert (H0m : 0 <= number dm) by (apply digitsValue_nonneg; [lia|easy]).
  assert (Eh : Atoi dh = number dh).
  { rewrite Atoi_digits by easy. apply Z.min_l. unfold maxInt. lia. }
  assert (Em : Atoi dm = number dm).
  { rewrite Atoi_digits by easy. apply Z.min_l. unfold maxInt. lia. }
  destruct (next_occurrence now (number dh) (number dm)) as [_ Hrange];
    [lia|lia|].
  unfold utcWait in Hu. rewrite Hf, Eh, Em in Hu. cbv zeta in Hu.
  rewrite (SecondsInt_Sub _ _ Hrange) in Hu.
  destruct (_ >? 0) eqn:G; [|discriminate]. injection Hu as <-.
  apply Z.gtb_lt in G. split; [assumption|].
  cbv zeta in Hrange. change (24 * Hour) with 86400000000000 in Hrange.
  match type of Hrange with _ < ?T <= _ => set (target := T) in * end.
  rewrite Second_value. rewrite day_value in Hrange.
  apply Z.div_le_upper_bound; lia.
Qed.

Lemma utc_wait_within_a_day_example :
  (FindStringSubmatch 2 utcTimeRe Scenario.limitText
     = Some [runes "after 14:00 UTC"; runes "14"; runes "00"]
   /\ number (runes "14") < 24 /\ number (runes "00") < 60
   /\ utcWait Scenario.halfToTwo Scenario.limitText = Some 30)
  /\ ExtractWaitSecs Scenario.halfToTwo Scenario.limitText = 30
  /\ 0 < 30 <= 86400.
Proof.
  split; [repeat split|].
  apply (utc_wait_within_a_day Scenario.halfToTwo Scenario.limitText
           (runes "after 14:00 UTC") (runes "14") (runes "00") 30);
    reflexivity.
Defined.

End WaitFacts.

(* ------------------------------------------------------------------ *)
(** ** The resume transition *)

Module ResumeFacts.
Import Go Regexp Time Usagelimit Config Monitor History Footprint Cmd Scenario.
Import MonitorFacts FuelFacts WorkerFacts.

(** *** Runs do not look at the calls made before them *)

Local Abbreviation framed m :=
  (forall s q p,
     m {| script := s; past := q ++ p |}
     = onto p (m {| script := s; past := q |})).

Lemma framed_ret {A} (a : A) : framed (ret a).
Proof. reflexivity. Qed.

Lemma framed_pending {A} : framed (@Pending A).
Proof. reflexivity. Qed.

Lemma framed_bind {A B} (m : M A) (k : A -> M B) :
  framed m -> (forall a, framed (k a)) -> framed (bind m k).
Proof.
  intros Hm Hk s q p. unfold bind. rewrite Hm.
  destruct (m {| script := s; past := q |}) as [a [s' q']|[s' q']]; simpl;
    [apply Hk|reflexivity].
Qed.

Lemma framed_call c : framed (call c).
Proof. reflexivity. Qed.

Lemma framed_select d : framed (selectDone d).
Proof. intros s q p. unfold selectDone. simpl. now destruct s as [|[]]. Qed.

Lemma framed_now : framed timeNow.
Proof. intros s q p. unfold timeNow. simpl. now destruct s as [|[]]. Qed.

Lemma framed_capture tgt : framed (CapturePane tgt).
Proof. intros s q p. unfold CapturePane. simpl. now destruct s as [|[]]. Qed.

Lemma framed_session ses : framed (HasSession ses).
Proof. intros s q p. unfold HasSession. simpl. now destruct s as [|[]]. Qed.

Lemma framed_logf log line : framed (logf log line).
Proof.
  unfold logf. apply framed_bind; [apply framed_now|]. intros t.
  apply framed_bind; [apply framed_call|]. intros _.
  destruct log; [apply framed_call|apply framed_ret].
Qed.

Lemma framed_extract content : framed (ExtractWaitSecsM content).
Proof.
  unfold ExtractWaitSecsM.
  destruct (FindStringSubmatch 2 utcTimeRe content)
    as [[|m0 [|m1 [|m2 [|m3 l]]]]|]; try apply framed_ret.
  apply framed_bind; [apply framed_now|]. intros t. apply framed_ret.
Qed.

Lemma framed_waitUntil fuel deadline : framed (waitUntil fuel deadline).
Proof.
  induction fuel as [|fuel IH]; [apply framed_pending|]. cbn [waitUntil].
  apply framed_bind; [apply framed_now|]. intros now.
  destruct (Before now deadline); [|apply framed_ret].
  apply framed_bind; [apply framed_select|]. intros done.
  destruct done; [apply framed_ret|apply IH].
Qed.

Lemma onto_onto {A} p q (r : Res A) : onto p (onto q r) = onto (q ++ p) r.
Proof. destruct r as [a w|w]; simpl; now rewrite <- app_assoc. Qed.

Lemma history_onto {A} p (r : Res A) : history (onto p r) = history r ++ p.
Proof. now destruct r. Qed.

Lemma returned_onto {A} p (r : Res A) : returned (onto p r) = returned r.
Proof. now destruct r. Qed.

(** *** What a wait leaves behind *)

(** A wait takes answers from the front of the script and sends no
    keystroke. *)
Lemma waitUntil_run fuel deadline : forall s q,
  exists used new s',
    s = used ++ s' /\ Forall notSend new
    /\ (waitUntil fuel deadline {| script := s; past := q |}
          = Pending {| script := s'; past := new ++ q |}
        \/ exists b, waitUntil fuel deadline {| script := s; past := q |}
                     = Ret b {| script := s'; past := new ++ q |}).
Proof.
  induction fuel as [|fuel IH]; intros s q.
  - exists [], [], s. simpl. auto.
  - cbn [waitUntil]. rewrite run_now. cbn [script past].
    destruct s as [|[b|t|r|b] s]; try (eexists [], [], _; simpl; now auto).
    destruct (Before t deadline).
    + rewrite run_select. cbn [script past].
      destruct s as [|[b| | | ] s];
        try (eexists [RNow t], [CNow t], _; simpl;
             split; [reflexivity|]; split; [now repeat constructor|now left]).
      destruct b.
      * exists [RNow t; RSelect true], [CSelect (mul 5 Second) true; CNow t], s.
        simpl. split; [reflexivity|]. split; [now repeat constructor|].
        right. now exists true.
      * destruct (IH s (CSelect (mul 5 Second) false :: CNow t :: q))
          as (used & new & s' & -> & Hn & Hr).
        exists (RNow t :: RSelect false :: used),
          (new ++ [CSelect (mul 5 Second) false; CNow t]), s'.
        split; [reflexivity|]. split.
        { apply Forall_app. split; [assumption|now repeat constructor]. }
        rewrite <- app_assoc. exact Hr.
    + exists [RNow t], [CNow t], s. simpl. split; [reflexivity|].
      split; [now repeat constructor|]. right. now exists false.
Qed.

Section Loop.

Variable cfg : Config.
Variable session target : string.
Variable waitLabel : Z -> Z -> Z -> string.
Variable workerNum : Z.
Variable log : bool.

Local Abbreviation loop := (watchLoop cfg session target waitLabel workerNum log).
Local Abbreviation fresh s :=
  (loop (S (List.length s)) false {| script := s; past := [] |}).
Local Abbreviation resume :=
  (CSendKeys target (CLIType cfg ++ " --continue")%string).
Local Abbreviation plain := (CSetLabel target (plainLabel workerNum)).

Lemma framed_watchLoop fuel : forall detected, framed (loop fuel detected).
Proof.
  induction fuel as [|fuel IH]; intros detected; [apply framed_pending|].
  cbn [watchLoop].
  apply framed_bind; [apply framed_select|]. intros done.
  destruct done; [apply framed_ret|].
  apply framed_bind; [apply framed_capture|]. intros [content|];
    [|apply framed_ret].
  destruct (negb detected && HasError content); [|apply IH].
  apply framed_bind; [apply framed_extract|]. intros waitSecs.
  apply framed_bind; [apply framed_logf|]. intros _.
  apply framed_bind; [apply framed_call|]. intros _.
  apply framed_bind; [apply framed_now|]. intros now.
  apply framed_bind; [apply framed_waitUntil|]. intros cancelled.
  destruct cancelled; [apply framed_ret|].
  apply framed_bind; [apply framed_session|]. intros alive.
  destruct alive; [|apply framed_ret]. cbn [negb].
  apply framed_bind; [apply framed_logf|]. intros _.
  apply framed_bind; [apply framed_call|]. intros _.
  apply framed_bind; [apply framed_call|]. intros _. apply IH.
Qed.

Lemma notSend_logged lg t line : Forall notSend (logged lg t line).
Proof. unfold logged. destruct lg; now repeat constructor. Qed.

(** A watchdog either never sends a keystroke, or after some calls that
    are no keystrokes it sends the resume keystroke, sets the plain label
    and goes on as a watchdog started on the answers that are left. *)
Lemma first_resume fuel : forall s,
  (List.length s < fuel)%nat ->
  Forall notSend (history (loop fuel false {| script := s; past := [] |}))
  \/ exists pre used rest,
       s = used ++ rest /\ (List.length rest < List.length s)%nat
       /\ Forall notSend pre
       /\ loop fuel false {| script := s; past := [] |}
          = onto (plain :: resume :: pre) (fresh rest).
Proof.
  induction fuel as [|fuel IH]; intros s Hlen; [lia|].
  cbn [watchLoop]. rewrite run_select. cbn [script past].
  destruct s as [|[b|t|r|b] s]; try (left; now constructor).
  destruct b; [left; now repeat constructor|].
  cbv beta iota. rewrite run_capture. cbn [script past].
  destruct s as [|[b|t|r|b] s]; try (left; now repeat constructor).
  destruct r as [content|]; [|left; now repeat constructor].
  cbv beta iota. cbn [negb andb].
  set (sel := CSelect (mul (MonitorInterval cfg) Second) false).
  set (cap := CCapturePane target (Some content)).
  destruct (HasError content).
  2:{ change [cap; sel] with ([] ++ [cap; sel]). rewrite framed_watchLoop.
      destruct (IH s) as [H|(pre & used & rest & -> & Hl & Hp & E)];
        [simpl in Hlen; lia| |].
      - left. rewrite history_onto. apply Forall_app. split; [assumption|].
        now repeat constructor.
      - right. exists (pre ++ [cap; sel]), (RSelect false :: RCapture (Some content) :: used), rest.
        split; [reflexivity|]. split; [simpl; lia|].
        split; [apply Forall_app; split; [assumption|now repeat constructor]|].
        rewrite E, onto_onto. reflexivity. }
  match goal with |- context [bind (ExtractWaitSecsM content) ?K ?W] =>
    set (k := K); set (w2 := W)
  end.
  assert (Common : forall wait reads used3 s3 r,
    s = used3 ++ s3 -> Forall notSend reads ->
    r = k wait {| script := s3; past := reads ++ [cap; sel] |} ->
    Forall notSend (history r)
    \/ exists pre used rest,
         RSelect false :: RCapture (Some content) :: s = used ++ rest
         /\ (List.length rest
             < List.length (RSelect false :: RCapture (Some content) :: s))%nat
         /\ Forall notSend pre
         /\ r = onto (plain :: resume :: pre) (fresh rest)).
  { intros wait reads used3 s3 r Es Hr Er.
    assert (N0 : Forall notSend (reads ++ [cap; sel]))
      by (apply Forall_app; split; [assumption|now repeat constructor]).
    subst k. cbv beta in Er. rewrite run_logf in Er. cbn [script past] in Er.
    destruct s3 as [|[b|tl|r'|b] s3]; try (left; rewrite Er; exact N0).
    rewrite logged_eq in Er.
    match type of Er with context [logged log tl ?L] => set (line := L) in Er end.
    rewrite run_call in Er. cbn [script past] in Er.
    match type of Er with context [CSetLabel target ?L :: logged _ _ _ ++ _] =>
      set (lbl := L) in Er
    end.
    assert (N1 : Forall notSend
                   (CSetLabel target lbl :: logged log tl line
                      ++ reads ++ [cap; sel])).
    { constructor; [exact I|]. apply Forall_app. split; [|exact N0].
      apply notSend_logged. }
    rewrite run_now in Er. cbn [script past] in Er.
    destruct s3 as [|[b|t0|r'|b] s3]; try (left; rewrite Er; exact N1).
    assert (N2 : Forall notSend
                   (CNow t0 :: CSetLabel target lbl :: logged log tl line
                      ++ reads ++ [cap; sel]))
      by (constructor; [exact I|exact N1]).
    unfold bind at 1 in Er.
    match type of Er with context [waitUntil fuel ?D ?W] =>
      destruct (waitUntil_run fuel D s3 (past W))
        as (used4 & new & s4 & Es4 & Hn4 & Hw)
    end.
    cbn [past] in Hw.
    assert (N3 : Forall notSend
                   (new ++ CNow t0 :: CSetLabel target lbl :: logged log tl line
                      ++ reads ++ [cap; sel]))
      by (apply Forall_app; split; assumption).
    destruct Hw as [Hw|[b Hw]]; rewrite Hw in Er; [left; rewrite Er; exact N3|].
    destruct b; [left; rewrite Er; exact N3|].
    rewrite run_session in Er. cbn [script past] in Er.
    destruct s4 as [|[b|t|r'|b] s4]; try (left; rewrite Er; exact N3).
    destruct b; cbn [negb] in Er; cbv beta iota in Er;
      [|left; rewrite Er; constructor; [exact I|exact N3]].
    rewrite run_logf in Er. cbn [script past] in Er.
    destruct s4 as [|[b|ts|r'|b] s4];
      try (left; rewrite Er; constructor; [exact I|exact N3]).
    rewrite logged_eq in Er. rewrite !run_call in Er. cbn [script past] in Er.
    right.
    match type of Er with
      context [loop fuel false {| script := s4; past := plain :: resume :: ?P |}] =>
      exists P,
        (RSelect false :: RCapture (Some content) :: used3
           ++ RNow tl :: RNow t0 :: used4 ++ [RHasSession true; RNow ts]),
        s4
    end.
    split.
    { rewrite Es, Es4. simpl. do 2 f_equal. rewrite <- !app_assoc. simpl.
      do 3 f_equal. rewrite <- app_assoc. reflexivity. }
    split.
    { rewrite Es, Es4. simpl. rewrite !length_app. simpl.
      rewrite !length_app. simpl. lia. }
    split.
    { apply Forall_app. split; [apply notSend_logged|].
      constructor; [exact I|exact N3]. }
    rewrite Er.
    match goal with |- loop fuel false {| script := s4; past := ?Q |} = _ =>
      change Q with ([] ++ Q)
    end.
    rewrite framed_watchLoop. f_equal.
    apply watchLoop_fuel; cbn [script]; [|lia].
    rewrite Es, Es4 in Hlen. simpl in Hlen. rewrite !length_app in Hlen.
    simpl in Hlen. rewrite !length_app in Hlen. simpl in Hlen. lia. }
  destruct (run_extract content k w2)
    as [E|[(Hrc & E)|(te & s' & Hrc & Hs' & E)]]; rewrite E.
  - left. subst w2. now repeat constructor.
  - apply (Common (relativeWait content) [] [] s);
      [reflexivity|constructor|reflexivity].
  - subst w2. cbn [script past] in *. subst s.
    apply (Common (ExtractWaitSecs te content) [CNow te] [RNow te] s');
      [reflexivity|now repeat constructor|reflexivity].
Qed.

Lemma notSend_split pre : forall before tgt keys after (c : Call) tail,
  Forall notSend pre -> notSend c ->
  before ++ CSendKeys tgt keys :: after = pre ++ resume :: c :: tail ->
  (before = pre /\ CSendKeys tgt keys = resume /\ after = c :: tail)
  \/ exists before', tail = before' ++ CSendKeys tgt keys :: after.
Proof.
  induction pre as [|x pre IH]; intros before tgt keys after c tail Hp Hc E.
  - destruct before as [|y before]; simpl in E.
    + injection E as E1 E2. left. now rewrite E1, E2.
    + injection E as E1 E2. destruct before as [|z before]; simpl in E2.
      * injection E2 as E2 E3. subst c. destruct Hc.
      * injection E2 as E2 E3. right. now exists before.
  - inversion Hp as [|? ? Hx Hp']; subst.
    destruct before as [|y before]; simpl in E.
    + injection E as E1 E2. subst x. destruct Hx.
    + injection E as E1 E2.
      destruct (IH _ _ _ _ _ _ Hp' Hc E2) as [(-> & H2 & H3)|H]; [left|now right].
      now subst.
Qed.

(** Every resume keystroke of a watchdog is the configured type followed
    by " --continue", goes to the watchdog's own target, is followed by
    the plain label, and from there on the watchdog runs as one started
    afresh, with no detection under way, on the answers that are left. *)
Lemma resume_then_fresh : forall n s before tgt keys after,
  (List.length s <= n)%nat ->
  calls (fresh s) = before ++ CSendKeys tgt keys :: after ->
  tgt = target /\ keys = (CLIType cfg ++ " --continue")%string
  /\ exists used rest,
       s = used ++ rest
       /\ after = plain :: calls (fresh rest)
       /\ returned (fresh s) = returned (fresh rest).
Proof.
  induction n as [|n IH]; intros s before tgt keys after Hn H.
  - destruct s; [|simpl in Hn; lia]. destruct before as [|? [|? ?]]; discriminate.
  - destruct (first_resume (S (List.length s)) s ltac:(lia))
      as [Hno|(pre & used & rest & Es & Hl & Hp & E)].
    + exfalso. apply calls_split in H. rewrite H in Hno.
      apply Forall_app in Hno. destruct Hno as [_ Hno].
      inversion Hno as [|? ? Hc _]. exact Hc.
    + assert (Ec : calls (fresh s) = rev pre ++ resume :: plain :: calls (fresh rest)).
      { unfold calls. rewrite E, history_onto, rev_app_distr. simpl.
        now rewrite <- !app_assoc. }
      rewrite Ec in H.
      destruct (notSend_split (rev pre) before tgt keys after plain
                  (calls (fresh rest)) (Forall_rev Hp) I (eq_sym H))
        as [(Hb & Hk & Ha)|(before' & Ht)].
      * injection Hk as -> ->. split; [reflexivity|]. split; [reflexivity|].
        exists used, rest. split; [assumption|]. split; [assumption|].
        rewrite E. apply returned_onto.
      * destruct (IH rest before' tgt keys after ltac:(lia) Ht)
          as (-> & -> & used' & rest' & Er & Ha & Hr).
        split; [reflexivity|]. split; [reflexivity|].
        exists (used ++ used'), rest'.
        split; [now rewrite Es, Er, app_assoc|]. split; [assumption|].
        rewrite E, returned_onto. exact Hr.
Qed.

End Loop.

Lemma validated_type LookPath inRepo cfg :
  Root.validate LookPath inRepo cfg = None ->
  CLIType cfg = "claude"%string \/ CLIType cfg = "gemini"%string
  \/ CLIType cfg = "codex"%string.
Proof.
  unfold Root.validate. destruct (LookPath "tmux"%string); [|discriminate].
  destruct inRepo; [|discriminate]. cbn [negb].
  destruct (String.eqb_spec (CLIType cfg) "claude"); [auto|].
  destruct (String.eqb_spec (CLIType cfg) "gemini"); [auto|].
  destruct (String.eqb_spec (CLIType cfg) "codex"); [auto|]. discriminate.
Qed.


Local Open Scope string_scope.


End ResumeFacts.
